(** * go_proxy: the capture store and the forwarding / tunnel engines

    A shallow embedding of the Go sources [internal/capture] (record and
    store) and [internal/proxy] (handler.go, https.go), together with the
    properties the design document states about them.

    Conventions of the embedding.
    - A Go [int]/[int64] is a [Z]; the code never does arithmetic that could
      wrap on the values modelled here (only comparisons and [len]).
    - A Go [map] is a [gmap]; a [map] used as a set is a [gset]. Where the
      code ranges over a map, the visiting order is an explicit argument,
      since Go leaves it unspecified.
    - Channels live in a heap indexed by handles; a panic of the Go runtime
      is the [Panic] outcome of the [Result] monad, and evaluation stops
      there.
    - What the handlers receive from the outside (clock readings, fresh
      identifiers, the network) is collected in environment records.
    - A handler is a state transformer that returns, panics or waits for
      ever; a deferred call runs when its function returns and when it
      panics. *)

From Stdlib Require Import ZArith List String Ascii Lia Bool.
From stdpp Require Import base option list gmap sets strings pretty.

Local Open Scope string_scope.
Local Open Scope list_scope.
Local Open Scope Z_scope.

(** ** Outcomes: a value or a runtime panic *)

Inductive Result (A : Type) : Type :=
| Ok (a : A)
| Panic (msg : string).
Arguments Ok {A} a.
Arguments Panic {A} msg.

Global Instance Result_ret : MRet Result := fun A a => Ok a.
Global Instance Result_bind : MBind Result := fun A B f m =>
  match m with
  | Ok a => f a
  | Panic msg => Panic msg
  end.

(** ** Buffered channels, as the Go runtime gives them *)

Module gochan.

Record Chan (A : Type) : Type := mkChan {
  buf : list A;        (* queued values, oldest first *)
  capacity : nat;      (* make(chan T, capacity) *)
  closed : bool
}.
Arguments mkChan {A} buf capacity closed.
Arguments buf {A} c.
Arguments capacity {A} c.
Arguments closed {A} c.

(** [make(chan T, n)] *)
Definition make {A} (n : nat) : Chan A := mkChan [] n false.

(** [select { case ch <- v: default: }]: a send that never blocks. A send
    on a closed channel is ready and panics; a send on a full channel is
    not ready, so the default branch runs and the value is dropped. *)
Definition trySend {A} (v : A) (c : Chan A) : Result (Chan A) :=
  if closed c then Panic "send on closed channel"
  else if (length (buf c) <? capacity c)%nat
       then Ok (mkChan (buf c ++ [v]) (capacity c) false)
       else Ok c.

(** [close(ch)] *)
Definition close {A} (c : Chan A) : Result (Chan A) :=
  if closed c then Panic "close of closed channel"
  else Ok (mkChan (buf c) (capacity c) true).

(** [v, ok := <-ch] when it does not block: the oldest queued value, or
    the zero value with [ok = false] on a closed and drained channel.
    [None] stands for "would block". *)
Definition tryRecv {A} (c : Chan A) : option (option A * Chan A) :=
  match buf c with
  | v :: rest => Some (Some v, mkChan rest (capacity c) (closed c))
  | [] => if closed c then Some (None, c) else None
  end.

End gochan.

(** ** Package capture: the record *)

Module capture.

(** [CapturedRequest]. [Proto] and [ClientAddr] are the two fields the
    handlers assign besides those listed in request.go. *)
Record CapturedRequest : Type := mkCaptured {
  ID : string;
  Timestamp : Z;
  Method : string;
  URL : string;
  Host : string;
  Path : string;
  Proto : string;
  ClientAddr : string;
  RequestHeaders : gmap string (list string);
  RequestBody : list Byte.byte;
  StatusCode : Z;
  ResponseHeaders : gmap string (list string);
  ResponseBody : list Byte.byte;
  Duration : Z;
  IsHTTPS : bool;
  IsTunnel : bool
}.

(** [NewCapturedRequest]: every field zero except the timestamp and the two
    (empty) header maps. *)
Definition NewCapturedRequest (now : Z) : CapturedRequest :=
  {| ID := ""; Timestamp := now; Method := ""; URL := ""; Host := "";
     Path := ""; Proto := ""; ClientAddr := "";
     RequestHeaders := ∅; RequestBody := [];
     StatusCode := 0; ResponseHeaders := ∅; ResponseBody := [];
     Duration := 0; IsHTTPS := false; IsTunnel := false |}.

(** ** Package capture: the store *)

(** A subscriber handle is the address of a channel, a [positive]. A
    handle that the heap does not hold plays the part of the nil channel. *)

Record Store : Type := mkStore {
  requests : list CapturedRequest;
  maxSize : Z;
  subscribers : gset positive
}.

(** The store together with the channels its subscribers were given. *)
Record World : Type := mkWorld {
  w_store : Store;
  w_chans : gmap positive (gochan.Chan CapturedRequest)
}.

Definition NewStore (maxSize : Z) : Store :=
  let maxSize := if maxSize <=? 0 then 1000 else maxSize in
  {| requests := []; maxSize := maxSize; subscribers := ∅ |}.

Definition NewWorld (maxSize : Z) : World :=
  {| w_store := NewStore maxSize; w_chans := ∅ |}.

(** One iteration of the loop of [notifySubscribers]. *)
Definition notifyOne (req : CapturedRequest)
    (chans : gmap positive (gochan.Chan CapturedRequest)) (ch : positive)
  : Result (gmap positive (gochan.Chan CapturedRequest)) :=
  match chans !! ch with
  | None => Ok chans         (* nil channel: the send is never ready *)
  | Some c => c' ← gochan.trySend req c; Ok (<[ch := c']> chans)
  end.

(** [notifySubscribers], visiting the subscribers in the given order. *)
Fixpoint notifyIn (order : list positive) (req : CapturedRequest)
    (chans : gmap positive (gochan.Chan CapturedRequest))
  : Result (gmap positive (gochan.Chan CapturedRequest)) :=
  match order with
  | [] => Ok chans
  | ch :: rest => chans' ← notifyOne req chans ch; notifyIn rest req chans'
  end.

Definition notifySubscribers (req : CapturedRequest) (w : World)
  : Result (gmap positive (gochan.Chan CapturedRequest)) :=
  notifyIn (elements (subscribers (w_store w))) req (w_chans w).

(** [Add] *)
Definition Add (req : CapturedRequest) (w : World) : Result World :=
  let s := w_store w in
  kept ← (if Z.of_nat (length (requests s)) >=? maxSize s
          then match requests s with
               | [] => Panic "slice bounds out of range [1:0]"
               | _ :: tl => Ok tl
               end
          else Ok (requests s));
  let s' := {| requests := kept ++ [req]; maxSize := maxSize s;
               subscribers := subscribers s |} in
  chans' ← notifySubscribers req {| w_store := s'; w_chans := w_chans w |};
  Ok {| w_store := s'; w_chans := chans' |}.

Definition GetAll (w : World) : list CapturedRequest :=
  requests (w_store w).

Definition GetRecent (n : Z) (w : World) : list CapturedRequest :=
  let len := Z.of_nat (length (requests (w_store w))) in
  let n := if (n <=? 0) || (len <? n) then len else n in
  let start := len - n in
  drop (Z.to_nat start) (requests (w_store w)).

Fixpoint findByID (id : string) (rs : list CapturedRequest)
  : option CapturedRequest :=
  match rs with
  | [] => None
  | req :: rest => if String.eqb (ID req) id then Some req
                   else findByID id rest
  end.

(** [GetByID]; [None] is the nil pointer. *)
Definition GetByID (id : string) (w : World) : option CapturedRequest :=
  findByID id (requests (w_store w)).

Definition Clear (w : World) : World :=
  {| w_store := {| requests := []; maxSize := maxSize (w_store w);
                   subscribers := subscribers (w_store w) |};
     w_chans := w_chans w |}.

Definition Count (w : World) : Z :=
  Z.of_nat (length (requests (w_store w))).

(** [Subscribe]: [make] returns a channel no handle refers to yet. *)
Definition Subscribe (w : World) : positive * World :=
  let ch := fresh (dom (w_chans w)) in
  (ch,
   {| w_store := {| requests := requests (w_store w);
                    maxSize := maxSize (w_store w);
                    subscribers := {[ch]} ∪ subscribers (w_store w) |};
      w_chans := <[ch := gochan.make 100]> (w_chans w) |}).

(** [Unsubscribe]: [delete] from the set, then [close]. *)
Definition Unsubscribe (ch : positive) (w : World) : Result World :=
  let s' := {| requests := requests (w_store w);
               maxSize := maxSize (w_store w);
               subscribers := subscribers (w_store w) ∖ {[ch]} |} in
  match w_chans w !! ch with
  | None => Panic "close of nil channel"
  | Some c => c' ← gochan.close c;
              Ok {| w_store := s'; w_chans := <[ch := c']> (w_chans w) |}
  end.

End capture.

(** ** net/textproto: canonical header keys *)

Module textproto.

Definition isLower (c : ascii) : bool :=
  let n := N_of_ascii c in ((97 <=? n) && (n <=? 122))%N.
Definition isUpper (c : ascii) : bool :=
  let n := N_of_ascii c in ((65 <=? n) && (n <=? 90))%N.
Definition isDigit (c : ascii) : bool :=
  let n := N_of_ascii c in ((48 <=? n) && (n <=? 57))%N.
Definition toUpper (c : ascii) : ascii := ascii_of_N (N_of_ascii c - 32).
Definition toLower (c : ascii) : ascii := ascii_of_N (N_of_ascii c + 32).

(** The bytes of an RFC 7230 token. *)
Definition validHeaderFieldByte (c : ascii) : bool :=
  isLower c || isUpper c || isDigit c ||
  existsb (Ascii.eqb c)
    ["!"; "#"; "$"; "%"; "&"; "'"; "*"; "+"; "-"; "."; "^"; "_"; "`"; "|";
     "~"]%char.

Fixpoint allValid (s : string) : bool :=
  match s with
  | EmptyString => true
  | String c rest => validHeaderFieldByte c && allValid rest
  end.

(** First letter and every letter after a dash in upper case, the others
    in lower case. *)
Fixpoint canonLoop (upper : bool) (s : string) : string :=
  match s with
  | EmptyString => EmptyString
  | String c rest =>
      let c' := if upper && isLower c then toUpper c
                else if negb upper && isUpper c then toLower c
                else c in
      String c' (canonLoop (Ascii.eqb c' "-"%char) rest)
  end.

(** [CanonicalMIMEHeaderKey]: a key with a space or another byte that is
    not a token byte is returned as it is. *)
Definition CanonicalMIMEHeaderKey (s : string) : string :=
  if allValid s then canonLoop true s else s.

End textproto.

(** ** net/url: the URL structure and its printer *)

Module url.

Record Userinfo : Type := mkUserinfo {
  username : string;
  password : string;
  passwordSet : bool
}.

Record URL : Type := mkURL {
  Scheme : string;
  Opaque : string;
  User : option Userinfo;
  Host : string;
  Path : string;
  RawPath : string;
  OmitHost : bool;
  ForceQuery : bool;
  RawQuery : string;
  Fragment : string;
  RawFragment : string
}.

(** The percent-encoding routines of net/url, which [String] calls. *)
Class Escaping : Type := {
  escapeHost : string → string;          (* escape(h, encodeHost) *)
  EscapedPath : URL → string;
  EscapedFragment : URL → string;
  UserinfoString : Userinfo → string
}.

Definition IsAbs (u : URL) : bool := negb (String.eqb (Scheme u) "").

Definition nonEmpty (s : string) : bool := negb (String.eqb s "").

(** Does the part of [path] before its first slash hold a colon? *)
Fixpoint firstSegmentHasColon (path : string) : bool :=
  match path with
  | EmptyString => false
  | String c rest =>
      if Ascii.eqb c "/"%char then false
      else if Ascii.eqb c ":"%char then true
      else firstSegmentHasColon rest
  end.

Definition startsWithSlash (path : string) : bool :=
  match path with
  | String c _ => Ascii.eqb c "/"%char
  | EmptyString => false
  end.

(** The method [String] of [URL] *)
Definition String `{Escaping} (u : URL) : string :=
  let buf := if nonEmpty (Scheme u) then Scheme u +:+ ":" else "" in
  let buf :=
    if nonEmpty (Opaque u) then buf +:+ Opaque u
    else
      let buf :=
        if nonEmpty (Scheme u) || nonEmpty (Host u) || bool_decide (is_Some (User u))
        then
          if OmitHost u && negb (nonEmpty (Host u)) && negb (bool_decide (is_Some (User u)))
          then buf
          else
            let buf :=
              if nonEmpty (Host u) || nonEmpty (Path u) || bool_decide (is_Some (User u))
              then buf +:+ "//" else buf in
            let buf :=
              match User u with
              | Some ui => buf +:+ UserinfoString ui +:+ "@"
              | None => buf
              end in
            if nonEmpty (Host u) then buf +:+ escapeHost (Host u) else buf
        else buf in
      let path := EscapedPath u in
      let buf :=
        if nonEmpty path && negb (startsWithSlash path) && nonEmpty (Host u)
        then buf +:+ "/" else buf in
      let buf :=
        if negb (nonEmpty buf) && firstSegmentHasColon path
        then buf +:+ "./" else buf in
      buf +:+ path in
  let buf :=
    if ForceQuery u || nonEmpty (RawQuery u)
    then buf +:+ "?" +:+ RawQuery u else buf in
  if nonEmpty (Fragment u) then buf +:+ "#" +:+ EscapedFragment u else buf.

End url.

(** ** net/http: headers, requests, responses and the client *)

Module http.

Definition StatusOK : Z := 200.
Definition StatusBadRequest : Z := 400.
Definition StatusInternalServerError : Z := 500.
Definition StatusBadGateway : Z := 502.
Definition MethodConnect : string := "CONNECT".

(** [h[key]], the nil slice when the key is absent. *)
Definition Values (h : gmap string (list string)) (key : string)
  : list string :=
  default [] (h !! key).

(** [Header.Add] *)
Definition Add (key value : string) (h : gmap string (list string))
  : gmap string (list string) :=
  let key := textproto.CanonicalMIMEHeaderKey key in
  <[key := Values h key ++ [value]]> h.

(** [Header.Get]: the first value under the key, the empty string when
    there is none. *)
Definition Get (h : gmap string (list string)) (key : string) : string :=
  match Values h (textproto.CanonicalMIMEHeaderKey key) with
  | [] => ""
  | value :: _ => value
  end.

(** [Header.Del] *)
Definition Del (key : string) (h : gmap string (list string))
  : gmap string (list string) :=
  delete (textproto.CanonicalMIMEHeaderKey key) h.

(** An inbound request, as the server hands it to the handler. *)
Record Request : Type := mkRequest {
  Method : string;
  URL : url.URL;
  Proto : string;
  Header : gmap string (list string);
  Body : option (list Byte.byte);   (* the bytes the body reader yields *)
  ContentLength : Z;
  Host : string;
  RemoteAddr : string;
  TLS : bool                        (* r.TLS != nil *)
}.

(** An outbound request, as [NewRequestWithContext] builds it. *)
Record OutRequest : Type := mkOutRequest {
  o_Method : string;
  o_URL : string;
  o_Header : gmap string (list string);
  o_Body : list Byte.byte
}.

Record Response : Type := mkResponse {
  r_StatusCode : Z;
  r_Header : gmap string (list string);
  r_Body : list Byte.byte           (* the bytes the body reader yields *)
}.

(** What a round trip on the network gives. *)
Inductive RoundTrip : Type :=
| Answer (resp : Response)
| TransportError (err : string).

(** What a [CheckRedirect] policy may return. *)
Inductive RedirectDecision : Type :=
| FollowRedirect                        (* nil *)
| ErrUseLastResponse
| RefuseRedirect (err : string).

Record Transport : Type := mkTransport {
  MaxIdleConns : Z;
  MaxIdleConnsPerHost : Z;
  IdleConnTimeout : Z                   (* seconds *)
}.

Record Client : Type := mkClient {
  CheckRedirect : OutRequest → list OutRequest → RedirectDecision;
  Timeout : Z;                          (* seconds *)
  ClientTransport : Transport
}.

(** The parts of net/http and net that the handlers call and that are
    taken as given. *)
Class Lib : Type := {
  (* does NewRequestWithContext reject this method and URL? *)
  newRequestErr : string → string → bool;
  (* req.URL.Parse(loc): the URL a Location value refers to, seen from the
     request's URL; None is a value that does not parse *)
  resolveLocation : string → string → option string;
  (* does net.SplitHostPort return an error? *)
  splitHostPortErr : string → bool
}.

(** [io.ReadAll(io.LimitReader(r, n))] on a reader that yields [bytes]. *)
Definition readAllLimit (bytes : list Byte.byte) (n : Z) : list Byte.byte :=
  take (Z.to_nat n) bytes.

(** [http.NewRequestWithContext] *)
Definition NewRequestWithContext `{Lib} (method target : string)
    (body : list Byte.byte) : option OutRequest :=
  if newRequestErr method target then None
  else Some {| o_Method := method; o_URL := target; o_Header := ∅;
               o_Body := body |}.

Definition isRedirectStatus (code : Z) : bool :=
  (code =? 301) || (code =? 302) || (code =? 303) || (code =? 307)
  || (code =? 308).

(** The request a client would send next when it follows a redirect to
    [target]. *)
Definition redirectRequest (req : OutRequest) (code : Z)
    (target : string) : OutRequest :=
  let keep := (code =? 307) || (code =? 308) in
  {| o_Method := if keep then o_Method req
                 else if String.eqb (o_Method req) "HEAD" then "HEAD"
                 else "GET";
     o_URL := target;
     o_Header := o_Header req;
     o_Body := if keep then o_Body req else [] |}.

Definition locationError : string := "failed to parse Location header".

(** The method [Do] of [Client]: send the request; an answer that is no
    redirect, or a redirect whose Location is missing or empty, is returned
    as it is. Otherwise the Location is parsed first, and a value that does
    not parse is an error; only then is the policy asked, before going on.
    The result comes with the requests that went out, in order. [hops]
    bounds how often a policy that follows is obeyed. *)
Fixpoint doHops (hops : nat) `{Lib} (net : OutRequest → RoundTrip)
    (c : Client) (req : OutRequest) (via : list OutRequest)
  : RoundTrip * list OutRequest :=
  let sent := via ++ [req] in
  match net req with
  | TransportError err => (TransportError err, sent)
  | Answer resp =>
      if negb (isRedirectStatus (r_StatusCode resp)) then (Answer resp, sent)
      else
        let loc := Get (r_Header resp) "Location" in
        if String.eqb loc "" then (Answer resp, sent)
        else
          match resolveLocation (o_URL req) loc with
          | None => (TransportError locationError, sent)
          | Some target =>
              let next := redirectRequest req (r_StatusCode resp) target in
              match CheckRedirect c next sent with
              | ErrUseLastResponse => (Answer resp, sent)
              | RefuseRedirect err => (TransportError err, sent)
              | FollowRedirect =>
                  match hops with
                  | O => (TransportError "stopped after too many redirects", sent)
                  | S hops' => doHops hops' net c next sent
                  end
              end
          end
  end.

Definition Do `{Lib} (hops : nat) (net : OutRequest → RoundTrip)
    (c : Client) (req : OutRequest) : RoundTrip * list OutRequest :=
  doHops hops net c req [].

(** The policy of a client whose CheckRedirect is nil: follow, up to ten
    requests. *)
Definition defaultCheckRedirect (req : OutRequest) (via : list OutRequest)
  : RedirectDecision :=
  if (10 <=? length via)%nat then RefuseRedirect "stopped after 10 redirects"
  else FollowRedirect.

End http.

(** ** net: joining host and port *)

Module net.

Fixpoint containsByte (c : ascii) (s : string) : bool :=
  match s with
  | EmptyString => false
  | String d rest => Ascii.eqb c d || containsByte c rest
  end.

(** [net.JoinHostPort]: a host that holds a colon is taken for a literal
    IPv6 address and goes between brackets. *)
Definition JoinHostPort (host port : string) : string :=
  if containsByte ":"%char host
  then "[" +:+ host +:+ "]:" +:+ port
  else host +:+ ":" +:+ port.

End net.

(** ** Package proxy: the handler *)

Module proxy.

Import capture.

(** [Handler]; the store it points to is the [World] the handlers run in. *)
Record Handler : Type := mkHandler {
  httpClient : http.Client;
  maxRequestSize : Z
}.

(** [NewHandler] *)
Definition NewHandler (maxRequestSize : Z) : Handler :=
  let client :=
    {| http.CheckRedirect := fun _ _ => http.ErrUseLastResponse;
       http.Timeout := 60;
       http.ClientTransport :=
         {| http.MaxIdleConns := 100;
            http.MaxIdleConnsPerHost := 10;
            http.IdleConnTimeout := 90 |} |} in
  {| httpClient := client; maxRequestSize := maxRequestSize |}.

(** *** What a handler does to the outside *)

Inductive Conn : Type := ClientConn | TargetConn.

Inductive Event : Type :=
| EvHttpError (msg : string) (code : Z)     (* http.Error(w, msg, code) *)
| EvRoundTrip (req : http.OutRequest)       (* a request sent to the origin *)
| EvCloseBody                               (* resp.Body.Close() *)
| EvStoreAdd (req : CapturedRequest)        (* h.store.Add(captured) *)
| EvWriteHeader (hdr : gmap string (list string)) (code : Z)
                                            (* w.WriteHeader, with w.Header() *)
| EvWrite (body : list Byte.byte)           (* w.Write *)
| EvDial (addr : string)                    (* net.DialTimeout("tcp", addr, _) *)
| EvHijack                                  (* hijacker.Hijack() *)
| EvConnWrite (data : string) (ok : bool)   (* clientConn.Write *)
| EvCopyDone (from : Conn) (err : option string)
                                            (* an io.Copy returned; done <- *)
| EvClose (c : Conn).                       (* the deferred Close *)

(** What the outside gives a handler during one call. *)
Record Env : Type := mkEnv {
  e_now : Z;                 (* time.Now() on entry *)
  e_timestamp : Z;           (* time.Now() inside NewCapturedRequest *)
  e_uuid : string;           (* uuid.New().String() *)
  e_end : Z;                 (* the clock when time.Since is called *)
  e_net : http.OutRequest → http.RoundTrip;
  e_hops : nat;
  e_dial : string → bool;    (* does DialTimeout succeed? *)
  e_hijacker : bool;         (* is w an http.Hijacker? *)
  e_hijack : bool;           (* does Hijack succeed? *)
  e_ack : bool;              (* does the write of the 200 line succeed? *)
  e_relay : option (Conn * option string)
                             (* the copy that returns first, if one ever
                                does: its source and its error *)
}.

Record HState : Type := mkHState {
  world : World;
  trace : list Event
}.

(** How a call ends: it returns, it panics, or it waits for ever. *)
Inductive Outcome (A : Type) : Type :=
| Done (a : A) (s : HState)
| Panicked (msg : string) (s : HState)
| Blocked (s : HState).
Arguments Done {A} a s.
Arguments Panicked {A} msg s.
Arguments Blocked {A} s.

Definition Proc (A : Type) : Type := HState → Outcome A.

Definition ret {A} (a : A) : Proc A := fun s => Done a s.
Definition bind {A B} (m : Proc A) (f : A → Proc B) : Proc B :=
  fun s => match m s with
           | Done a s' => f a s'
           | Panicked msg s' => Panicked msg s'
           | Blocked s' => Blocked s'
           end.

Notation "m ;; k" := (bind m (fun _ => k))
  (at level 100, k at level 200, right associativity).

Definition emit (ev : Event) : Proc unit :=
  fun s => Done tt {| world := world s; trace := trace s ++ [ev] |}.

(** [h.store.Add(captured)] *)
Definition storeAdd (captured : CapturedRequest) : Proc unit :=
  fun s => match Add captured (world s) with
           | Ok w' => Done tt {| world := w';
                                trace := trace s ++ [EvStoreAdd captured] |}
           | Panic msg => Panicked msg s
           end.

(** A receive on a channel nobody will ever send on. *)
Definition block {A} : Proc A := fun s => Blocked s.

(** [defer] of the call seen as [ev], followed by the rest of the function
    [body]: the deferred call runs when the function returns and when it
    panics; a function that waits for ever never runs it. *)
Definition deferring {A} (ev : Event) (body : Proc A) : Proc A :=
  fun s => match body s with
           | Done a s' =>
               Done a {| world := world s'; trace := trace s' ++ [ev] |}
           | Panicked msg s' =>
               Panicked msg {| world := world s'; trace := trace s' ++ [ev] |}
           | Blocked s' => Blocked s'
           end.

(** [w.WriteHeader(code)] on the server's writer, with the header set [hdr]
    that [w.Header()] holds: net/http panics on a code below 100 or above
    999 and sends nothing. *)
Definition writeHeader (hdr : gmap string (list string)) (code : Z)
  : Proc unit :=
  fun s => if (code <? 100) || (999 <? code)
           then Panicked ("invalid WriteHeader code " +:+ pretty code) s
           else emit (EvWriteHeader hdr code) s.

(** The state a call leaves behind, and the call started on a store with
    nothing yet observed. *)
Definition final {A} (o : Outcome A) : HState :=
  match o with
  | Done _ s => s
  | Panicked _ s => s
  | Blocked s => s
  end.

Definition start (w : World) : HState := {| world := w; trace := [] |}.

Fixpoint emitAll (evs : list Event) : Proc unit :=
  match evs with
  | [] => ret tt
  | ev :: rest => emit ev;; emitAll rest
  end.

(** *** Assignments to the fields of the record being built *)

Definition set_RequestBody (b : list Byte.byte) (c : CapturedRequest)
  : CapturedRequest :=
  {| ID := ID c; Timestamp := Timestamp c; Method := Method c; URL := URL c;
     Host := Host c; Path := Path c; Proto := Proto c;
     ClientAddr := ClientAddr c; RequestHeaders := RequestHeaders c;
     RequestBody := b; StatusCode := StatusCode c;
     ResponseHeaders := ResponseHeaders c; ResponseBody := ResponseBody c;
     Duration := Duration c; IsHTTPS := IsHTTPS c; IsTunnel := IsTunnel c |}.

Definition set_StatusCode (code : Z) (c : CapturedRequest) : CapturedRequest :=
  {| ID := ID c; Timestamp := Timestamp c; Method := Method c; URL := URL c;
     Host := Host c; Path := Path c; Proto := Proto c;
     ClientAddr := ClientAddr c; RequestHeaders := RequestHeaders c;
     RequestBody := RequestBody c; StatusCode := code;
     ResponseHeaders := ResponseHeaders c; ResponseBody := ResponseBody c;
     Duration := Duration c; IsHTTPS := IsHTTPS c; IsTunnel := IsTunnel c |}.

Definition set_ResponseHeaders (h : gmap string (list string))
    (c : CapturedRequest) : CapturedRequest :=
  {| ID := ID c; Timestamp := Timestamp c; Method := Method c; URL := URL c;
     Host := Host c; Path := Path c; Proto := Proto c;
     ClientAddr := ClientAddr c; RequestHeaders := RequestHeaders c;
     RequestBody := RequestBody c; StatusCode := StatusCode c;
     ResponseHeaders := h; ResponseBody := ResponseBody c;
     Duration := Duration c; IsHTTPS := IsHTTPS c; IsTunnel := IsTunnel c |}.

Definition set_ResponseBody (b : list Byte.byte) (c : CapturedRequest)
  : CapturedRequest :=
  {| ID := ID c; Timestamp := Timestamp c; Method := Method c; URL := URL c;
     Host := Host c; Path := Path c; Proto := Proto c;
     ClientAddr := ClientAddr c; RequestHeaders := RequestHeaders c;
     RequestBody := RequestBody c; StatusCode := StatusCode c;
     ResponseHeaders := ResponseHeaders c; ResponseBody := b;
     Duration := Duration c; IsHTTPS := IsHTTPS c; IsTunnel := IsTunnel c |}.

Definition set_Duration (d : Z) (c : CapturedRequest) : CapturedRequest :=
  {| ID := ID c; Timestamp := Timestamp c; Method := Method c; URL := URL c;
     Host := Host c; Path := Path c; Proto := Proto c;
     ClientAddr := ClientAddr c; RequestHeaders := RequestHeaders c;
     RequestBody := RequestBody c; StatusCode := StatusCode c;
     ResponseHeaders := ResponseHeaders c; ResponseBody := ResponseBody c;
     Duration := d; IsHTTPS := IsHTTPS c; IsTunnel := IsTunnel c |}.

(** *** handler.go *)

(** [buildTargetURL] *)
Definition buildTargetURL `{url.Escaping} (r : http.Request) : string :=
  if url.IsAbs (http.URL r) then url.String (http.URL r)
  else
    let scheme := if http.TLS r then "https" else "http" in
    let u := {| url.Scheme := scheme; url.Opaque := ""; url.User := None;
                url.Host := http.Host r;
                url.Path := url.Path (http.URL r);
                url.RawPath := ""; url.OmitHost := false;
                url.ForceQuery := false;
                url.RawQuery := url.RawQuery (http.URL r);
                url.Fragment := ""; url.RawFragment := "" |} in
    url.String u.

(** [cloneHeaders] *)
Definition cloneHeaders (h : gmap string (list string))
  : gmap string (list string) :=
  (fun values => [] ++ values) <$> h.

(** [copyHeaders], ranging over the entries of [src] in the given order. *)
Definition copyHeadersIn (entries : list (string * list string))
    (dst : gmap string (list string)) : gmap string (list string) :=
  foldl (fun dst '(key, values) =>
           foldl (fun dst value => http.Add key value dst) dst values)
        dst entries.

Definition copyHeaders (dst src : gmap string (list string))
  : gmap string (list string) :=
  copyHeadersIn (map_to_list src) dst.

Definition hopByHopHeaders : list string :=
  ["Connection"; "Keep-Alive"; "Proxy-Authenticate"; "Proxy-Authorization";
   "Te"; "Trailer"; "Transfer-Encoding"; "Upgrade"].

(** [removeHopByHopHeaders] *)
Definition removeHopByHopHeaders (h : gmap string (list string))
  : gmap string (list string) :=
  foldl (fun h header => http.Del header h) h hopByHopHeaders.

(** The record as it stands after the assignments that open [handleHTTP],
    the body included. *)
Definition capturedHTTP `{url.Escaping} (h : Handler) (env : Env)
    (r : http.Request) : CapturedRequest :=
  let captured := NewCapturedRequest (e_timestamp env) in
  let captured :=
    {| ID := e_uuid env; Timestamp := Timestamp captured;
       Method := http.Method r; URL := buildTargetURL r;
       Host := http.Host r; Path := url.Path (http.URL r);
       Proto := http.Proto r; ClientAddr := http.RemoteAddr r;
       RequestHeaders := cloneHeaders (http.Header r);
       RequestBody := RequestBody captured;
       StatusCode := StatusCode captured;
       ResponseHeaders := ResponseHeaders captured;
       ResponseBody := ResponseBody captured;
       Duration := Duration captured;
       IsHTTPS := false; IsTunnel := false |} in
  match http.Body r with
  | Some bytes =>
      if 0 <? http.ContentLength r
      then set_RequestBody (http.readAllLimit bytes (maxRequestSize h)) captured
      else captured
  | None => captured
  end.

(** The local [requestBody] of [handleHTTP]. *)
Definition requestBodyOf (h : Handler) (r : http.Request) : list Byte.byte :=
  match http.Body r with
  | Some bytes =>
      if 0 <? http.ContentLength r
      then http.readAllLimit bytes (maxRequestSize h)
      else []
  | None => []
  end.

(** The outbound request once the headers are copied and cleaned. *)
Definition outboundOf (r : http.Request) (outReq : http.OutRequest)
  : http.OutRequest :=
  {| http.o_Method := http.o_Method outReq;
     http.o_URL := http.o_URL outReq;
     http.o_Header :=
       removeHopByHopHeaders (copyHeaders (http.o_Header outReq) (http.Header r));
     http.o_Body := http.o_Body outReq |}.

(** [handleHTTP] *)
Definition handleHTTP `{url.Escaping} `{http.Lib} (h : Handler) (env : Env)
    (r : http.Request) : Proc unit :=
  let startTime := e_now env in
  let targetURL := buildTargetURL r in
  let requestBody := requestBodyOf h r in
  let captured := capturedHTTP h env r in
  match http.NewRequestWithContext (http.Method r) targetURL requestBody with
  | None => emit (EvHttpError "Bad Request" http.StatusBadRequest)
  | Some outReq =>
      let outReq := outboundOf r outReq in
      let '(result, sent) := http.Do (e_hops env) (e_net env) (httpClient h) outReq in
      emitAll (EvRoundTrip <$> sent);;
      match result with
      | http.TransportError err =>
          emit (EvHttpError "Bad Gateway" http.StatusBadGateway)
      | http.Answer resp =>
          let captured := set_StatusCode (http.r_StatusCode resp) captured in
          let captured :=
            set_ResponseHeaders (cloneHeaders (http.r_Header resp)) captured in
          let responseBody :=
            http.readAllLimit (http.r_Body resp) (maxRequestSize h) in
          let captured := set_ResponseBody responseBody captured in
          let captured := set_Duration (e_end env - startTime) captured in
          let wHeader := removeHopByHopHeaders (copyHeaders ∅ (http.r_Header resp)) in
          deferring EvCloseBody
            (storeAdd captured;;
             writeHeader wHeader (http.r_StatusCode resp);;
             emit (EvWrite responseBody))
      end
  end.

(** *** https.go *)

Definition ackLine : string :=
  "HTTP/1.1 200 Connection Established" +:+
  String "013" (String "010" (String "013" (String "010" ""))).

(** The record as it stands after the assignments that open
    [handleConnect]. *)
Definition capturedConnect (env : Env) (r : http.Request) : CapturedRequest :=
  let captured := NewCapturedRequest (e_timestamp env) in
  {| ID := e_uuid env; Timestamp := Timestamp captured;
     Method := "CONNECT"; URL := "https://" +:+ http.Host r;
     Host := http.Host r; Path := "";
     Proto := http.Proto r; ClientAddr := http.RemoteAddr r;
     RequestHeaders := cloneHeaders (http.Header r);
     RequestBody := RequestBody captured;
     StatusCode := StatusCode captured;
     ResponseHeaders := ResponseHeaders captured;
     ResponseBody := ResponseBody captured;
     Duration := Duration captured;
     IsHTTPS := true; IsTunnel := true |}.

(** The address [handleConnect] dials. *)
Definition dialAddr `{http.Lib} (r : http.Request) : string :=
  let host := http.Host r in
  if http.splitHostPortErr host then net.JoinHostPort host "443" else host.

(** [handleConnect]. The two copying goroutines are seen through the one
    thing the handler waits for: the first value on [done]. *)
Definition handleConnect `{http.Lib} (h : Handler) (env : Env)
    (r : http.Request) : Proc unit :=
  let startTime := e_now env in
  let captured := capturedConnect env r in
  let host := dialAddr r in
  emit (EvDial host);;
  if negb (e_dial env host) then
    emit (EvHttpError "Bad Gateway" http.StatusBadGateway);;
    let captured := set_StatusCode http.StatusBadGateway captured in
    let captured := set_Duration (e_end env - startTime) captured in
    storeAdd captured
  else
    deferring (EvClose TargetConn)
      (if negb (e_hijacker env) then
         emit (EvHttpError "Internal Server Error" http.StatusInternalServerError);;
         let captured := set_StatusCode http.StatusInternalServerError captured in
         let captured := set_Duration (e_end env - startTime) captured in
         storeAdd captured
       else
         emit EvHijack;;
         if negb (e_hijack env) then
           emit (EvHttpError "Internal Server Error" http.StatusInternalServerError);;
           let captured := set_StatusCode http.StatusInternalServerError captured in
           let captured := set_Duration (e_end env - startTime) captured in
           storeAdd captured
         else
           deferring (EvClose ClientConn)
             (emit (EvConnWrite ackLine (e_ack env));;
              if negb (e_ack env) then
                let captured :=
                  set_StatusCode http.StatusInternalServerError captured in
                let captured := set_Duration (e_end env - startTime) captured in
                storeAdd captured
              else
                let captured := set_StatusCode http.StatusOK captured in
                match e_relay env with
                | None => block
                | Some (from, err) =>
                    emit (EvCopyDone from err);;
                    let captured :=
                      set_Duration (e_end env - startTime) captured in
                    storeAdd captured
                end)).

(** [ServeHTTP] *)
Definition ServeHTTP `{url.Escaping} `{http.Lib} (h : Handler) (env : Env)
    (r : http.Request) : Proc unit :=
  if String.eqb (http.Method r) http.MethodConnect
  then handleConnect h env r
  else handleHTTP h env r.

End proxy.

(** ** Sequences of calls on the store *)

Module calls.

Import capture.

(** One call of a client of the store; [OpRecv] is a consumer taking the
    next record from its channel, as the streaming endpoint does. *)
Inductive Op : Type :=
| OpAdd (req : CapturedRequest)
| OpClear
| OpSubscribe
| OpUnsubscribe (ch : positive)
| OpRecv (ch : positive).

Record Run : Type := mkRun {
  now : World;
  handles : list positive;                      (* returned by Subscribe *)
  received : list (positive * CapturedRequest)  (* taken by consumers *)
}.

Definition begin (w : World) : Run :=
  {| now := w; handles := []; received := [] |}.

Definition recv (ch : positive) (st : Run) : Run :=
  match w_chans (now st) !! ch with
  | Some c =>
      match gochan.tryRecv c with
      | Some (Some req, c') =>
          {| now := {| w_store := w_store (now st);
                       w_chans := <[ch := c']> (w_chans (now st)) |};
             handles := handles st;
             received := received st ++ [(ch, req)] |}
      | _ => st
      end
  | None => st
  end.

Definition step (op : Op) (st : Run) : Result Run :=
  match op with
  | OpAdd req =>
      w ← Add req (now st);
      Ok {| now := w; handles := handles st; received := received st |}
  | OpClear =>
      Ok {| now := Clear (now st); handles := handles st;
            received := received st |}
  | OpSubscribe =>
      let '(ch, w) := Subscribe (now st) in
      Ok {| now := w; handles := handles st ++ [ch];
            received := received st |}
  | OpUnsubscribe ch =>
      w ← Unsubscribe ch (now st);
      Ok {| now := w; handles := handles st; received := received st |}
  | OpRecv ch => Ok (recv ch st)
  end.

Fixpoint run (ops : list Op) (st : Run) : Result Run :=
  match ops with
  | [] => Ok st
  | op :: rest => st' ← step op st; run rest st'
  end.

(** The records the calls append, in order. *)
Fixpoint added (ops : list Op) : list CapturedRequest :=
  match ops with
  | [] => []
  | OpAdd req :: rest => req :: added rest
  | _ :: rest => added rest
  end.

(** What the consumer of [ch] has taken so far, in order. *)
Definition receivedBy (ch : positive) (st : Run) : list CapturedRequest :=
  snd <$> filter (fun p => fst p = ch) (received st).

Definition unsubscribes (ch : positive) (op : Op) : bool :=
  match op with
  | OpUnsubscribe ch' => bool_decide (ch' = ch)
  | _ => false
  end.

End calls.

(** ** Vocabulary of the statements *)

Import capture.

(** The last [n] elements of a list. *)
Definition lastN {A} (n : nat) (l : list A) : list A :=
  drop (length l - n) l.

(** Every registered subscriber has a channel, and that channel is open. *)
Definition subscribersOpen (w : World) : Prop :=
  ∀ ch, ch ∈ subscribers (w_store w) →
        ∃ c, w_chans w !! ch = Some c ∧ gochan.closed c = false.

(** The states of a store that [NewStore] made and its methods changed. *)
Definition storeOk (w : World) : Prop :=
  0 < maxSize (w_store w) ∧
  Z.of_nat (length (requests (w_store w))) ≤ maxSize (w_store w) ∧
  subscribersOpen w.

(** What one delivery does to a subscriber's queue. *)
Definition deliver (req : CapturedRequest) (c : gochan.Chan CapturedRequest)
  : gochan.Chan CapturedRequest :=
  if (length (gochan.buf c) <? gochan.capacity c)%nat
  then gochan.mkChan (gochan.buf c ++ [req]) (gochan.capacity c) false
  else c.

(** The part of the history that [Add] keeps. *)
Definition evict (w : World) : list CapturedRequest :=
  if Z.of_nat (length (requests (w_store w))) >=? maxSize (w_store w)
  then tail (requests (w_store w)) else requests (w_store w).

(** The appends of a whole list of records, one [Add] after the other. *)
Fixpoint addAll (reqs : list CapturedRequest) (w : World) : Result World :=
  match reqs with
  | [] => Ok w
  | req :: rest => w' ← Add req w; addAll rest w'
  end.

(** Header names are compared without regard to ASCII case. *)
Definition lowerChar (c : ascii) : ascii :=
  if textproto.isUpper c then textproto.toLower c else c.

Fixpoint lowerKey (s : string) : string :=
  match s with
  | EmptyString => EmptyString
  | String c rest => String (lowerChar c) (lowerKey rest)
  end.

(** The header set an event puts on the wire, if it puts one. *)
Definition headersSent (ev : proxy.Event) : option (gmap string (list string)) :=
  match ev with
  | proxy.EvRoundTrip req => Some (http.o_Header req)
  | proxy.EvWriteHeader hdr _ => Some hdr
  | _ => None
  end.

(** No key of [hdr] is the name [name], in any spelling. *)
Definition lacksHeader (name : string) (hdr : gmap string (list string)) : Prop :=
  hdr !! name = None ∧ ∀ k, is_Some (hdr !! k) → lowerKey k ≠ lowerKey name.

(** The record [handleHTTP] hands to the store once the origin answered. *)
Definition recordedHTTP `{url.Escaping} (h : proxy.Handler) (env : proxy.Env)
    (r : http.Request) (resp : http.Response) : CapturedRequest :=
  proxy.set_Duration (proxy.e_end env - proxy.e_now env)
    (proxy.set_ResponseBody
       (http.readAllLimit (http.r_Body resp) (proxy.maxRequestSize h))
       (proxy.set_ResponseHeaders (proxy.cloneHeaders (http.r_Header resp))
          (proxy.set_StatusCode (http.r_StatusCode resp)
             (proxy.capturedHTTP h env r)))).

(** The request [handleHTTP] dispatches. *)
Definition outboundHTTP `{url.Escaping} (h : proxy.Handler) (r : http.Request)
  : http.OutRequest :=
  proxy.outboundOf r
    {| http.o_Method := http.Method r; http.o_URL := proxy.buildTargetURL r;
       http.o_Header := ∅; http.o_Body := proxy.requestBodyOf h r |}.

(** The header set [handleHTTP] relays to the client. *)
Definition relayedHeader (resp : http.Response) : gmap string (list string) :=
  proxy.removeHopByHopHeaders (proxy.copyHeaders ∅ (http.r_Header resp)).

(** The record [handleConnect] hands to the store, with its status. *)
Definition recordedConnect (env : proxy.Env) (r : http.Request) (code : Z)
  : CapturedRequest :=
  proxy.set_Duration (proxy.e_end env - proxy.e_now env)
    (proxy.set_StatusCode code (proxy.capturedConnect env r)).

(** The request body an event carries: on a request sent to the origin and
    on a record handed to the store. *)
Definition requestBodySeen (ev : proxy.Event) : option (list Byte.byte) :=
  match ev with
  | proxy.EvRoundTrip req => Some (http.o_Body req)
  | proxy.EvStoreAdd rec => Some (RequestBody rec)
  | _ => None
  end.


(** Does [s] start with [p]? *)
Fixpoint hasPrefix (p s : string) : bool :=
  match p, s with
  | EmptyString, _ => true
  | String a p', String b s' => Ascii.eqb a b && hasPrefix p' s'
  | String _ _, EmptyString => false
  end.



(** A redirect answer whose Location the client can parse: the header is
    missing or empty, or it resolves against the URL of the request. An
    answer that is no redirect is not examined. *)
Definition locationParses `{http.Lib} (req : http.OutRequest)
    (resp : http.Response) : Prop :=
  http.isRedirectStatus (http.r_StatusCode resp) = true →
  http.Get (http.r_Header resp) "Location" = "" ∨
  ∃ target, http.resolveLocation (http.o_URL req)
              (http.Get (http.r_Header resp) "Location") = Some target.

(** Header keys as net/http's readers produce them. *)
Definition canonicalKeys (h : gmap string (list string)) : Prop :=
  ∀ k, is_Some (h !! k) → textproto.CanonicalMIMEHeaderKey k = k.

(** ** Concrete data for the instances *)

Module samples.

(** A record that carries the identifier [i] and nothing else. *)
Definition record (i : nat) : CapturedRequest :=
  let c := NewCapturedRequest 0 in
  {| ID := pretty i; Timestamp := Timestamp c; Method := "GET";
     URL := URL c; Host := Host c; Path := Path c; Proto := Proto c;
     ClientAddr := ClientAddr c; RequestHeaders := RequestHeaders c;
     RequestBody := RequestBody c; StatusCode := StatusCode c;
     ResponseHeaders := ResponseHeaders c; ResponseBody := ResponseBody c;
     Duration := Duration c; IsHTTPS := false; IsTunnel := false |}.

(** The records numbered [0] to [n - 1]. *)
Definition records (n : nat) : list CapturedRequest := record <$> seq 0 n.

(** A subscriber's life: 101 appends, of which the queue of 100 takes the
    first hundred, then two takings by the consumer and one more append. *)
Definition calls101 : list calls.Op :=
  (calls.OpAdd <$> records 101) ++
  [calls.OpRecv 1%positive; calls.OpRecv 1%positive; calls.OpClear;
   calls.OpSubscribe; calls.OpAdd (record 101)].

(** The state a run of calls ends in, or [d] if it panics. *)
Definition endOf (r : Result calls.Run) (d : calls.Run) : calls.Run :=
  match r with Ok st => st | Panic _ => d end.

(** Escaping that leaves every string as it is: right for hosts and paths
    made of unreserved characters. *)
Definition plainEscaping : url.Escaping :=
  {| url.escapeHost := fun host => host;
     url.EscapedPath := fun u => url.Path u;
     url.EscapedFragment := fun u => url.Fragment u;
     url.UserinfoString := fun ui => url.username ui |}.

Definition isHex (c : ascii) : bool :=
  let n := N_of_ascii c in
  ((48 <=? n) && (n <=? 57) || (65 <=? n) && (n <=? 70)
   || (97 <=? n) && (n <=? 102))%N.

(** Does two hexadecimal digits follow every percent sign? *)
Fixpoint validEscapes (s : string) : bool :=
  match s with
  | EmptyString => true
  | String "%" (String a (String b rest)) =>
      isHex a && isHex b && validEscapes rest
  | String "%" _ => false
  | String _ rest => validEscapes rest
  end.

(** A resolver for Location values that are absolute URLs: the value
    itself, and an error where net/url finds an invalid escape. *)
Definition resolveAbsolute (base loc : string) : option string :=
  if validEscapes loc then Some loc else None.

Definition plainLib : http.Lib :=
  {| http.newRequestErr := fun _ _ => false;
     http.resolveLocation := resolveAbsolute;
     http.splitHostPortErr := fun host => negb (net.containsByte ":"%char host) |}.

Definition relativeURL (path query : string) : url.URL :=
  {| url.Scheme := ""; url.Opaque := ""; url.User := None; url.Host := "";
     url.Path := path; url.RawPath := ""; url.OmitHost := false;
     url.ForceQuery := false; url.RawQuery := query; url.Fragment := "";
     url.RawFragment := "" |}.

Definition absoluteURL (scheme host path query : string) : url.URL :=
  {| url.Scheme := scheme; url.Opaque := ""; url.User := None;
     url.Host := host; url.Path := path; url.RawPath := "";
     url.OmitHost := false; url.ForceQuery := false; url.RawQuery := query;
     url.Fragment := ""; url.RawFragment := "" |}.

(** GET http://example.test/a?b=1, sent to the proxy with two headers. *)
Definition getRequest : http.Request :=
  {| http.Method := "GET";
     http.URL := absoluteURL "http" "example.test" "/a" "b=1";
     http.Proto := "HTTP/1.1";
     http.Header := {[ "X-Test" := ["v"]; "Connection" := ["keep-alive"] ]};
     http.Body := None; http.ContentLength := 0;
     http.Host := "example.test"; http.RemoteAddr := "127.0.0.1:50000";
     http.TLS := false |}.


Definition hello : list Byte.byte :=
  [Byte.x68; Byte.x65; Byte.x6c; Byte.x6c; Byte.x6f].

(** A POST whose five-byte body comes with a declared length, or chunked
    (then the server reports the length as -1). *)
Definition postRequest (contentLength : Z) : http.Request :=
  {| http.Method := "POST";
     http.URL := absoluteURL "http" "example.test" "/upload" "";
     http.Proto := "HTTP/1.1"; http.Header := ∅;
     http.Body := Some hello; http.ContentLength := contentLength;
     http.Host := "example.test"; http.RemoteAddr := "127.0.0.1:50000";
     http.TLS := false |}.

Definition connectRequest : http.Request :=
  {| http.Method := "CONNECT"; http.URL := relativeURL "" "";
     http.Proto := "HTTP/1.1"; http.Header := ∅;
     http.Body := None; http.ContentLength := 0;
     http.Host := "example.test:443"; http.RemoteAddr := "127.0.0.1:50000";
     http.TLS := false |}.

(** An origin that answers 302 with a Location and a hop-by-hop header. *)
Definition movedResponse : http.Response :=
  {| http.r_StatusCode := 302;
     http.r_Header := {[ "Location" := ["http://example.test/b"];
                         "Keep-Alive" := ["timeout=5"] ]};
     http.r_Body := [] |}.

(** The outside: the origin answers as [net] says; dialling, hijacking and
    the write of the acknowledgment succeed as the flags say. *)
Definition env (net : http.OutRequest → http.RoundTrip) (dial ack : bool)
    (relay : option (proxy.Conn * option string)) : proxy.Env :=
  {| proxy.e_now := 1000; proxy.e_timestamp := 1000;
     proxy.e_uuid := "6ba7b810-9dad-11d1-80b4-00c04fd430c8";
     proxy.e_end := 1250;
     proxy.e_net := net; proxy.e_hops := 10;
     proxy.e_dial := fun _ => dial;
     proxy.e_hijacker := true; proxy.e_hijack := true; proxy.e_ack := ack;
     proxy.e_relay := relay |}.

Definition unreachable : http.OutRequest → http.RoundTrip :=
  fun _ => http.TransportError "dial tcp: lookup example.test: no such host".

Definition moved : http.OutRequest → http.RoundTrip :=
  fun _ => http.Answer movedResponse.

(** An origin that answers 302 with a Location that is no URL. *)
Definition garbledResponse : http.Response :=
  {| http.r_StatusCode := 302;
     http.r_Header := {[ "Location" := ["%zz"] ]};
     http.r_Body := [] |}.

Definition garbled : http.OutRequest → http.RoundTrip :=
  fun _ => http.Answer garbledResponse.

End samples.

(** ** Vocabulary of the further statements *)

(** Is the call an unsubscription, of whatever handle? *)
Definition anyUnsubscribe (op : calls.Op) : bool :=
  match op with
  | calls.OpUnsubscribe _ => true
  | _ => false
  end.

(** The records a trace hands to the store, in order. *)
Definition storedRecords (tr : list proxy.Event) : list CapturedRequest :=
  omap (fun ev => match ev with
                  | proxy.EvStoreAdd rec => Some rec
                  | _ => None
                  end) tr.

(** The connections a trace closes, in order. *)
Definition closedConns (tr : list proxy.Event) : list proxy.Conn :=
  omap (fun ev => match ev with
                  | proxy.EvClose c => Some c
                  | _ => None
                  end) tr.

(** ** Further concrete data *)

Module cases.

(** An origin that answers 200 with a five-byte body. *)
Definition helloResponse : http.Response :=
  {| http.r_StatusCode := 200;
     http.r_Header := {[ "Content-Type" := ["text/plain"];
                         "Connection" := ["close"] ]};
     http.r_Body := samples.hello |}.

Definition answersHello : http.OutRequest → http.RoundTrip :=
  fun _ => http.Answer helloResponse.

(** A library whose [NewRequestWithContext] rejects a method that holds a
    space, as net/http does for every method that is not a token. *)
Definition strictLib : http.Lib :=
  {| http.newRequestErr := fun method _ => net.containsByte " "%char method;
     http.resolveLocation := samples.resolveAbsolute;
     http.splitHostPortErr := fun host => negb (net.containsByte ":"%char host) |}.

Definition badMethodRequest : http.Request :=
  {| http.Method := "GE T";
     http.URL := samples.absoluteURL "http" "example.test" "/a" "";
     http.Proto := "HTTP/1.1"; http.Header := ∅;
     http.Body := None; http.ContentLength := 0;
     http.Host := "example.test"; http.RemoteAddr := "127.0.0.1:50000";
     http.TLS := false |}.

(** An origin whose status line carries the code 099, which net/http's
    client accepts and hands on as 99. *)
Definition oddStatusResponse : http.Response :=
  {| http.r_StatusCode := 99;
     http.r_Header := {[ "Content-Type" := ["text/plain"] ]};
     http.r_Body := samples.hello |}.

Definition answersOdd : http.OutRequest → http.RoundTrip :=
  fun _ => http.Answer oddStatusResponse.

(** The outside of a CONNECT call, flag by flag. *)
Definition tunnelEnv (dial hijacker hijack ack : bool)
    (relay : option (proxy.Conn * option string)) : proxy.Env :=
  {| proxy.e_now := 1000; proxy.e_timestamp := 1000;
     proxy.e_uuid := "6ba7b811-9dad-11d1-80b4-00c04fd430c8";
     proxy.e_end := 1250;
     proxy.e_net := samples.unreachable; proxy.e_hops := 10;
     proxy.e_dial := fun _ => dial;
     proxy.e_hijacker := hijacker; proxy.e_hijack := hijack;
     proxy.e_ack := ack; proxy.e_relay := relay |}.

End cases.

(** The bodies a trace writes to the client, in order. *)
Definition writtenBodies (tr : list proxy.Event) : list (list Byte.byte) :=
  omap (fun ev => match ev with
                  | proxy.EvWrite body => Some body
                  | _ => None
                  end) tr.

(** The call panicked in [WriteHeader]: the client returned an answer
    whose status code is below 100 or above 999, the record of that answer
    is the one record stored, and nothing was written to the client. *)
Definition writeHeaderPanic `{url.Escaping} `{http.Lib} (h : proxy.Handler)
    (env : proxy.Env) (r : http.Request) (msg : string)
    (tr : list proxy.Event) : Prop :=
  ∃ resp,
    (http.Do (proxy.e_hops env) (proxy.e_net env) (proxy.httpClient h)
       (outboundHTTP h r)).1 = http.Answer resp ∧
    (http.r_StatusCode resp < 100 ∨ 999 < http.r_StatusCode resp) ∧
    msg = "invalid WriteHeader code " +:+ pretty (http.r_StatusCode resp) ∧
    storedRecords tr = [recordedHTTP h env r resp] ∧
    writtenBodies tr = [].

(** ** strconv: decimal integers *)

Module strconv.

Definition digit (c : ascii) : option Z :=
  if textproto.isDigit c then Some (Z.of_N (N_of_ascii c) - 48) else None.

Fixpoint digits (acc : Z) (s : string) : option Z :=
  match s with
  | EmptyString => Some acc
  | String c rest =>
      match digit c with
      | Some d => digits (10 * acc + d) rest
      | None => None
      end
  end.

(** [strconv.Atoi] where [int] has 64 bits: an optional sign, then one or
    more decimal digits and nothing else; [None] is a syntax or a range
    error. *)
Definition Atoi (s : string) : option Z :=
  let '(negative, body) :=
    match s with
    | String "-" rest => (true, rest)
    | String "+" rest => (false, rest)
    | _ => (false, s)
    end in
  match body with
  | EmptyString => None
  | _ =>
      match digits 0 body with
      | Some n =>
          let v := if negative then - n else n in
          if (- 2 ^ 63 <=? v) && (v <=? 2 ^ 63 - 1) then Some v else None
      | None => None
      end
  end.

End strconv.

(** ** Package api: the query endpoints *)

Module api.

(** The parts of net/url and encoding/json that the endpoints call and that
    are taken as given. *)
Class Lib : Type := {
  (* r.URL.Query().Get(key), from the raw query *)
  queryGet : string → string → string;
  (* json.Marshal of a record; None is an error *)
  marshal : CapturedRequest → option string
}.

(** A value of the maps the endpoints encode. *)
Inductive Field : Type :=
| FInt (n : Z)
| FString (s : string)
| FRecords (rs : list CapturedRequest).

(** What an endpoint does to its response writer. *)
Inductive Event : Type :=
| EvHttpError (msg : string) (code : Z)     (* http.Error(w, msg, code) *)
| EvSetHeader (key value : string)          (* w.Header().Set(key, value) *)
| EvWriteHeader (code : Z)                  (* w.WriteHeader(code) *)
| EvEncodeMap (m : gmap string Field)       (* json.NewEncoder(w).Encode(map) *)
| EvEncodeRecord (req : CapturedRequest)    (* json.NewEncoder(w).Encode(req) *)
| EvWrite (data : string)                   (* w.Write *)
| EvFlush.                                  (* flusher.Flush() *)

Definition jsonHeader : Event := EvSetHeader "Content-Type" "application/json".

(** [handleRequests] *)
Definition handleRequests `{Lib} (r : http.Request) (w : World)
  : list Event * World :=
  if negb (String.eqb (http.Method r) "GET")
  then ([EvHttpError "Method not allowed" 405], w)
  else
    let limitStr := queryGet (url.RawQuery (http.URL r)) "limit" in
    let encode (requests : list CapturedRequest) :=
      ([jsonHeader;
        EvEncodeMap {[ "requests" := FRecords requests;
                       "count" := FInt (Z.of_nat (length requests)) ]}], w) in
    if negb (String.eqb limitStr "") then
      match strconv.Atoi limitStr with
      | Some limit =>
          if limit <? 0
          then ([EvHttpError "Invalid limit parameter" 400], w)
          else encode (GetRecent limit w)
      | None => ([EvHttpError "Invalid limit parameter" 400], w)
      end
    else encode (GetAll w).

(** [s[n:]] on a string that is long enough. *)
Fixpoint skip (n : nat) (s : string) : string :=
  match n, s with
  | O, _ => s
  | S n', String _ rest => skip n' rest
  | S _, EmptyString => EmptyString
  end.

Definition byIDPrefix : string := "/api/requests/".

(** [handleRequestByID]; the slice of the path panics on a path shorter than
    the prefix. *)
Definition handleRequestByID (r : http.Request) (w : World)
  : Result (list Event * World) :=
  if negb (String.eqb (http.Method r) "GET")
  then Ok ([EvHttpError "Method not allowed" 405], w)
  else
    let path := url.Path (http.URL r) in
    if (String.length path <? String.length byIDPrefix)%nat
    then Panic "slice bounds out of range"
    else
      let id := skip (String.length byIDPrefix) path in
      if String.eqb id "" || String.eqb id "stream"
      then Ok ([EvHttpError "Request ID required" 400], w)
      else
        match GetByID id w with
        | None => Ok ([EvHttpError "Request not found" 404], w)
        | Some req => Ok ([jsonHeader; EvEncodeRecord req], w)
        end.

(** [handleClear] *)
Definition handleClear (r : http.Request) (w : World) : list Event * World :=
  if negb (String.eqb (http.Method r) "POST")
     && negb (String.eqb (http.Method r) "DELETE")
  then ([EvHttpError "Method not allowed" 405], w)
  else
    ([jsonHeader; EvEncodeMap {[ "status" := FString "cleared" ]}], Clear w).

(** The 64-bit integer a sum of durations wraps to. *)
Definition wrap64 (z : Z) : Z := (z + 2 ^ 63) mod 2 ^ 64 - 2 ^ 63.

(** One turn of the loop of [handleStats] over its three variables. The
    counters stay below the length of the slice, which is an [int]. *)
Definition statsStep (acc : Z * Z * Z) (req : CapturedRequest) : Z * Z * Z :=
  let '(httpCount, httpsCount, totalDuration) := acc in
  let totalDuration := wrap64 (totalDuration + Duration req) in
  if IsHTTPS req
  then (httpCount, httpsCount + 1, totalDuration)
  else (httpCount + 1, httpsCount, totalDuration).

(** The loop of [handleStats]. *)
Definition statsLoop (requests : list CapturedRequest) : Z * Z * Z :=
  foldl statsStep (0, 0, 0) requests.

(** [Duration.Milliseconds] *)
Definition Milliseconds (d : Z) : Z := Z.quot d 1000000.

(** [handleStats] *)
Definition handleStats (r : http.Request) (w : World) : list Event * World :=
  if negb (String.eqb (http.Method r) "GET")
  then ([EvHttpError "Method not allowed" 405], w)
  else
    let requests := GetAll w in
    let '(httpCount, httpsCount, totalDuration) := statsLoop requests in
    let avgDuration :=
      if (0 <? length requests)%nat
      then Z.quot totalDuration (Z.of_nat (length requests))
      else 0 in
    ([jsonHeader;
      EvEncodeMap {[ "total_requests" := FInt (Z.of_nat (length requests));
                     "http_requests" := FInt httpCount;
                     "https_requests" := FInt httpsCount;
                     "average_duration_ms" := FInt (Milliseconds avgDuration) ]}],
     w).

(** [handleHealth] *)
Definition handleHealth (r : http.Request) (w : World) : list Event * World :=
  ([jsonHeader; EvEncodeMap {[ "status" := FString "healthy" ]}], w).

Definition corsHeaders : list Event :=
  [EvSetHeader "Access-Control-Allow-Origin" "*";
   EvSetHeader "Access-Control-Allow-Methods" "GET, POST, DELETE, OPTIONS";
   EvSetHeader "Access-Control-Allow-Headers" "Content-Type"].

(** [corsMiddleware] around the handler [next]. *)
Definition corsMiddleware
    (next : http.Request → World → Result (list Event * World))
    (r : http.Request) (w : World) : Result (list Event * World) :=
  if String.eqb (http.Method r) "OPTIONS"
  then Ok (corsHeaders ++ [EvWriteHeader 200], w)
  else '(evs, w') ← next r w; Ok (corsHeaders ++ evs, w').

(** *** The streaming endpoint *)

(** What happens next while [handleStream] sits in its loop: some other
    goroutine calls the store, or the [select] takes the receive from the
    channel, or it takes the end of the request's context. *)
Inductive Turn : Type :=
| Others (op : calls.Op)
| Take
| Gone.

Definition connectedEvent : string :=
  "event: connected" +:+ String "010" "data: {" +:+ String "034" "status"
  +:+ String "034" ":" +:+ String "034" "connected" +:+ String "034" "}"
  +:+ String "010" (String "010" "").

Definition requestEventHead : string :=
  "event: request" +:+ String "010" "data: ".

Definition eventEnd : string := String "010" (String "010" "").

(** What the loop writes for one record taken from the channel. *)
Definition requestEvents `{Lib} (req : CapturedRequest) : list Event :=
  match marshal req with
  | Some data => [EvWrite requestEventHead; EvWrite data; EvWrite eventEnd; EvFlush]
  | None => []
  end.

(** What a call of another goroutine leaves behind when it panics: an
    unsubscription has deleted the handle before its [close] panics; an
    append panics only on a store that [NewStore] did not make. *)
Definition afterPanic (op : calls.Op) (st : calls.Run) : calls.Run :=
  match op with
  | calls.OpUnsubscribe ch' =>
      {| calls.now :=
           {| w_store :=
                {| requests := requests (w_store (calls.now st));
                   maxSize := maxSize (w_store (calls.now st));
                   subscribers := subscribers (w_store (calls.now st)) ∖ {[ch']} |};
              w_chans := w_chans (calls.now st) |};
         calls.handles := calls.handles st;
         calls.received := calls.received st |}
  | _ => st
  end.

(** The loop of [handleStream], turn by turn; [true] when it returned. The
    panic of another goroutine does not stop this one. A [Take] while the
    channel is open and empty is a [select] that is not ready yet. *)
Fixpoint streamLoop `{Lib} (ch : positive) (turns : list Turn) (st : calls.Run)
    (out : list Event) : bool * list Event * calls.Run :=
  match turns with
  | [] => (false, out, st)
  | Others op :: rest =>
      match calls.step op st with
      | Ok st' => streamLoop ch rest st' out
      | Panic _ => streamLoop ch rest (afterPanic op st) out
      end
  | Gone :: _ => (true, out, st)
  | Take :: rest =>
      match w_chans (calls.now st) !! ch with
      | None => streamLoop ch rest st out
      | Some c =>
          match gochan.tryRecv c with
          | None => streamLoop ch rest st out
          | Some (None, _) => (true, out, st)
          | Some (Some req, _) =>
              streamLoop ch rest (calls.recv ch st) (out ++ requestEvents req)
          end
      end
  end.

Definition streamHeaders : list Event :=
  [EvSetHeader "Content-Type" "text/event-stream";
   EvSetHeader "Cache-Control" "no-cache";
   EvSetHeader "Connection" "keep-alive"].

(** How a call of [handleStream] stands at the end of the turns. *)
Inductive StreamEnd : Type :=
| Returned (out : list Event) (st : calls.Run)
| Streaming (out : list Event) (st : calls.Run).

(** [handleStream]; [flusher] tells whether the writer is an http.Flusher. *)
Definition handleStream `{Lib} (flusher : bool) (turns : list Turn)
    (r : http.Request) (w : World) : Result StreamEnd :=
  if negb (String.eqb (http.Method r) "GET")
  then Ok (Returned [EvHttpError "Method not allowed" 405] (calls.begin w))
  else if negb flusher
  then Ok (Returned (streamHeaders ++ [EvHttpError "Streaming not supported" 500])
             (calls.begin w))
  else
    let '(ch, w1) := Subscribe w in
    let out := streamHeaders ++ [EvWrite connectedEvent; EvFlush] in
    let '(returned, out, st) := streamLoop ch turns (calls.begin w1) out in
    if returned
    then w2 ← Unsubscribe ch (calls.now st);
         Ok (Returned out {| calls.now := w2; calls.handles := calls.handles st;
                             calls.received := calls.received st |})
    else Ok (Streaming out st).

End api.

(** The records the other goroutines append during the turns. *)
Fixpoint addedByOthers (turns : list api.Turn) : list CapturedRequest :=
  match turns with
  | [] => []
  | api.Others (calls.OpAdd req) :: rest => req :: addedByOthers rest
  | api.Gone :: _ => []
  | _ :: rest => addedByOthers rest
  end.

(** No other goroutine uses the handle [ch], to unsubscribe it or to take
    from its channel. *)
Definition leavesAlone (ch : positive) (t : api.Turn) : bool :=
  match t with
  | api.Others (calls.OpUnsubscribe ch') => negb (bool_decide (ch' = ch))
  | api.Others (calls.OpRecv ch') => negb (bool_decide (ch' = ch))
  | _ => true
  end.

(** The sum of the durations of a list of records. *)
Definition sumDurations (rs : list CapturedRequest) : Z :=
  foldr (fun req acc => Duration req + acc) 0 rs.

(** The field of a map an endpoint encoded, among its events. *)
Definition encodedField (key : string) (evs : list api.Event) : option api.Field :=
  head (omap (fun ev => match ev with
                        | api.EvEncodeMap m => m !! key
                        | _ => None
                        end) evs).

Module apiCases.

(** A query parser for queries of the one form limit=value. *)
Definition queryLib : api.Lib :=
  {| api.queryGet := fun raw key =>
       if hasPrefix (key +:+ "=") raw
       then api.skip (String.length key + 1) raw else "";
     api.marshal := fun req => Some ("{" +:+ String "034" "id" +:+ String "034" ":"
                                     +:+ String "034" (ID req) +:+ String "034" "}") |}.

Definition get (path query : string) : http.Request :=
  {| http.Method := "GET"; http.URL := samples.relativeURL path query;
     http.Proto := "HTTP/1.1"; http.Header := ∅;
     http.Body := None; http.ContentLength := 0;
     http.Host := "localhost:8081"; http.RemoteAddr := "127.0.0.1:50001";
     http.TLS := false |}.

Definition withMethod (method path : string) : http.Request :=
  {| http.Method := method; http.URL := samples.relativeURL path "";
     http.Proto := "HTTP/1.1"; http.Header := ∅;
     http.Body := None; http.ContentLength := 0;
     http.Host := "localhost:8081"; http.RemoteAddr := "127.0.0.1:50001";
     http.TLS := false |}.

(** A store of capacity 10 that holds the records 0 to 4. *)
Definition five : World :=
  {| w_store := {| requests := samples.records 5; maxSize := 10;
                   subscribers := ∅ |};
     w_chans := ∅ |}.

(** A record with a duration and the HTTPS flag. *)
Definition timed (i : nat) (d : Z) (https : bool) : CapturedRequest :=
  proxy.set_Duration d
    (let c := samples.record i in
     {| ID := ID c; Timestamp := Timestamp c; Method := Method c; URL := URL c;
        Host := Host c; Path := Path c; Proto := Proto c;
        ClientAddr := ClientAddr c; RequestHeaders := RequestHeaders c;
        RequestBody := RequestBody c; StatusCode := StatusCode c;
        ResponseHeaders := ResponseHeaders c; ResponseBody := ResponseBody c;
        Duration := Duration c; IsHTTPS := https; IsTunnel := https |}).

Definition timedStore : World :=
  {| w_store := {| requests := [timed 0 3000000 false; timed 1 4500000 true;
                                timed 2 2000000 false];
                   maxSize := 10; subscribers := ∅ |};
     w_chans := ∅ |}.

End apiCases.

(** * Properties *)

(** ** The store: delivery to subscribers *)

Section Notify.

Implicit Types (req : CapturedRequest) (ch : positive)
  (chans : gmap positive (gochan.Chan CapturedRequest)).

Lemma trySend_open req (c : gochan.Chan CapturedRequest) :
  gochan.closed c = false → gochan.trySend req c = Ok (deliver req c).
Proof.
  intros Hc. unfold gochan.trySend, deliver. rewrite Hc.
  destruct (length (gochan.buf c) <? gochan.capacity c)%nat; reflexivity.
Qed.

Lemma deliver_open req (c : gochan.Chan CapturedRequest) :
  gochan.closed c = false → gochan.closed (deliver req c) = false.
Proof.
  intros Hc. unfold deliver.
  destruct (length (gochan.buf c) <? gochan.capacity c)%nat; done.
Qed.

Lemma notifyOne_some req chans ch c :
  chans !! ch = Some c → gochan.closed c = false →
  notifyOne req chans ch = Ok (<[ch := deliver req c]> chans).
Proof.
  intros Hl Hc. unfold notifyOne. rewrite Hl, (trySend_open _ _ Hc). done.
Qed.

Lemma notifyOne_none req chans ch :
  chans !! ch = None → notifyOne req chans ch = Ok chans.
Proof. intros Hl. unfold notifyOne. by rewrite Hl. Qed.

(** Whatever the visiting order, a round of notification delivers once to
    each channel visited and leaves the others alone. *)
Lemma notifyIn_spec order : ∀ req chans,
  NoDup order →
  (∀ ch c, ch ∈ order → chans !! ch = Some c → gochan.closed c = false) →
  ∃ chans', notifyIn order req chans = Ok chans' ∧
    ∀ ch, chans' !! ch =
          if decide (ch ∈ order) then deliver req <$> chans !! ch
          else chans !! ch.
Proof.
  induction order as [|ch0 rest IH]; intros req chans Hnd Hopen.
  - exists chans. split; [done|]. intros ch.
    destruct (decide (ch ∈ [])) as [Hin|_]; [by apply elem_of_nil in Hin|done].
  - apply NoDup_cons in Hnd as [Hnotin Hnd]. simpl.
    destruct (chans !! ch0) as [c|] eqn:Hl.
    + assert (Hc : gochan.closed c = false)
        by (eapply Hopen; [apply elem_of_cons; by left|done]).
      rewrite (notifyOne_some _ _ _ _ Hl Hc). simpl.
      destruct (IH req (<[ch0 := deliver req c]> chans) Hnd) as (chans' & Hrun & Hlook).
      { intros ch c' Hin Hl'.
        rewrite lookup_insert_ne in Hl' by (intros ->; done).
        eapply Hopen; [apply elem_of_cons; by right|done]. }
      exists chans'. split; [done|]. intros ch. rewrite Hlook.
      destruct (decide (ch = ch0)) as [->|Hne].
      * rewrite decide_False by done. rewrite lookup_insert_eq.
        rewrite decide_True by (apply elem_of_cons; by left).
        by rewrite Hl.
      * rewrite lookup_insert_ne by done.
        destruct (decide (ch ∈ rest)) as [Hin|Hnin].
        -- by rewrite decide_True by (apply elem_of_cons; by right).
        -- rewrite decide_False; [done|].
           intros [?|?]%elem_of_cons; done.
    + rewrite (notifyOne_none _ _ _ Hl). simpl.
      destruct (IH req chans Hnd) as (chans' & Hrun & Hlook).
      { intros ch c' Hin Hl'. eapply Hopen; [apply elem_of_cons; by right|done]. }
      exists chans'. split; [done|]. intros ch. rewrite Hlook.
      destruct (decide (ch = ch0)) as [->|Hne].
      * rewrite decide_False by done.
        rewrite decide_True by (apply elem_of_cons; by left).
        by rewrite Hl.
      * destruct (decide (ch ∈ rest)) as [Hin|Hnin].
        -- by rewrite decide_True by (apply elem_of_cons; by right).
        -- rewrite decide_False; [done|].
           intros [?|?]%elem_of_cons; done.
Qed.

Lemma Add_spec req (w : World) :
  storeOk w →
  ∃ w', Add req w = Ok w' ∧
    requests (w_store w') = evict w ++ [req] ∧
    maxSize (w_store w') = maxSize (w_store w) ∧
    subscribers (w_store w') = subscribers (w_store w) ∧
    (∀ ch, w_chans w' !! ch =
           if decide (ch ∈ subscribers (w_store w))
           then deliver req <$> w_chans w !! ch
           else w_chans w !! ch).
Proof.
  intros (Hpos & Hlen & Hopen).
  destruct (notifyIn_spec (elements (subscribers (w_store w))) req (w_chans w))
    as (chans' & Hrun & Hlook).
  { apply NoDup_elements. }
  { intros ch c Hin Hl. apply elem_of_elements in Hin.
    destruct (Hopen ch Hin) as (c' & Hl' & Hc). congruence. }
  exists {| w_store := {| requests := evict w ++ [req];
                          maxSize := maxSize (w_store w);
                          subscribers := subscribers (w_store w) |};
            w_chans := chans' |}.
  split; [|split; [done|split; [done|split; [done|]]]].
  - unfold Add, evict, notifySubscribers.
    destruct (Z.of_nat (length (requests (w_store w))) >=? maxSize (w_store w)) eqn:Hfull.
    + destruct (requests (w_store w)) as [|r0 tl] eqn:Hreqs.
      * apply Z.geb_le in Hfull. simpl in Hfull. lia.
      * simpl. simpl in Hrun. rewrite Hrun. done.
    + simpl. simpl in Hrun. rewrite Hrun. done.
  - intros ch. simpl. rewrite Hlook.
    destruct (decide (ch ∈ subscribers (w_store w))) as [Hin|Hnin].
    + rewrite decide_True by (by apply elem_of_elements). done.
    + rewrite decide_False; [done|]. by rewrite elem_of_elements.
Qed.

End Notify.

(** ** The store: bounded history *)

Section History.

Lemma tail_drop {A} (l : list A) (k : nat) : tail (drop k l) = drop (S k) l.
Proof.
  revert k. induction l as [|x l IH]; intros [|k]; simpl; done.
Qed.

Lemma lastN_all {A} (n : nat) (l : list A) :
  (length l ≤ n)%nat → lastN n l = l.
Proof. intros Hle. unfold lastN. by replace (length l - n)%nat with O by lia. Qed.

Lemma lastN_length {A} (n : nat) (l : list A) :
  length (lastN n l) = Nat.min n (length l).
Proof. unfold lastN. rewrite length_drop. lia. Qed.

Lemma lastN_app_ge {A} (n : nat) (l k : list A) :
  (n ≤ length k)%nat → lastN n (l ++ k) = lastN n k.
Proof.
  intros Hle. unfold lastN. rewrite length_app.
  rewrite drop_app_ge by lia. f_equal. lia.
Qed.

(** Dropping the oldest of a full window and appending keeps the window on
    the last [n] elements. *)
Lemma lastN_snoc {A} (n : nat) (hist : list A) (x : A) :
  (1 ≤ n)%nat →
  (if (n <=? length (lastN n hist))%nat
   then tail (lastN n hist) else lastN n hist) ++ [x]
  = lastN n (hist ++ [x]).
Proof.
  intros Hn. rewrite lastN_length. unfold lastN.
  rewrite length_app. simpl.
  destruct (Nat.leb_spec n (Nat.min n (length hist))) as [Hfull|Hroom].
  - rewrite tail_drop.
    replace (length hist + 1 - n)%nat with (S (length hist - n)) by lia.
    rewrite drop_app_le by lia. done.
  - replace (length hist - n)%nat with O by lia.
    replace (length hist + 1 - n)%nat with O by lia.
    by rewrite !drop_0.
Qed.

Lemma evict_lastN (w : World) (hist : list CapturedRequest) :
  0 < maxSize (w_store w) →
  requests (w_store w) = lastN (Z.to_nat (maxSize (w_store w))) hist →
  ∀ req, evict w ++ [req]
         = lastN (Z.to_nat (maxSize (w_store w))) (hist ++ [req]).
Proof.
  intros Hpos Hreq req.
  rewrite <- lastN_snoc by lia. unfold evict. rewrite Hreq.
  destruct (Z.geb_spec (Z.of_nat (length (lastN (Z.to_nat (maxSize (w_store w))) hist)))
              (maxSize (w_store w))) as [Hfull|Hroom].
  - rewrite (proj2 (Nat.leb_le _ _)) by lia. done.
  - rewrite (proj2 (Nat.leb_gt _ _)) by lia. done.
Qed.

Lemma NewWorld_ok (n : Z) : storeOk (NewWorld n).
Proof.
  unfold storeOk, NewWorld, NewStore, subscribersOpen. simpl.
  split; [|split].
  - destruct (Z.leb_spec n 0); lia.
  - destruct (Z.leb_spec n 0); lia.
  - intros ch Hin. by apply not_elem_of_empty in Hin.
Qed.

Lemma Add_ok req (w w' : World) :
  storeOk w → Add req w = Ok w' → storeOk w'.
Proof.
  intros Hok Hadd.
  destruct (Add_spec req w Hok) as (w1 & Hadd1 & Hreq & Hmax & Hsub & Hch).
  rewrite Hadd in Hadd1. injection Hadd1 as <-.
  destruct Hok as (Hpos & Hlen & Hopen).
  split; [lia|split].
  - rewrite Hreq, Hmax, length_app. simpl. unfold evict.
    destruct (Z.geb_spec (Z.of_nat (length (requests (w_store w))))
                (maxSize (w_store w))) as [Hfull|Hroom].
    + destruct (requests (w_store w)); simpl in *; lia.
    + lia.
  - intros ch Hin. rewrite Hsub in Hin.
    destruct (Hopen ch Hin) as (c & Hl & Hc).
    exists (deliver req c). split.
    + rewrite Hch, decide_True by done. by rewrite Hl.
    + by apply deliver_open.
Qed.

(** A run of appends never panics on a well-formed store, and leaves the
    window on the last [maxSize] records of the whole history. *)
Lemma addAll_spec (reqs : list CapturedRequest) : ∀ (w : World) hist,
  storeOk w →
  requests (w_store w) = lastN (Z.to_nat (maxSize (w_store w))) hist →
  ∃ w', addAll reqs w = Ok w' ∧ storeOk w' ∧
    maxSize (w_store w') = maxSize (w_store w) ∧
    subscribers (w_store w') = subscribers (w_store w) ∧
    requests (w_store w')
    = lastN (Z.to_nat (maxSize (w_store w))) (hist ++ reqs).
Proof.
  induction reqs as [|req rest IH]; intros w hist Hok Hwin.
  - exists w. rewrite app_nil_r. done.
  - destruct (Add_spec req w Hok) as (w1 & Hadd & Hreq & Hmax & Hsub & _).
    pose proof (Add_ok _ _ _ Hok Hadd) as Hok1.
    destruct (IH w1 (hist ++ [req]) Hok1) as (w' & Hrun & Hok' & Hmax' & Hsub' & Hreq').
    { rewrite Hreq, Hmax. apply evict_lastN; [by destruct Hok|done]. }
    exists w'. simpl. rewrite Hadd. simpl.
    split; [done|split; [done|split; [congruence|split; [congruence|]]]].
    rewrite Hreq', Hmax. by rewrite <- app_assoc.
Qed.

Lemma findByID_absent (id : string) (rs : list CapturedRequest) :
  (∀ r, r ∈ rs → ID r ≠ id) → findByID id rs = None.
Proof.
  induction rs as [|r rs IH]; intros Hne; [done|]. simpl.
  destruct (String.eqb_spec (ID r) id) as [Heq|_].
  - exfalso. apply (Hne r); [apply elem_of_cons; by left|done].
  - apply IH. intros r' Hin. apply Hne. apply elem_of_cons. by right.
Qed.

Lemma elem_of_lastN {A} (n : nat) (l : list A) (x : A) :
  x ∈ lastN n l → x ∈ l.
Proof.
  unfold lastN. intros Hin.
  rewrite <- (take_drop (length l - n) l). apply elem_of_app. by right.
Qed.

End History.

(** C2. Appending any sequence of records to a store of capacity [C] never
    panics and leaves at most [C] records: the last [C] of everything
    appended, in the order of insertion. Once the sequence is longer than
    [C] the store holds exactly [C] records, the last [C] appended, and
    looking up the first appended record (by its identifier, which no later
    record shares) returns not-found; 1001 appends into a fresh store of
    capacity 1000 are the instance [C = 1000]. *)
Theorem C2_store_bounded_fifo :
  ∀ (C : Z) (w0 : World) (reqs : list CapturedRequest),
    0 < C → maxSize (w_store w0) = C → storeOk w0 →
    ∃ w, addAll reqs w0 = Ok w ∧
      Count w ≤ C ∧
      GetAll w = lastN (Z.to_nat C) (GetAll w0 ++ reqs) ∧
      (C ≤ Z.of_nat (length reqs) →
         Count w = C ∧ GetAll w = lastN (Z.to_nat C) reqs) ∧
      (C < Z.of_nat (length reqs) →
         ∀ first rest, reqs = first :: rest →
           (∀ r, r ∈ rest → ID r ≠ ID first) →
           GetByID (ID first) w = None).
Proof.
  intros C w0 reqs HC Hmax Hok.
  destruct (addAll_spec reqs w0 (requests (w_store w0)) Hok)
    as (w & Hrun & Hok' & Hmax' & _ & Hreq).
  { symmetry. apply lastN_all. destruct Hok as (_ & Hlen & _). lia. }
  rewrite Hmax in Hreq.
  exists w. split; [done|].
  destruct Hok' as (_ & Hlen' & _).
  split; [unfold Count; lia|]. split; [done|]. split.
  - intros Hlong. unfold Count, GetAll. rewrite Hreq. split.
    + rewrite lastN_length, length_app. lia.
    + apply lastN_app_ge. lia.
  - intros Hlong first rest -> Hfresh.
    unfold GetByID. rewrite Hreq, lastN_app_ge by lia.
    apply findByID_absent. intros r Hin.
    apply Hfresh. unfold lastN in Hin. simpl in Hlong, Hin.
    replace (S (length rest) - Z.to_nat C)%nat
      with (S (length rest - Z.to_nat C)) in Hin by lia.
    simpl in Hin.
    rewrite <- (take_drop (length rest - Z.to_nat C) rest).
    apply elem_of_app. by right.
Qed.

Lemma C2_store_bounded_fifo_witness :
  ∃ w, addAll (samples.records 1001) (NewWorld 1000) = Ok w ∧
       Count w = 1000 ∧
       GetAll w = samples.record <$> seq 1 1000 ∧
       GetByID (ID (samples.record 0)) w = None.
Proof.
  destruct (C2_store_bounded_fifo 1000 (NewWorld 1000) (samples.records 1001))
    as (w & Hrun & _ & _ & Hfull & Hgone);
    [lia | reflexivity | apply NewWorld_ok |].
  exists w. split; [exact Hrun|].
  destruct Hfull as [Hcount Hall]; [by vm_compute|].
  split; [exact Hcount|]. split; [rewrite Hall; by vm_compute|].
  apply (Hgone ltac:(by vm_compute) (samples.record 0)
           (tail (samples.records 1001)) eq_refl).
  apply (proj1 (Forall_forall (fun r => ID r ≠ ID (samples.record 0)) _)).
  apply (bool_decide_unpack _). by vm_compute.
Defined.

(** ** The store: subscribers over sequences of calls *)

Section Subscribers.

Import calls.

Implicit Types (w : World) (ch : positive) (st : Run).

Lemma Clear_ok w : storeOk w → storeOk (Clear w).
Proof.
  intros (Hpos & _ & Hopen). split; [done|split; [simpl; lia|done]].
Qed.

Lemma Subscribe_fresh w : w_chans w !! (Subscribe w).1 = None.
Proof. simpl. apply not_elem_of_dom. apply is_fresh. Qed.

Lemma Subscribe_ok w : storeOk w → storeOk (Subscribe w).2.
Proof.
  intros (Hpos & Hlen & Hopen). split; [done|split; [done|]].
  intros ch Hin. simpl in *.
  destruct (decide (ch = fresh (dom (w_chans w)))) as [->|Hne].
  - eexists. rewrite lookup_insert_eq. split; reflexivity.
  - rewrite lookup_insert_ne by done. apply Hopen.
    apply elem_of_union in Hin as [Hin%elem_of_singleton|Hin]; done.
Qed.

Lemma Unsubscribe_inv ch w w' :
  Unsubscribe ch w = Ok w' →
  ∃ c, w_chans w !! ch = Some c ∧ gochan.closed c = false ∧
       w_chans w' = <[ch := gochan.mkChan (gochan.buf c) (gochan.capacity c) true]> (w_chans w) ∧
       subscribers (w_store w') = subscribers (w_store w) ∖ {[ch]} ∧
       requests (w_store w') = requests (w_store w) ∧
       maxSize (w_store w') = maxSize (w_store w).
Proof.
  unfold Unsubscribe. destruct (w_chans w !! ch) as [c|]; [|done].
  unfold gochan.close. destruct (gochan.closed c) eqn:Hc; [done|].
  simpl. intros [= <-]. exists c. done.
Qed.

Lemma Unsubscribe_ok ch w w' :
  storeOk w → Unsubscribe ch w = Ok w' → storeOk w'.
Proof.
  intros (Hpos & Hlen & Hopen) Hun.
  destruct (Unsubscribe_inv _ _ _ Hun) as (c & Hl & Hc & Hch & Hsub & Hreq & Hmax).
  split; [lia|split; [rewrite Hreq; lia|]].
  intros ch' Hin. rewrite Hsub in Hin. rewrite Hch.
  apply elem_of_difference in Hin as [Hin Hne].
  rewrite not_elem_of_singleton in Hne.
  rewrite lookup_insert_ne by done. by apply Hopen.
Qed.

(** A channel whose handle is already closed cannot be unsubscribed. *)
Lemma Unsubscribe_closed ch w (c : gochan.Chan CapturedRequest) :
  w_chans w !! ch = Some c → gochan.closed c = true →
  Unsubscribe ch w = Panic "close of closed channel".
Proof.
  intros Hl Hc. unfold Unsubscribe, gochan.close. by rewrite Hl, Hc.
Qed.

Lemma Unsubscribe_open ch w (c : gochan.Chan CapturedRequest) :
  w_chans w !! ch = Some c → gochan.closed c = false →
  Unsubscribe ch w =
  Ok {| w_store := {| requests := requests (w_store w);
                      maxSize := maxSize (w_store w);
                      subscribers := subscribers (w_store w) ∖ {[ch]} |};
        w_chans := <[ch := gochan.mkChan (gochan.buf c) (gochan.capacity c) true]>
                     (w_chans w) |}.
Proof.
  intros Hl Hc. unfold Unsubscribe, gochan.close. by rewrite Hl, Hc.
Qed.

Lemma recv_store ch st : w_store (now (recv ch st)) = w_store (now st).
Proof.
  unfold recv. destruct (w_chans (now st) !! ch) as [c|]; [|done].
  destruct (gochan.tryRecv c) as [[[req|] c']|]; done.
Qed.

(** What a receive on [ch'] does to the channel and the takings of [ch]. *)
Lemma recv_chan ch' ch st (c : gochan.Chan CapturedRequest) :
  w_chans (now st) !! ch = Some c →
  ∃ c', w_chans (now (recv ch' st)) !! ch = Some c' ∧
        gochan.closed c' = gochan.closed c ∧
        receivedBy ch (recv ch' st) ++ gochan.buf c'
        = receivedBy ch st ++ gochan.buf c.
Proof.
  intros Hl. unfold recv.
  destruct (w_chans (now st) !! ch') as [c0|] eqn:Hl0; [|by exists c].
  unfold gochan.tryRecv.
  destruct (gochan.buf c0) as [|req rest] eqn:Hbuf.
  { destruct (gochan.closed c0); by exists c. }
  simpl. destruct (decide (ch' = ch)) as [->|Hne].
  - rewrite lookup_insert_eq. eexists. split; [done|].
    assert (c0 = c) as -> by congruence. split; [done|]. simpl.
    unfold receivedBy. simpl. rewrite filter_app, fmap_app.
    rewrite filter_cons_True by done. rewrite filter_nil. simpl.
    rewrite Hbuf. by rewrite <- app_assoc.
  - rewrite lookup_insert_ne by done. exists c. split; [done|split; [done|]].
    unfold receivedBy. simpl. rewrite filter_app.
    rewrite filter_cons_False by done. rewrite filter_nil.
    by rewrite app_nil_r.
Qed.

Lemma recv_ok ch st : storeOk (now st) → storeOk (now (recv ch st)).
Proof.
  intros (Hpos & Hlen & Hopen). unfold storeOk, subscribersOpen.
  rewrite recv_store. split; [done|split; [done|]].
  intros ch' Hin. destruct (Hopen ch' Hin) as (c & Hl & Hc).
  destruct (recv_chan ch ch' st c Hl) as (c' & Hl' & Hc' & _).
  exists c'. split; [done|congruence].
Qed.

Lemma step_ok op st st' : storeOk (now st) → step op st = Ok st' → storeOk (now st').
Proof.
  intros Hok. destruct op as [req| | |ch|ch]; simpl.
  - destruct (Add req (now st)) as [w|] eqn:Hadd; [|done].
    intros [= <-]. simpl. eapply Add_ok; eassumption.
  - intros [= <-]. by apply Clear_ok.
  - intros [= <-]. apply (Subscribe_ok _ Hok).
  - destruct (Unsubscribe ch (now st)) as [w|] eqn:Hun; [|done].
    intros [= <-]. simpl. eapply Unsubscribe_ok; eassumption.
  - intros [= <-]. by apply recv_ok.
Qed.

Lemma added_cons op ops : added (op :: ops) = added [op] ++ added ops.
Proof. destruct op; reflexivity. Qed.

(** One call that is not the unsubscription of [ch] leaves [ch] registered
    and open, and adds to its queue at most the record appended. *)
Lemma step_subscriber ch op st st' (c : gochan.Chan CapturedRequest) :
  storeOk (now st) → unsubscribes ch op = false → step op st = Ok st' →
  ch ∈ subscribers (w_store (now st)) →
  w_chans (now st) !! ch = Some c → gochan.closed c = false →
  ∃ c', w_chans (now st') !! ch = Some c' ∧ gochan.closed c' = false ∧
        ch ∈ subscribers (w_store (now st')) ∧
        ∃ l, receivedBy ch st' ++ gochan.buf c'
             = (receivedBy ch st ++ gochan.buf c) ++ l ∧
             l `sublist_of` added [op].
Proof.
  intros Hok Hop Hstep Hin Hl Hc.
  destruct op as [req| | |ch'|ch']; simpl in Hstep, Hop.
  - destruct (Add_spec req (now st) Hok) as (w & Hadd & _ & _ & Hsub & Hch).
    rewrite Hadd in Hstep. simpl in Hstep. injection Hstep as <-. simpl.
    exists (deliver req c). split; [|split; [by apply deliver_open|split; [by rewrite Hsub|]]].
    { rewrite Hch, decide_True by done. by rewrite Hl. }
    unfold receivedBy, deliver. simpl.
    destruct (length (gochan.buf c) <? gochan.capacity c)%nat; simpl.
    + exists [req]. split; [by rewrite app_assoc|done].
    + exists []. split; [by rewrite app_nil_r|apply sublist_nil_l].
  - injection Hstep as <-. simpl. exists c.
    split; [done|split; [done|split; [done|]]].
    exists []. split; [by rewrite app_nil_r|done].
  - injection Hstep as <-. simpl. exists c.
    assert (ch ≠ fresh (dom (w_chans (now st)))) as Hne.
    { intros ->. pose proof (Subscribe_fresh (now st)) as Hf. simpl in Hf. congruence. }
    split; [by rewrite lookup_insert_ne|split; [done|split; [by apply elem_of_union_r|]]].
    exists []. split; [by rewrite app_nil_r|done].
  - apply bool_decide_eq_false in Hop.
    destruct (Unsubscribe ch' (now st)) as [w|] eqn:Hun; [|done].
    simpl in Hstep. injection Hstep as <-. simpl.
    destruct (Unsubscribe_inv _ _ _ Hun) as (c0 & Hl0 & Hc0 & Hch & Hsub & _).
    exists c. rewrite Hch, Hsub.
    split; [by rewrite lookup_insert_ne|split; [done|split]].
    { apply elem_of_difference. split; [done|].
      apply not_elem_of_singleton. congruence. }
    exists []. split; [by rewrite app_nil_r|done].
  - injection Hstep as <-.
    destruct (recv_chan ch' ch st c Hl) as (c' & Hl' & Hc' & Hrec).
    exists c'. split; [done|split; [congruence|split; [by rewrite recv_store|]]].
    exists []. split; [by rewrite app_nil_r|done].
Qed.

Lemma run_ok ops : ∀ st st',
  storeOk (now st) → run ops st = Ok st' → storeOk (now st').
Proof.
  induction ops as [|op ops IH]; intros st st' Hok; simpl.
  - by intros [= <-].
  - destruct (step op st) as [st1|] eqn:Hstep; [|done]. simpl.
    apply IH. eapply step_ok; eassumption.
Qed.

Lemma run_subscriber ch ops : ∀ st st' (c : gochan.Chan CapturedRequest),
  storeOk (now st) → Forall (fun op => unsubscribes ch op = false) ops →
  run ops st = Ok st' →
  ch ∈ subscribers (w_store (now st)) →
  w_chans (now st) !! ch = Some c → gochan.closed c = false →
  ∃ c', w_chans (now st') !! ch = Some c' ∧ gochan.closed c' = false ∧
        ch ∈ subscribers (w_store (now st')) ∧
        ∃ l, receivedBy ch st' ++ gochan.buf c'
             = (receivedBy ch st ++ gochan.buf c) ++ l ∧
             l `sublist_of` added ops.
Proof.
  induction ops as [|op ops IH]; intros st st' c Hok Hops Hrun Hin Hl Hc.
  - simpl in Hrun. injection Hrun as <-. exists c.
    split; [done|split; [done|split; [done|]]].
    exists []. split; [by rewrite app_nil_r|done].
  - apply Forall_cons in Hops as [Hop Hops]. simpl in Hrun.
    destruct (step op st) as [st1|] eqn:Hstep; [|done]. simpl in Hrun.
    destruct (step_subscriber ch op st st1 c Hok Hop Hstep Hin Hl Hc)
      as (c1 & Hl1 & Hc1 & Hin1 & l1 & Heq1 & Hsub1).
    destruct (IH st1 st' c1 (step_ok _ _ _ Hok Hstep) Hops Hrun Hin1 Hl1 Hc1)
      as (c' & Hl' & Hc' & Hin' & l2 & Heq2 & Hsub2).
    exists c'. split; [done|split; [done|split; [done|]]].
    exists (l1 ++ l2). split.
    + rewrite Heq2, Heq1. by rewrite <- !app_assoc.
    + rewrite added_cons. by apply sublist_app.
Qed.

(** Once closed, a channel stays closed whatever is called next. *)
Lemma run_closed ch ops : ∀ st st' (c : gochan.Chan CapturedRequest),
  storeOk (now st) → run ops st = Ok st' →
  w_chans (now st) !! ch = Some c → gochan.closed c = true →
  ∃ c', w_chans (now st') !! ch = Some c' ∧ gochan.closed c' = true.
Proof.
  induction ops as [|op ops IH]; intros st st' c Hok Hrun Hl Hc.
  - simpl in Hrun. injection Hrun as <-. by exists c.
  - simpl in Hrun. destruct (step op st) as [st1|] eqn:Hstep; [|done].
    simpl in Hrun.
    assert (∃ c1, w_chans (now st1) !! ch = Some c1 ∧ gochan.closed c1 = true)
      as (c1 & Hl1 & Hc1).
    { assert (ch ∉ subscribers (w_store (now st))) as Hnin.
      { intros Hin. destruct Hok as (_ & _ & Hopen).
        destruct (Hopen ch Hin) as (c0 & Hl0 & Hc0). congruence. }
      destruct op as [req| | |ch'|ch']; simpl in Hstep.
      - destruct (Add_spec req (now st) Hok) as (w & Hadd & _ & _ & _ & Hch).
        rewrite Hadd in Hstep. simpl in Hstep. injection Hstep as <-. simpl.
        exists c. rewrite Hch, decide_False by done. done.
      - injection Hstep as <-. by exists c.
      - injection Hstep as <-. simpl. exists c.
        rewrite lookup_insert_ne; [done|].
        intros Heq. pose proof (Subscribe_fresh (now st)) as Hf. simpl in Hf.
        rewrite Heq in Hf. congruence.
      - destruct (Unsubscribe ch' (now st)) as [w|] eqn:Hun; [|done].
        simpl in Hstep. injection Hstep as <-. simpl.
        destruct (Unsubscribe_inv _ _ _ Hun) as (c0 & Hl0 & Hc0 & Hch & _).
        exists c. rewrite Hch. rewrite lookup_insert_ne; [done|].
        intros ->. congruence.
      - injection Hstep as <-.
        destruct (recv_chan ch' ch st c Hl) as (c' & Hl' & Hc' & _).
        exists c'. split; [done|congruence]. }
    eapply IH; [eapply step_ok; eassumption|eassumption..].
Qed.

End Subscribers.

(** C8. Take a subscriber at its registration and any calls on the store that
    follow, short of its own unsubscription. Its queue starts empty, so
    nothing appended earlier reaches it; what it has taken and what still
    waits in its queue is, in order, a selection of the records appended
    since; and the next append returns without blocking and puts its record
    at the end of the queue when the queue has room, and otherwise leaves
    the queue as it is. *)
Theorem C8_subscriber_delivery :
  ∀ (w0 : World) (ops : list calls.Op) (fin : calls.Run) (req : CapturedRequest),
    storeOk w0 →
    Forall (fun op => calls.unsubscribes (Subscribe w0).1 op = false) ops →
    calls.run ops (calls.begin (Subscribe w0).2) = Ok fin →
    let ch := (Subscribe w0).1 in
    w_chans w0 !! ch = None ∧
    w_chans (Subscribe w0).2 !! ch = Some (gochan.mkChan [] 100 false) ∧
    ∃ c, w_chans (calls.now fin) !! ch = Some c ∧
      (calls.receivedBy ch fin ++ gochan.buf c) `sublist_of` calls.added ops ∧
      ∃ w', Add req (calls.now fin) = Ok w' ∧
        w_chans w' !! ch = Some (deliver req c) ∧
        gochan.buf (deliver req c)
        = if (length (gochan.buf c) <? gochan.capacity c)%nat
          then gochan.buf c ++ [req] else gochan.buf c.
Proof.
  intros w0 ops fin req Hok Hops Hrun ch.
  split; [apply Subscribe_fresh|].
  assert (Hl1 : w_chans (Subscribe w0).2 !! ch = Some (gochan.mkChan [] 100 false))
    by (simpl; apply lookup_insert_eq).
  split; [exact Hl1|].
  assert (Hin1 : ch ∈ subscribers (w_store (Subscribe w0).2))
    by (simpl; apply elem_of_union_l, elem_of_singleton; reflexivity).
  destruct (run_subscriber ch ops (calls.begin (Subscribe w0).2) fin _
              (Subscribe_ok _ Hok) Hops Hrun Hin1 Hl1 eq_refl)
    as (c & Hl & Hc & Hin & l & Heq & Hsub).
  exists c. split; [done|]. split.
  { rewrite Heq. simpl. done. }
  destruct (Add_spec req (calls.now fin)) as (w' & Hadd & _ & _ & _ & Hch).
  { eapply run_ok; [|exact Hrun]. apply (Subscribe_ok _ Hok). }
  exists w'. split; [done|]. split.
  - rewrite Hch, decide_True by done. by rewrite Hl.
  - unfold deliver.
    destruct (length (gochan.buf c) <? gochan.capacity c)%nat; done.
Qed.

Lemma C8_subscriber_delivery_witness :
  let w0 := NewWorld 3 in
  let fin := samples.endOf
               (calls.run samples.calls101 (calls.begin (Subscribe w0).2))
               (calls.begin w0) in
  let req := samples.record 200 in
  (Subscribe w0).1 = 1%positive ∧
  calls.receivedBy 1%positive fin = samples.records 2 ∧
  w_chans w0 !! 1%positive = None ∧
  w_chans (Subscribe w0).2 !! 1%positive = Some (gochan.mkChan [] 100 false) ∧
  ∃ c, w_chans (calls.now fin) !! 1%positive = Some c ∧
    (calls.receivedBy 1%positive fin ++ gochan.buf c)
      `sublist_of` calls.added samples.calls101 ∧
    ∃ w', Add req (calls.now fin) = Ok w' ∧
      w_chans w' !! 1%positive = Some (deliver req c) ∧
      gochan.buf (deliver req c)
      = if (length (gochan.buf c) <? gochan.capacity c)%nat
        then gochan.buf c ++ [req] else gochan.buf c.
Proof.
  split; [by vm_compute|]. split; [by vm_compute|].
  apply (C8_subscriber_delivery (NewWorld 3) samples.calls101).
  - apply NewWorld_ok.
  - apply (bool_decide_unpack _). by vm_compute.
  - by vm_compute.
Defined.

(** C10. Unsubscribing a handle whose channel is already closed panics with
    "close of closed channel". A handle that [Subscribe] returned and that
    was not unsubscribed since is unsubscribed without a panic: its channel
    is closed by that call and the handle leaves the set; every later
    unsubscription of it, at once or after any further calls, panics, so
    the channel is closed exactly once. *)
Theorem C10_unsubscribe_once :
  (∀ (w : World) (ch : positive) (c : gochan.Chan CapturedRequest),
     w_chans w !! ch = Some c → gochan.closed c = true →
     Unsubscribe ch w = Panic "close of closed channel")
  ∧
  (∀ (w0 : World) (ops : list calls.Op) (fin : calls.Run),
     storeOk w0 →
     Forall (fun op => calls.unsubscribes (Subscribe w0).1 op = false) ops →
     calls.run ops (calls.begin (Subscribe w0).2) = Ok fin →
     let ch := (Subscribe w0).1 in
     ∃ w2, Unsubscribe ch (calls.now fin) = Ok w2 ∧
       (ch ∉ subscribers (w_store w2)) ∧
       (∃ c, w_chans w2 !! ch = Some c ∧ gochan.closed c = true) ∧
       Unsubscribe ch w2 = Panic "close of closed channel" ∧
       ∀ ops' fin', calls.run ops' (calls.begin w2) = Ok fin' →
         Unsubscribe ch (calls.now fin') = Panic "close of closed channel").
Proof.
  split; [intros w ch c; apply Unsubscribe_closed|].
  intros w0 ops fin Hok Hops Hrun ch.
  assert (Hl1 : w_chans (Subscribe w0).2 !! ch = Some (gochan.mkChan [] 100 false))
    by (simpl; apply lookup_insert_eq).
  assert (Hin1 : ch ∈ subscribers (w_store (Subscribe w0).2))
    by (simpl; apply elem_of_union_l, elem_of_singleton; reflexivity).
  destruct (run_subscriber ch ops (calls.begin (Subscribe w0).2) fin _
              (Subscribe_ok _ Hok) Hops Hrun Hin1 Hl1 eq_refl)
    as (c & Hl & Hc & Hin & _).
  pose proof (Unsubscribe_open ch (calls.now fin) c Hl Hc) as Hun.
  eexists. split; [exact Hun|].
  assert (Hok2 : storeOk
    {| w_store := {| requests := requests (w_store (calls.now fin));
                     maxSize := maxSize (w_store (calls.now fin));
                     subscribers := subscribers (w_store (calls.now fin)) ∖ {[ch]} |};
       w_chans := <[ch := gochan.mkChan (gochan.buf c) (gochan.capacity c) true]>
                    (w_chans (calls.now fin)) |}).
  { eapply Unsubscribe_ok; [|exact Hun].
    eapply run_ok; [|exact Hrun]. apply (Subscribe_ok _ Hok). }
  split.
  { simpl. intros [_ Hne]%elem_of_difference. by apply Hne, elem_of_singleton. }
  split; [eexists; split; [simpl; apply lookup_insert_eq|done]|].
  split.
  - eapply Unsubscribe_closed; [simpl; apply lookup_insert_eq|done].
  - intros ops' fin' Hrun'.
    destruct (run_closed ch ops' (calls.begin _) fin'
                (gochan.mkChan (gochan.buf c) (gochan.capacity c) true) Hok2 Hrun')
      as (c' & Hl' & Hc').
    { simpl. apply lookup_insert_eq. }
    { done. }
    eapply Unsubscribe_closed; eassumption.
Qed.

Lemma C10_unsubscribe_once_witness :
  let w0 := NewWorld 3 in
  let fin := samples.endOf
               (calls.run samples.calls101 (calls.begin (Subscribe w0).2))
               (calls.begin w0) in
  ∃ w2, Unsubscribe 1%positive (calls.now fin) = Ok w2 ∧
    (1%positive ∉ subscribers (w_store w2)) ∧
    (∃ c, w_chans w2 !! 1%positive = Some c ∧ gochan.closed c = true) ∧
    Unsubscribe 1%positive w2 = Panic "close of closed channel" ∧
    ∀ ops' fin', calls.run ops' (calls.begin w2) = Ok fin' →
      Unsubscribe 1%positive (calls.now fin') = Panic "close of closed channel".
Proof.
  apply (proj2 C10_unsubscribe_once (NewWorld 3) samples.calls101).
  - apply NewWorld_ok.
  - apply (bool_decide_unpack _). by vm_compute.
  - by vm_compute.
Defined.

(** ** Headers *)

Section Headers.

Import proxy.

Implicit Types (h dst src : gmap string (list string)) (k key name : string).

Lemma hopByHop_canonical :
  textproto.CanonicalMIMEHeaderKey <$> hopByHopHeaders = hopByHopHeaders.
Proof. reflexivity. Qed.

Lemma delAll_lookup names : ∀ h k,
  foldl (fun h header => http.Del header h) h names !! k
  = if decide (k ∈ textproto.CanonicalMIMEHeaderKey <$> names)
    then None else h !! k.
Proof.
  induction names as [|n names IH]; intros h k.
  - rewrite decide_False; [done|]. apply not_elem_of_nil.
  - rewrite fmap_cons. cbn [foldl]. rewrite IH. unfold http.Del.
    destruct (decide (k ∈ textproto.CanonicalMIMEHeaderKey <$> names)) as [Hin|Hnin].
    + rewrite decide_True; [done|]. apply elem_of_cons. by right.
    + rewrite lookup_delete.
      destruct (decide (textproto.CanonicalMIMEHeaderKey n = k)) as [<-|Hne].
      * rewrite decide_True; [done|]. apply elem_of_cons. by left.
      * rewrite decide_False; [done|].
        intros [?|?]%elem_of_cons; congruence.
Qed.

Lemma removeHopByHopHeaders_lookup h k :
  removeHopByHopHeaders h !! k
  = if decide (k ∈ hopByHopHeaders) then None else h !! k.
Proof.
  unfold removeHopByHopHeaders. rewrite delAll_lookup.
  by rewrite hopByHop_canonical.
Qed.

Lemma Add_lookup key value h k :
  http.Add key value h !! k
  = if decide (k = textproto.CanonicalMIMEHeaderKey key)
    then Some (http.Values h k ++ [value]) else h !! k.
Proof.
  unfold http.Add. rewrite lookup_insert.
  destruct (decide (textproto.CanonicalMIMEHeaderKey key = k)) as [<-|Hne].
  - by rewrite decide_True.
  - by rewrite decide_False.
Qed.

Lemma Add_Values key value h k :
  http.Values (http.Add key value h) k
  = http.Values h k ++
    (if decide (k = textproto.CanonicalMIMEHeaderKey key) then [value] else []).
Proof.
  unfold http.Values at 1. rewrite Add_lookup.
  destruct (decide (k = textproto.CanonicalMIMEHeaderKey key)); simpl.
  - done.
  - by rewrite app_nil_r.
Qed.

Lemma addAll_Values key values : ∀ h k,
  http.Values (foldl (fun dst value => http.Add key value dst) h values) k
  = http.Values h k ++
    (if decide (k = textproto.CanonicalMIMEHeaderKey key) then values else []).
Proof.
  induction values as [|v values IH]; intros h k; simpl.
  - destruct (decide _); by rewrite app_nil_r.
  - rewrite IH, Add_Values.
    destruct (decide (k = textproto.CanonicalMIMEHeaderKey key)).
    + by rewrite <- app_assoc.
    + by rewrite !app_nil_r.
Qed.

Lemma addAll_is_Some key values : ∀ h k,
  is_Some (foldl (fun dst value => http.Add key value dst) h values !! k) →
  is_Some (h !! k) ∨ k = textproto.CanonicalMIMEHeaderKey key.
Proof.
  induction values as [|v values IH]; intros h k; simpl; [by left|].
  intros [Hs| ->]%IH; [|by right].
  rewrite Add_lookup in Hs.
  destruct (decide (k = textproto.CanonicalMIMEHeaderKey key)); [by right|by left].
Qed.

(** Every key that [copyHeaders] creates is a canonical key. *)
Lemma copyHeadersIn_is_Some entries : ∀ dst k,
  is_Some (copyHeadersIn entries dst !! k) →
  is_Some (dst !! k) ∨ ∃ k0, k = textproto.CanonicalMIMEHeaderKey k0.
Proof.
  induction entries as [|[key values] entries IH]; intros dst k; [by left|].
  unfold copyHeadersIn. simpl. intros [Hs|Hc]%IH; [|by right].
  apply addAll_is_Some in Hs as [Hs| ->]; [by left|right; by eexists].
Qed.

(** The values [copyHeaders] leaves under a key: those already there, then
    those of the entries that map to the key, in the order visited. *)
Lemma copyHeadersIn_Values entries : ∀ dst k,
  http.Values (copyHeadersIn entries dst) k
  = http.Values dst k ++
    mjoin (snd <$> filter (fun e => k = textproto.CanonicalMIMEHeaderKey e.1) entries).
Proof.
  induction entries as [|[key values] entries IH]; intros dst k.
  - simpl. by rewrite app_nil_r.
  - unfold copyHeadersIn in *. simpl. rewrite IH, addAll_Values.
    destruct (decide (k = textproto.CanonicalMIMEHeaderKey key)) as [Heq|Hne].
    + rewrite filter_cons_True by done. simpl. by rewrite <- app_assoc.
    + rewrite filter_cons_False by done. by rewrite app_nil_r.
Qed.

Lemma filter_none {A} (P : A → Prop) `{!∀ x, Decision (P x)} (l : list A) :
  (∀ x, x ∈ l → ¬ P x) → filter P l = [].
Proof.
  induction l as [|x l IH]; intros Hno; [done|].
  rewrite filter_cons_False by (apply Hno, elem_of_cons; by left).
  apply IH. intros y Hin. apply Hno, elem_of_cons. by right.
Qed.

Lemma filter_agree {A} (P Q : A → Prop)
    `{!∀ x, Decision (P x), !∀ x, Decision (Q x)} (l : list A) :
  (∀ x, x ∈ l → (P x ↔ Q x)) → filter P l = filter Q l.
Proof.
  induction l as [|x l IH]; intros Hpq; [done|].
  assert (Hx : P x ↔ Q x) by (apply Hpq, elem_of_cons; by left).
  assert (Hl : filter P l = filter Q l).
  { apply IH. intros y Hin. apply Hpq, elem_of_cons. by right. }
  destruct (decide (P x)) as [Hp|Hnp].
  - rewrite !filter_cons_True by tauto. by rewrite Hl.
  - rewrite !filter_cons_False by tauto. done.
Qed.

Lemma filter_key_absent (l : list (string * list string)) k :
  k ∉ l.*1 → filter (fun e : string * list string => k = e.1) l = [].
Proof.
  intros Hnotin. apply filter_none.
  intros [k' v'] Hin Hk. simpl in Hk. subst k'.
  apply Hnotin. apply list_elem_of_fmap. by exists (k, v').
Qed.

Lemma filter_key_present (l : list (string * list string)) k values :
  NoDup l.*1 → (k, values) ∈ l →
  filter (fun e : string * list string => k = e.1) l = [(k, values)].
Proof.
  induction l as [|[key vs] l IH]; intros Hnd Hin.
  - by apply elem_of_nil in Hin.
  - apply NoDup_cons in Hnd as [Hnotin Hnd].
    apply elem_of_cons in Hin as [Heq|Hin].
    + injection Heq as <- <-. rewrite filter_cons_True by done.
      by rewrite filter_key_absent.
    + rewrite filter_cons_False; [by apply IH|].
      simpl. intros ->. apply Hnotin.
      apply list_elem_of_fmap. by exists (key, values).
Qed.

(** With canonical keys in [src], [copyHeaders] adds to each key of [dst]
    the values [src] has under that very key. *)
Lemma copyHeaders_Values dst src k :
  canonicalKeys src →
  http.Values (copyHeaders dst src) k = http.Values dst k ++ http.Values src k.
Proof.
  intros Hcanon. unfold copyHeaders. rewrite copyHeadersIn_Values. f_equal.
  assert (filter (fun e : string * list string =>
                    k = textproto.CanonicalMIMEHeaderKey e.1) (map_to_list src)
          = filter (fun e : string * list string => k = e.1) (map_to_list src))
    as ->.
  { apply filter_agree. intros [key vs] Hin. simpl.
    apply elem_of_map_to_list in Hin.
    rewrite (Hcanon key) by (by eexists). done. }
  unfold http.Values at 1. destruct (src !! k) as [values|] eqn:Hl; simpl.
  - rewrite (filter_key_present _ k values).
    + simpl. by rewrite app_nil_r.
    + apply NoDup_fst_map_to_list.
    + by apply elem_of_map_to_list.
  - rewrite filter_key_absent; [done|].
    intros ([k' vs] & Hk & Hin)%list_elem_of_fmap. simpl in Hk. subst k'.
    apply elem_of_map_to_list in Hin. congruence.
Qed.

End Headers.

(** ** Header names in any spelling *)

Section HeaderNames.

Import proxy.

Ltac by_cases_on_byte c :=
  destruct c as [[] [] [] [] [] [] [] []]; reflexivity.

Lemma lowerChar_valid (c : ascii) :
  textproto.validHeaderFieldByte (lowerChar c) = textproto.validHeaderFieldByte c.
Proof. by_cases_on_byte c. Qed.

Lemma canonStep_lower (upper : bool) (c : ascii) :
  (if upper && textproto.isLower (lowerChar c) then textproto.toUpper (lowerChar c)
   else if negb upper && textproto.isUpper (lowerChar c)
        then textproto.toLower (lowerChar c)
        else lowerChar c)
  = (if upper && textproto.isLower c then textproto.toUpper c
     else if negb upper && textproto.isUpper c then textproto.toLower c
     else c).
Proof. destruct upper; by_cases_on_byte c. Qed.

Lemma lower_canonStep (upper : bool) (c : ascii) :
  lowerChar (if upper && textproto.isLower c then textproto.toUpper c
             else if negb upper && textproto.isUpper c then textproto.toLower c
             else c)
  = lowerChar c.
Proof. destruct upper; by_cases_on_byte c. Qed.

Lemma allValid_lower (s : string) :
  textproto.allValid (lowerKey s) = textproto.allValid s.
Proof.
  induction s as [|c s IH]; [done|]. simpl. by rewrite lowerChar_valid, IH.
Qed.

Lemma canonLoop_lower (s : string) : ∀ upper,
  textproto.canonLoop upper (lowerKey s) = textproto.canonLoop upper s.
Proof.
  induction s as [|c s IH]; intros upper; [done|].
  cbn [lowerKey textproto.canonLoop]. rewrite canonStep_lower. by rewrite IH.
Qed.

Lemma lower_canonLoop (s : string) : ∀ upper,
  lowerKey (textproto.canonLoop upper s) = lowerKey s.
Proof.
  induction s as [|c s IH]; intros upper; [done|].
  cbn [lowerKey textproto.canonLoop]. rewrite lower_canonStep. by rewrite IH.
Qed.

Lemma hopByHop_fixed :
  Forall (fun name => textproto.allValid name = true ∧
                      textproto.canonLoop true name = name) hopByHopHeaders.
Proof. repeat constructor. Qed.

(** A canonical key that spells a hop-by-hop name, in whatever case, is
    that name. *)
Lemma canonical_spelling (k0 name : string) :
  name ∈ hopByHopHeaders →
  lowerKey (textproto.CanonicalMIMEHeaderKey k0) = lowerKey name →
  textproto.CanonicalMIMEHeaderKey k0 = name.
Proof.
  intros Hin Hlow.
  destruct (proj1 (Forall_forall _ _) hopByHop_fixed name Hin) as [Hvalid Hfix].
  unfold textproto.CanonicalMIMEHeaderKey in *.
  destruct (textproto.allValid k0) eqn:Hv.
  - rewrite lower_canonLoop in Hlow.
    rewrite <- canonLoop_lower, Hlow, canonLoop_lower. exact Hfix.
  - rewrite <- allValid_lower, Hlow, allValid_lower in Hv. congruence.
Qed.

(** What [copyHeaders] followed by [removeHopByHopHeaders] leaves, starting
    from an empty header set, has no hop-by-hop header. *)
Lemma cleaned_lacks (entries : list (string * list string)) (name : string) :
  name ∈ hopByHopHeaders →
  lacksHeader name (removeHopByHopHeaders (copyHeadersIn entries ∅)).
Proof.
  intros Hin. split.
  - rewrite removeHopByHopHeaders_lookup. by rewrite decide_True.
  - intros k Hs Hlow. rewrite removeHopByHopHeaders_lookup in Hs.
    destruct (decide (k ∈ hopByHopHeaders)) as [Hk|Hk].
    { by destruct Hs. }
    apply copyHeadersIn_is_Some in Hs as [Hs|[k0 ->]].
    { rewrite lookup_empty in Hs. by destruct Hs. }
    apply Hk. by rewrite (canonical_spelling k0 name).
Qed.

Lemma doHops_headers `{http.Lib} (hops : nat) :
  ∀ net c req via q,
    q ∈ (http.doHops hops net c req via).2 →
    q ∈ via ∨ http.o_Header q = http.o_Header req.
Proof.
  assert (Hbase : ∀ (req : http.OutRequest) via q,
             q ∈ via ++ [req] → q ∈ via ∨ http.o_Header q = http.o_Header req).
  { intros req via q [Hq|Hq]%elem_of_app; [by left|].
    apply list_elem_of_singleton in Hq as ->. by right. }
  induction hops as [|hops IH]; intros net c req via q; simpl;
    destruct (net req) as [resp|err]; simpl; try (by apply Hbase);
    destruct (http.isRedirectStatus (http.r_StatusCode resp)); simpl;
    try (by apply Hbase);
    destruct (String.eqb (http.Get (http.r_Header resp) "Location") "");
    simpl; try (by apply Hbase);
    destruct (http.resolveLocation (http.o_URL req)
                (http.Get (http.r_Header resp) "Location")) as [target|];
    simpl; try (by apply Hbase);
    destruct (http.CheckRedirect c _ _); simpl; try (by apply Hbase).
  intros [Hq|Hq]%IH; [by apply Hbase|].
  right. exact Hq.
Qed.

End HeaderNames.

(** ** The forwarding engine *)

Section Forwarding.

Import proxy.

Context `{esc : url.Escaping} `{lib : http.Lib}.

Lemma emitAll_run (evs : list Event) : ∀ s,
  emitAll evs s = Done tt {| world := world s; trace := trace s ++ evs |}.
Proof.
  induction evs as [|ev evs IH]; intros [w tr]; simpl.
  - unfold ret. by rewrite app_nil_r.
  - unfold bind, emit. simpl. rewrite IH. simpl. by rewrite <- app_assoc.
Qed.

(** A client built by [NewHandler] sends the request once, whatever comes
    back. *)
Lemma Do_NewHandler_sent (n : Z) (hops : nat)
    (net : http.OutRequest → http.RoundTrip) (req : http.OutRequest) :
  (http.Do hops net (httpClient (NewHandler n)) req).2 = [req].
Proof.
  unfold http.Do. destruct hops; simpl;
    destruct (net req) as [resp|err]; try done;
    destruct (http.isRedirectStatus (http.r_StatusCode resp)); try done;
    simpl; destruct (String.eqb _ ""); try done;
    destruct (http.resolveLocation _ _); done.
Qed.

(** It returns the origin's answer, redirect or not, unless that is a
    redirect with a Location that does not parse. *)
Lemma Do_NewHandler_answer (n : Z) (hops : nat)
    (net : http.OutRequest → http.RoundTrip) (req : http.OutRequest)
    (resp : http.Response) :
  net req = http.Answer resp →
  locationParses req resp →
  (http.Do hops net (httpClient (NewHandler n)) req).1 = http.Answer resp.
Proof.
  intros Hnet Hloc. unfold locationParses in Hloc.
  unfold http.Do. destruct hops; simpl; rewrite Hnet;
    destruct (http.isRedirectStatus (http.r_StatusCode resp)); try done;
    simpl; destruct (String.eqb_spec (http.Get (http.r_Header resp) "Location") "");
    try done;
    destruct (Hloc eq_refl) as [Hempty|[target ->]]; done.
Qed.

Lemma Do_NewHandler_error (n : Z) (hops : nat)
    (net : http.OutRequest → http.RoundTrip) (req : http.OutRequest) err :
  net req = http.TransportError err →
  (http.Do hops net (httpClient (NewHandler n)) req).1 = http.TransportError err.
Proof.
  intros Hnet. unfold http.Do. destruct hops; simpl; by rewrite Hnet.
Qed.

Lemma redirect_status_written (code : Z) :
  http.isRedirectStatus code = true → (code <? 100) || (999 <? code) = false.
Proof.
  unfold http.isRedirectStatus. intros H.
  repeat (apply orb_true_iff in H as [H|H]); apply Z.eqb_eq in H; by subst code.
Qed.

(** Every way [handleHTTP] can go, for any handler. *)
Lemma handleHTTP_outcome (h : Handler) (env : Env) (r : http.Request) (w : World) :
  handleHTTP h env r (start w)
  = if http.newRequestErr (http.Method r) (buildTargetURL r)
    then Done tt {| world := w;
                    trace := [EvHttpError "Bad Request" http.StatusBadRequest] |}
    else
      let did := http.Do (e_hops env) (e_net env) (httpClient h) (outboundHTTP h r) in
      match did.1 with
      | http.TransportError _ =>
          Done tt {| world := w;
                     trace := (EvRoundTrip <$> did.2) ++
                              [EvHttpError "Bad Gateway" http.StatusBadGateway] |}
      | http.Answer resp =>
          match Add (recordedHTTP h env r resp) w with
          | Ok w' =>
              if (http.r_StatusCode resp <? 100) || (999 <? http.r_StatusCode resp)
              then
                Panicked ("invalid WriteHeader code "
                          +:+ pretty (http.r_StatusCode resp))
                  {| world := w';
                     trace := (EvRoundTrip <$> did.2) ++
                       [EvStoreAdd (recordedHTTP h env r resp); EvCloseBody] |}
              else
                Done tt {| world := w';
                           trace := (EvRoundTrip <$> did.2) ++
                             [EvStoreAdd (recordedHTTP h env r resp);
                              EvWriteHeader (relayedHeader resp)
                                (http.r_StatusCode resp);
                              EvWrite (http.readAllLimit (http.r_Body resp)
                                         (maxRequestSize h));
                              EvCloseBody] |}
          | Panic msg =>
              Panicked msg {| world := w;
                              trace := (EvRoundTrip <$> did.2) ++ [EvCloseBody] |}
          end
      end.
Proof.
  unfold handleHTTP, http.NewRequestWithContext.
  destruct (http.newRequestErr (http.Method r) (buildTargetURL r)); [done|].
  fold (outboundHTTP h r).
  destruct (http.Do (e_hops env) (e_net env) (httpClient h) (outboundHTTP h r))
    as [result sent].
  unfold bind at 1. rewrite emitAll_run. simpl. destruct result as [resp|err]; [|done].
  fold (recordedHTTP h env r resp). unfold deferring, bind, storeAdd. simpl.
  destruct (Add (recordedHTTP h env r resp) w) as [w'|msg]; [|done].
  unfold writeHeader. simpl.
  destruct ((http.r_StatusCode resp <? 100) || (999 <? http.r_StatusCode resp)).
  - simpl. by rewrite <- !app_assoc.
  - unfold emit. simpl. unfold relayedHeader. by rewrite <- !app_assoc.
Qed.

(** The three ways [handleHTTP] can go under a handler from [NewHandler]
    when neither [Add] nor [WriteHeader] panics. *)
Lemma handleHTTP_rejected (h : Handler) (env : Env) (r : http.Request) (w : World) :
  http.newRequestErr (http.Method r) (buildTargetURL r) = true →
  handleHTTP h env r (start w)
  = Done tt {| world := w;
               trace := [EvHttpError "Bad Request" http.StatusBadRequest] |}.
Proof.
  intros Herr. unfold handleHTTP, http.NewRequestWithContext. by rewrite Herr.
Qed.

Lemma handleHTTP_failed (n : Z) (env : Env) (r : http.Request) (w : World) err :
  http.newRequestErr (http.Method r) (buildTargetURL r) = false →
  e_net env (outboundHTTP (NewHandler n) r) = http.TransportError err →
  handleHTTP (NewHandler n) env r (start w)
  = Done tt {| world := w;
               trace := [EvRoundTrip (outboundHTTP (NewHandler n) r);
                         EvHttpError "Bad Gateway" http.StatusBadGateway] |}.
Proof.
  intros Hnew Hnet. rewrite handleHTTP_outcome, Hnew. cbv zeta.
  rewrite Do_NewHandler_sent.
  by rewrite (Do_NewHandler_error n _ _ _ err Hnet).
Qed.

Lemma handleHTTP_answered (n : Z) (env : Env) (r : http.Request) (w w' : World) resp :
  http.newRequestErr (http.Method r) (buildTargetURL r) = false →
  e_net env (outboundHTTP (NewHandler n) r) = http.Answer resp →
  locationParses (outboundHTTP (NewHandler n) r) resp →
  (http.r_StatusCode resp <? 100) || (999 <? http.r_StatusCode resp) = false →
  Add (recordedHTTP (NewHandler n) env r resp) w = Ok w' →
  handleHTTP (NewHandler n) env r (start w)
  = Done tt {| world := w';
               trace := [EvRoundTrip (outboundHTTP (NewHandler n) r);
                         EvStoreAdd (recordedHTTP (NewHandler n) env r resp);
                         EvWriteHeader (relayedHeader resp) (http.r_StatusCode resp);
                         EvWrite (http.readAllLimit (http.r_Body resp) n);
                         EvCloseBody] |}.
Proof.
  intros Hnew Hnet Hloc Hcode Hadd. rewrite handleHTTP_outcome, Hnew. cbv zeta.
  rewrite Do_NewHandler_sent.
  rewrite (Do_NewHandler_answer n _ _ _ resp Hnet Hloc).
  by rewrite Hadd, Hcode.
Qed.

End Forwarding.

Section ForwardingTraces.

Import proxy.

Context `{esc : url.Escaping} `{lib : http.Lib}.

Lemma relayed_Values (resp : http.Response) (k : string) :
  canonicalKeys (http.r_Header resp) → k ∉ hopByHopHeaders →
  http.Values (relayedHeader resp) k = http.Values (http.r_Header resp) k.
Proof.
  intros Hcanon Hk. unfold relayedHeader.
  unfold http.Values at 1. rewrite removeHopByHopHeaders_lookup.
  rewrite decide_False by done.
  fold (http.Values (copyHeaders ∅ (http.r_Header resp)) k).
  by rewrite copyHeaders_Values.
Qed.

(** Every header set that [handleHTTP] puts on the wire, towards the origin
    or towards the client, went through [removeHopByHopHeaders]. *)
Lemma handleHTTP_headers (h : Handler) (env : Env) (r : http.Request) (w : World) :
  Forall (fun ev => ∀ hdr, headersSent ev = Some hdr →
                    ∃ entries, hdr = removeHopByHopHeaders (copyHeadersIn entries ∅))
         (trace (final (handleHTTP h env r (start w)))).
Proof.
  rewrite handleHTTP_outcome.
  destruct (http.newRequestErr (http.Method r) (buildTargetURL r)).
  { simpl. repeat constructor. intros hdr [=]. }
  cbv zeta.
  assert (Hsent : Forall (fun ev => ∀ hdr, headersSent ev = Some hdr →
              ∃ entries, hdr = removeHopByHopHeaders (copyHeadersIn entries ∅))
            (EvRoundTrip <$>
               (http.Do (e_hops env) (e_net env) (httpClient h)
                  (outboundHTTP h r)).2)).
  { apply Forall_fmap, Forall_forall. intros q Hq hdr [= <-].
    destruct (doHops_headers (e_hops env) (e_net env) (httpClient h)
                (outboundHTTP h r) [] q Hq) as [Hnil| ->].
    { by apply elem_of_nil in Hnil. }
    eexists. reflexivity. }
  assert (Hnone : ∀ ev, headersSent ev = None →
            ∀ hdr, headersSent ev = Some hdr →
              ∃ entries, hdr = removeHopByHopHeaders (copyHeadersIn entries ∅)).
  { intros ev -> hdr [=]. }
  destruct (http.Do (e_hops env) (e_net env) (httpClient h) (outboundHTTP h r)).1
    as [resp|err]; simpl.
  - destruct (Add _ w) as [w'|msg]; [destruct (_ || _)|]; simpl;
      apply Forall_app; (split; [exact Hsent|]);
      repeat (apply Forall_cons; split); try (by apply Forall_nil);
      try (by apply Hnone).
    intros hdr [= <-]. eexists. reflexivity.
  - apply Forall_app. split; [exact Hsent|].
    apply Forall_singleton. by apply Hnone.
Qed.


End ForwardingTraces.

(** C1, as the code has it. When the dispatch to the origin fails (here: the
    name of the host does not resolve), [handleHTTP] answers the client with
    "Bad Gateway", 502, and returns: the record it built is not handed to the
    store, which stays empty. *)
Theorem C1_transport_failure_leaves_no_record :
  let h := proxy.NewHandler 1024 in
  let env := samples.env samples.unreachable true true None in
  let run := @proxy.handleHTTP samples.plainEscaping samples.plainLib h env
               samples.getRequest (proxy.start (NewWorld 1000)) in
  run = proxy.Done tt
          {| proxy.world := NewWorld 1000;
             proxy.trace :=
               [proxy.EvRoundTrip
                  {| http.o_Method := "GET";
                     http.o_URL := "http://example.test/a?b=1";
                     http.o_Header := {[ "X-Test" := ["v"] ]};
                     http.o_Body := [] |};
                proxy.EvHttpError "Bad Gateway" 502] |} ∧
  Count (proxy.world (proxy.final run)) = 0 ∧
  GetAll (proxy.world (proxy.final run)) = [].
Proof. by vm_compute. Qed.

(** C3. Whatever the inbound request and its headers, whatever the handler's
    client and the origin's answers: no header set that [handleHTTP] sends to
    the origin or relays to the client holds one of the eight hop-by-hop
    headers, under that name or under any other spelling of it. *)
Theorem C3_hop_by_hop_never_forwarded :
  ∀ (esc : url.Escaping) (lib : http.Lib) (h : proxy.Handler) (env : proxy.Env)
    (r : http.Request) (w : World),
    Forall (fun ev => ∀ hdr, headersSent ev = Some hdr →
                      Forall (fun name => lacksHeader name hdr)
                             proxy.hopByHopHeaders)
           (proxy.trace (proxy.final (proxy.handleHTTP h env r (proxy.start w)))).
Proof.
  intros esc lib h env r w.
  eapply Forall_impl; [apply handleHTTP_headers|].
  intros ev Hev hdr Hhdr. destruct (Hev hdr Hhdr) as [entries ->].
  apply Forall_forall. intros name Hin. by apply cleaned_lacks.
Qed.

Lemma C3_hop_by_hop_never_forwarded_witness :
  let h := proxy.NewHandler 1024 in
  let env := samples.env samples.moved true true None in
  let tr := proxy.trace (proxy.final
              (@proxy.handleHTTP samples.plainEscaping samples.plainLib h env
                 samples.getRequest (proxy.start (NewWorld 1000)))) in
  headersSent <$> tr
  = [Some {[ "X-Test" := ["v"] ]}; None;
     Some {[ "Location" := ["http://example.test/b"] ]}; None; None] ∧
  Forall (fun ev => ∀ hdr, headersSent ev = Some hdr →
                    Forall (fun name => lacksHeader name hdr)
                           proxy.hopByHopHeaders) tr.
Proof.
  split; [by vm_compute|].
  apply (C3_hop_by_hop_never_forwarded samples.plainEscaping samples.plainLib).
Defined.

Lemma canonicalKeys_check (h : gmap string (list string)) :
  map_Forall (fun k _ => textproto.CanonicalMIMEHeaderKey k = k) h →
  canonicalKeys h.
Proof. intros Hall k [values Hk]. exact (Hall k values Hk). Qed.

(** The contrast: a client left with the default policy follows the same
    redirect answer and sends a second request. *)
Lemma Do_default_follows :
  let client := {| http.CheckRedirect := http.defaultCheckRedirect;
                   http.Timeout := 60;
                   http.ClientTransport := http.ClientTransport
                     (proxy.httpClient (proxy.NewHandler 0)) |} in
  let net := fun req : http.OutRequest =>
               if String.eqb (http.o_URL req) "http://example.test/a?b=1"
               then http.Answer samples.movedResponse
               else http.Answer {| http.r_StatusCode := 200; http.r_Header := ∅;
                                   http.r_Body := [] |} in
  let req := @outboundHTTP samples.plainEscaping (proxy.NewHandler 0)
               samples.getRequest in
  http.o_URL <$> (@http.Do samples.plainLib 10 net client req).2
  = ["http://example.test/a?b=1"; "http://example.test/b"] ∧
  http.o_URL <$> (@http.Do samples.plainLib 10 net
                    (proxy.httpClient (proxy.NewHandler 0)) req).2
  = ["http://example.test/a?b=1"].
Proof. by vm_compute. Qed.

(** C4, as the code has it. The origin answers the forwarded request with
    302 and a Location that is no URL. The client of the handler parses the
    Location before it consults its redirect policy and returns an error, so
    [handleHTTP] answers "Bad Gateway", 502: the redirect is not relayed,
    neither its status nor its Location reaches the client, and no record is
    stored. *)
Theorem C4_unparsable_location_not_relayed :
  let h := proxy.NewHandler 1024 in
  let env := samples.env samples.garbled true true None in
  let r := samples.getRequest in
  let run := @proxy.handleHTTP samples.plainEscaping samples.plainLib h env r
               (proxy.start (NewWorld 1000)) in
  proxy.e_net env (@outboundHTTP samples.plainEscaping h r)
  = http.Answer samples.garbledResponse ∧
  http.r_StatusCode samples.garbledResponse = 302 ∧
  http.Values (http.r_Header samples.garbledResponse) "Location" = ["%zz"] ∧
  run = proxy.Done tt
          {| proxy.world := NewWorld 1000;
             proxy.trace :=
               [proxy.EvRoundTrip
                  {| http.o_Method := "GET";
                     http.o_URL := "http://example.test/a?b=1";
                     http.o_Header := {[ "X-Test" := ["v"] ]};
                     http.o_Body := [] |};
                proxy.EvHttpError "Bad Gateway" 502] |} ∧
  Count (proxy.world (proxy.final run)) = 0.
Proof. by vm_compute. Qed.

(** C9, as the code has it. A chunked POST reaches the handler with its body
    and the length -1; the handler does not read the body: the request it
    forwards and the record it stores both carry an empty body, though the
    inbound body, cut to the maximum, is the five bytes sent. *)
Lemma C9_chunked_body_is_dropped :
  let h := proxy.NewHandler 1024 in
  let env := samples.env samples.moved true true None in
  let r := samples.postRequest (-1) in
  let tr := proxy.trace (proxy.final
              (@proxy.handleHTTP samples.plainEscaping samples.plainLib h env r
                 (proxy.start (NewWorld 1000)))) in
  http.Body r = Some samples.hello ∧
  http.readAllLimit samples.hello (proxy.maxRequestSize h) = samples.hello ∧
  length samples.hello = 5%nat ∧
  requestBodySeen <$> tr = [Some []; Some []; None; None; None].
Proof. by vm_compute. Qed.

(** ** The target URL *)

Section TargetURL.

Import proxy.

Context `{esc : url.Escaping}.






End TargetURL.



(** ** The tunnel engine *)

Section Tunnel.

Import proxy.

Context `{lib : http.Lib}.

Lemma handleConnect_dial_failed (h : Handler) (env : Env) (r : http.Request)
    (w w' : World) :
  e_dial env (dialAddr r) = false →
  Add (recordedConnect env r http.StatusBadGateway) w = Ok w' →
  handleConnect h env r (start w)
  = Done tt {| world := w';
               trace := [EvDial (dialAddr r);
                         EvHttpError "Bad Gateway" http.StatusBadGateway;
                         EvStoreAdd (recordedConnect env r http.StatusBadGateway)] |}.
Proof.
  intros Hdial Hadd. unfold handleConnect. rewrite Hdial.
  fold (recordedConnect env r http.StatusBadGateway).
  unfold deferring, bind, emit, storeAdd. simpl. by rewrite Hadd.
Qed.

Lemma handleConnect_established (h : Handler) (env : Env) (r : http.Request)
    (w w' : World) (from : Conn) (err : option string) :
  e_dial env (dialAddr r) = true → e_hijacker env = true →
  e_hijack env = true → e_ack env = true →
  e_relay env = Some (from, err) →
  Add (recordedConnect env r http.StatusOK) w = Ok w' →
  handleConnect h env r (start w)
  = Done tt {| world := w';
               trace := [EvDial (dialAddr r); EvHijack;
                         EvConnWrite ackLine true;
                         EvCopyDone from err;
                         EvStoreAdd (recordedConnect env r http.StatusOK);
                         EvClose ClientConn; EvClose TargetConn] |}.
Proof.
  intros Hdial Hhj Hhijack Hack Hrelay Hadd. unfold handleConnect.
  rewrite Hdial, Hhj, Hhijack, Hack, Hrelay.
  fold (recordedConnect env r http.StatusOK).
  unfold deferring, bind, emit, storeAdd. simpl. by rewrite Hadd.
Qed.

(** While neither copy has returned, the handler waits and nothing is
    stored. *)
Lemma handleConnect_waits (h : Handler) (env : Env) (r : http.Request) (w : World) :
  e_dial env (dialAddr r) = true → e_hijacker env = true →
  e_hijack env = true → e_ack env = true → e_relay env = None →
  handleConnect h env r (start w)
  = Blocked {| world := w;
               trace := [EvDial (dialAddr r); EvHijack;
                         EvConnWrite ackLine true] |}.
Proof.
  intros Hdial Hhj Hhijack Hack Hrelay. unfold handleConnect.
  rewrite Hdial, Hhj, Hhijack, Hack, Hrelay. reflexivity.
Qed.

End Tunnel.

(** C6. When the dial, the takeover of the client connection and the write
    of the "200 Connection Established" line have succeeded, then as soon as
    one of the two copies returns, whichever it is and with or without an
    error, the handler hands one record to the store, with status 200 and
    the elapsed time, closes both connections and returns. *)
Theorem C6_tunnel_record :
  ∀ (lib : http.Lib) (h : proxy.Handler) (env : proxy.Env) (r : http.Request)
    (w : World) (from : proxy.Conn) (err : option string),
    storeOk w →
    proxy.e_dial env (proxy.dialAddr r) = true →
    proxy.e_hijacker env = true → proxy.e_hijack env = true →
    proxy.e_ack env = true →
    proxy.e_relay env = Some (from, err) →
    ∃ w',
      Add (recordedConnect env r 200) w = Ok w' ∧
      proxy.handleConnect h env r (proxy.start w)
      = proxy.Done tt
          {| proxy.world := w';
             proxy.trace :=
               [proxy.EvDial (proxy.dialAddr r); proxy.EvHijack;
                proxy.EvConnWrite proxy.ackLine true;
                proxy.EvCopyDone from err;
                proxy.EvStoreAdd (recordedConnect env r 200);
                proxy.EvClose proxy.ClientConn;
                proxy.EvClose proxy.TargetConn] |} ∧
      StatusCode (recordedConnect env r 200) = 200 ∧
      Duration (recordedConnect env r 200) = proxy.e_end env - proxy.e_now env ∧
      IsTunnel (recordedConnect env r 200) = true ∧
      IsHTTPS (recordedConnect env r 200) = true.
Proof.
  intros lib h env r w from err Hok Hdial Hhj Hhijack Hack Hrelay.
  destruct (Add_spec (recordedConnect env r 200) w Hok) as (w' & Hadd & _).
  exists w'. split; [done|]. split; [|done].
  by apply (handleConnect_established h env r w w' from err).
Qed.

Lemma C6_tunnel_record_witness :
  let h := proxy.NewHandler 1024 in
  let env := samples.env samples.unreachable true true
               (Some (proxy.TargetConn, Some "read: connection reset by peer")) in
  let r := samples.connectRequest in
  ∃ w',
    Add (recordedConnect env r 200) (NewWorld 1000) = Ok w' ∧
    @proxy.handleConnect samples.plainLib h env r (proxy.start (NewWorld 1000))
    = proxy.Done tt
        {| proxy.world := w';
           proxy.trace :=
             [proxy.EvDial "example.test:443"; proxy.EvHijack;
              proxy.EvConnWrite proxy.ackLine true;
              proxy.EvCopyDone proxy.TargetConn
                (Some "read: connection reset by peer");
              proxy.EvStoreAdd (recordedConnect env r 200);
              proxy.EvClose proxy.ClientConn;
              proxy.EvClose proxy.TargetConn] |} ∧
    StatusCode (recordedConnect env r 200) = 200 ∧
    Duration (recordedConnect env r 200) = 250 ∧
    IsTunnel (recordedConnect env r 200) = true ∧
    IsHTTPS (recordedConnect env r 200) = true.
Proof.
  apply (C6_tunnel_record samples.plainLib (proxy.NewHandler 1024)
           (samples.env samples.unreachable true true
              (Some (proxy.TargetConn, Some "read: connection reset by peer")))
           samples.connectRequest (NewWorld 1000) proxy.TargetConn
           (Some "read: connection reset by peer")).
  - apply NewWorld_ok.
  - reflexivity.
  - reflexivity.
  - reflexivity.
  - reflexivity.
  - reflexivity.
Defined.

(** C7. When the dial to the resolved host and port fails, the handler
    answers the client "Bad Gateway", 502, hands one record with status 502
    to the store and returns: the client connection is not taken over and
    no acknowledgment is written. *)
Theorem C7_connect_dial_failure :
  ∀ (lib : http.Lib) (h : proxy.Handler) (env : proxy.Env) (r : http.Request)
    (w : World),
    storeOk w →
    proxy.e_dial env (proxy.dialAddr r) = false →
    ∃ w',
      Add (recordedConnect env r 502) w = Ok w' ∧
      proxy.handleConnect h env r (proxy.start w)
      = proxy.Done tt
          {| proxy.world := w';
             proxy.trace :=
               [proxy.EvDial (proxy.dialAddr r);
                proxy.EvHttpError "Bad Gateway" 502;
                proxy.EvStoreAdd (recordedConnect env r 502)] |} ∧
      StatusCode (recordedConnect env r 502) = 502 ∧
      requests (w_store w') = evict w ++ [recordedConnect env r 502].
Proof.
  intros lib h env r w Hok Hdial.
  destruct (Add_spec (recordedConnect env r 502) w Hok) as (w' & Hadd & Hreq & _).
  exists w'. split; [done|]. split; [|done].
  by apply (handleConnect_dial_failed h env r w w').
Qed.

Lemma C7_connect_dial_failure_witness :
  let h := proxy.NewHandler 1024 in
  let env := samples.env samples.unreachable false true None in
  let r := samples.connectRequest in
  ∃ w',
    Add (recordedConnect env r 502) (NewWorld 1000) = Ok w' ∧
    @proxy.handleConnect samples.plainLib h env r (proxy.start (NewWorld 1000))
    = proxy.Done tt
        {| proxy.world := w';
           proxy.trace :=
             [proxy.EvDial "example.test:443";
              proxy.EvHttpError "Bad Gateway" 502;
              proxy.EvStoreAdd (recordedConnect env r 502)] |} ∧
    StatusCode (recordedConnect env r 502) = 502 ∧
    requests (w_store w') = [recordedConnect env r 502].
Proof.
  apply (C7_connect_dial_failure samples.plainLib (proxy.NewHandler 1024)
           (samples.env samples.unreachable false true None)
           samples.connectRequest (NewWorld 1000)).
  - apply NewWorld_ok.
  - reflexivity.
Defined.

(** ** Dispatch and snapshots *)

Section Dispatch.

Import proxy.

Context `{esc : url.Escaping} `{lib : http.Lib}.

(** [ServeHTTP] sends CONNECT to the tunnel engine and every other method
    to the forwarding engine. *)
Lemma ServeHTTP_connect (h : Handler) (env : Env) (r : http.Request) :
  http.Method r = "CONNECT" → ServeHTTP h env r = handleConnect h env r.
Proof. intros Hm. unfold ServeHTTP. by rewrite Hm. Qed.

Lemma ServeHTTP_other (h : Handler) (env : Env) (r : http.Request) :
  http.Method r ≠ "CONNECT" → ServeHTTP h env r = handleHTTP h env r.
Proof.
  intros Hm. unfold ServeHTTP.
  destruct (String.eqb_spec (http.Method r) http.MethodConnect); done.
Qed.

Lemma ackLine_length : String.length ackLine = 39%nat.
Proof. reflexivity. Qed.

(** [GetRecent] with a count that is not positive, or not below the size,
    is [GetAll]; otherwise it is the last [n] records. *)
Lemma GetRecent_all (n : Z) (w : World) :
  n ≤ 0 ∨ Count w ≤ n → GetRecent n w = GetAll w.
Proof.
  intros Hn. unfold GetRecent, GetAll, Count in *.
  destruct (Z.leb_spec n 0) as [Hle|Hgt]; simpl.
  - by rewrite Z.sub_diag.
  - destruct (Z.ltb_spec (Z.of_nat (length (requests (w_store w)))) n) as [Hlt|Hge].
    + by rewrite Z.sub_diag.
    + replace n with (Z.of_nat (length (requests (w_store w)))) by lia.
      by rewrite Z.sub_diag.
Qed.

Lemma GetRecent_last (n : Z) (w : World) :
  0 < n ≤ Count w → GetRecent n w = lastN (Z.to_nat n) (GetAll w).
Proof.
  intros [Hpos Hle]. unfold GetRecent, GetAll, Count, lastN in *.
  rewrite (proj2 (Z.leb_gt _ _)) by lia. simpl.
  rewrite (proj2 (Z.ltb_ge _ _)) by lia. f_equal. lia.
Qed.

(** [Clear] empties the history and leaves the subscribers and their queues
    as they are. *)
Lemma Clear_spec (w : World) :
  GetAll (Clear w) = [] ∧
  maxSize (w_store (Clear w)) = maxSize (w_store w) ∧
  subscribers (w_store (Clear w)) = subscribers (w_store w) ∧
  w_chans (Clear w) = w_chans w.
Proof. done. Qed.

End Dispatch.

(** * Further properties of the store *)

Section StoreMore.

Import calls.

Lemma findByID_first (id : string) (older newer : list CapturedRequest)
    (r : CapturedRequest) :
  (∀ r', r' ∈ older → ID r' ≠ id) → ID r = id →
  findByID id (older ++ r :: newer) = Some r.
Proof.
  induction older as [|r0 older IH]; intros Hold Hid; simpl.
  - by rewrite (proj2 (String.eqb_eq _ _) Hid).
  - destruct (String.eqb_spec (ID r0) id) as [Heq|_].
    + exfalso. apply (Hold r0); [apply elem_of_cons; by left|done].
    + apply IH; [|done]. intros r' Hin. apply Hold, elem_of_cons. by right.
Qed.

Lemma findByID_split (id : string) (rs : list CapturedRequest) :
  match findByID id rs with
  | Some r => ∃ older newer, rs = older ++ r :: newer ∧ ID r = id ∧
                             ∀ r', r' ∈ older → ID r' ≠ id
  | None => ∀ r, r ∈ rs → ID r ≠ id
  end.
Proof.
  induction rs as [|r0 rs IH]; simpl.
  - intros r Hin. by apply elem_of_nil in Hin.
  - destruct (String.eqb_spec (ID r0) id) as [Heq|Hne].
    + exists [], rs. split; [done|split; [done|]].
      intros r' Hin. by apply elem_of_nil in Hin.
    + destruct (findByID id rs) as [r|].
      * destruct IH as (older & newer & -> & Hid & Hold).
        exists (r0 :: older), newer. split; [done|split; [done|]].
        intros r' [->|Hin]%elem_of_cons; [done|by apply Hold].
      * intros r [->|Hin]%elem_of_cons; [done|by apply IH].
Qed.

Lemma step_total (op : Op) (st : Run) :
  storeOk (now st) → anyUnsubscribe op = false → ∃ st', step op st = Ok st'.
Proof.
  intros Hok Hop. destruct op as [req| | |ch|ch]; simpl in *; try done.
  - destruct (Add_spec req (now st) Hok) as (w & -> & _). by eexists.
  - by eexists.
  - by eexists.
  - by eexists.
Qed.

Lemma step_maxSize (op : Op) (st st' : Run) :
  storeOk (now st) → step op st = Ok st' →
  maxSize (w_store (now st')) = maxSize (w_store (now st)).
Proof.
  intros Hok. destruct op as [req| | |ch|ch]; simpl.
  - destruct (Add_spec req (now st) Hok) as (w & -> & _ & Hmax & _).
    by intros [= <-].
  - by intros [= <-].
  - by intros [= <-].
  - destruct (Unsubscribe ch (now st)) as [w|] eqn:Hun; [|done].
    intros [= <-]. simpl. by destruct (Unsubscribe_inv _ _ _ Hun) as (c & _ & _ & _ & _ & _ & ?).
  - intros [= <-]. by rewrite recv_store.
Qed.

Lemma run_total (ops : list Op) : ∀ st,
  storeOk (now st) → Forall (fun op => anyUnsubscribe op = false) ops →
  ∃ st', run ops st = Ok st'.
Proof.
  induction ops as [|op ops IH]; intros st Hok Hops; [by eexists|].
  apply Forall_cons in Hops as [Hop Hops]. simpl.
  destruct (step_total op st Hok Hop) as [st1 Hstep]. rewrite Hstep. simpl.
  apply IH; [|done]. eapply step_ok; eassumption.
Qed.

Lemma run_maxSize (ops : list Op) : ∀ st st',
  storeOk (now st) → run ops st = Ok st' →
  maxSize (w_store (now st')) = maxSize (w_store (now st)).
Proof.
  induction ops as [|op ops IH]; intros st st' Hok; simpl.
  - by intros [= <-].
  - destruct (step op st) as [st1|] eqn:Hstep; [|done]. simpl. intros Hrun.
    pose proof (step_ok op st st1 Hok Hstep) as Hok1.
    rewrite (IH st1 st' Hok1 Hrun). by apply (step_maxSize op).
Qed.

(** A round of notification stops with a panic as soon as one of the
    channels visited is closed. *)
Lemma notifyIn_closed order : ∀ req chans ch (c : gochan.Chan CapturedRequest),
  NoDup order → ch ∈ order → chans !! ch = Some c → gochan.closed c = true →
  notifyIn order req chans = Panic "send on closed channel".
Proof.
  induction order as [|ch0 rest IH]; intros req chans ch c Hnd Hin Hl Hc.
  - by apply elem_of_nil in Hin.
  - apply NoDup_cons in Hnd as [Hnotin Hnd]. simpl. unfold notifyOne.
    destruct (decide (ch = ch0)) as [->|Hne].
    + rewrite Hl. unfold gochan.trySend. by rewrite Hc.
    + apply elem_of_cons in Hin as [?|Hin]; [done|].
      destruct (chans !! ch0) as [c0|] eqn:Hl0; simpl.
      * unfold gochan.trySend. destruct (gochan.closed c0); [done|].
        destruct (length (gochan.buf c0) <? gochan.capacity c0)%nat; simpl;
          (eapply IH; [done|exact Hin| |exact Hc]);
          by rewrite lookup_insert_ne.
      * eapply IH; eassumption.
Qed.

(** After an unsubscription, calls on the store add nothing to the queue. *)
Lemma step_closed_queue ch op st st' (c : gochan.Chan CapturedRequest) :
  storeOk (now st) → step op st = Ok st' →
  w_chans (now st) !! ch = Some c → gochan.closed c = true →
  ∃ c', w_chans (now st') !! ch = Some c' ∧ gochan.closed c' = true ∧
        receivedBy ch st' ++ gochan.buf c' = receivedBy ch st ++ gochan.buf c.
Proof.
  intros Hok Hstep Hl Hc.
  assert (ch ∉ subscribers (w_store (now st))) as Hnin.
  { intros Hin. destruct Hok as (_ & _ & Hopen).
    destruct (Hopen ch Hin) as (c0 & Hl0 & Hc0). congruence. }
  destruct op as [req| | |ch'|ch']; simpl in Hstep.
  - destruct (Add_spec req (now st) Hok) as (w & Hadd & _ & _ & _ & Hch).
    rewrite Hadd in Hstep. simpl in Hstep. injection Hstep as <-. simpl.
    exists c. rewrite Hch, decide_False by done. done.
  - injection Hstep as <-. by exists c.
  - injection Hstep as <-. simpl. exists c.
    rewrite lookup_insert_ne; [done|].
    intros Heq. pose proof (Subscribe_fresh (now st)) as Hf. simpl in Hf.
    rewrite Heq in Hf. congruence.
  - destruct (Unsubscribe ch' (now st)) as [w|] eqn:Hun; [|done].
    simpl in Hstep. injection Hstep as <-. simpl.
    destruct (Unsubscribe_inv _ _ _ Hun) as (c0 & Hl0 & Hc0 & Hch & _).
    exists c. rewrite Hch. rewrite lookup_insert_ne; [done|].
    intros ->. congruence.
  - injection Hstep as <-.
    destruct (recv_chan ch' ch st c Hl) as (c' & Hl' & Hc' & Hq).
    exists c'. split; [done|split; [congruence|done]].
Qed.

Lemma run_closed_queue ch ops : ∀ st st' (c : gochan.Chan CapturedRequest),
  storeOk (now st) → run ops st = Ok st' →
  w_chans (now st) !! ch = Some c → gochan.closed c = true →
  ∃ c', w_chans (now st') !! ch = Some c' ∧ gochan.closed c' = true ∧
        receivedBy ch st' ++ gochan.buf c' = receivedBy ch st ++ gochan.buf c.
Proof.
  induction ops as [|op ops IH]; intros st st' c Hok Hrun Hl Hc.
  - simpl in Hrun. injection Hrun as <-. by exists c.
  - simpl in Hrun. destruct (step op st) as [st1|] eqn:Hstep; [|done].
    simpl in Hrun.
    destruct (step_closed_queue ch op st st1 c Hok Hstep Hl Hc)
      as (c1 & Hl1 & Hc1 & Hq1).
    destruct (IH st1 st' c1 (step_ok _ _ _ Hok Hstep) Hrun Hl1 Hc1)
      as (c' & Hl' & Hc' & Hq').
    exists c'. split; [done|split; [done|congruence]].
Qed.

End StoreMore.

(** X1. [GetRecent] returns a suffix of the history as [GetAll] gives it:
    the whole history when [n] is zero, negative or not below the number of
    stored records, and exactly the last [n] records otherwise. *)
Theorem X1_GetRecent_bounds :
  ∀ (n : Z) (w : World),
    GetRecent n w `suffix_of` GetAll w ∧
    GetRecent n w
    = (if (n <=? 0) || (Count w <=? n) then GetAll w
       else lastN (Z.to_nat n) (GetAll w)) ∧
    Z.of_nat (length (GetRecent n w))
    = (if (n <=? 0) || (Count w <=? n) then Count w else n).
Proof.
  intros n w.
  assert (Heq : GetRecent n w
    = (if (n <=? 0) || (Count w <=? n) then GetAll w
       else lastN (Z.to_nat n) (GetAll w))).
  { destruct (Z.leb_spec n 0) as [Hn|Hn]; simpl.
    - apply GetRecent_all. by left.
    - destruct (Z.leb_spec (Count w) n) as [Hc|Hc].
      + apply GetRecent_all. by right.
      + apply GetRecent_last. lia. }
  split; [|split; [exact Heq|]].
  - unfold GetRecent, GetAll. apply suffix_drop.
  - rewrite Heq.
    destruct ((n <=? 0) || (Count w <=? n)) eqn:Hcase; [done|].
    apply orb_false_iff in Hcase as [Hn%Z.leb_gt Hc%Z.leb_gt].
    rewrite lastN_length. unfold Count, GetAll in *. lia.
Qed.

(** X2. [GetByID] returns the oldest stored record that carries the
    identifier, and the nil pointer exactly when no stored record carries
    it. *)
Theorem X2_GetByID_oldest_match :
  ∀ (id : string) (w : World),
    match GetByID id w with
    | Some r => ∃ older newer, GetAll w = older ++ r :: newer ∧ ID r = id ∧
                               ∀ r', r' ∈ older → ID r' ≠ id
    | None => ∀ r, r ∈ GetAll w → ID r ≠ id
    end.
Proof. intros id w. apply findByID_split. Qed.

(** X3. A record appended under an identifier that no stored record has is
    found by [GetByID] right away, and still after any further appends of
    records with other identifiers, as long as these are fewer than the
    capacity. *)
Theorem X3_Add_then_GetByID :
  ∀ (w : World) (req : CapturedRequest) (others : list CapturedRequest),
    storeOk w →
    (∀ r, r ∈ GetAll w → ID r ≠ ID req) →
    (∀ r, r ∈ others → ID r ≠ ID req) →
    Z.of_nat (length others) < maxSize (w_store w) →
    ∃ w', addAll (req :: others) w = Ok w' ∧ GetByID (ID req) w' = Some req.
Proof.
  intros w req others Hok Hold Hnew Hfew.
  destruct (addAll_spec (req :: others) w (requests (w_store w)) Hok)
    as (w' & Hrun & _ & _ & _ & Hreq).
  { symmetry. apply lastN_all. destruct Hok as (_ & Hlen & _). lia. }
  exists w'. split; [done|]. unfold GetByID. rewrite Hreq. unfold lastN.
  rewrite length_app. simpl.
  rewrite drop_app_le by lia.
  apply findByID_first; [|done].
  intros r' Hin. apply Hold. unfold GetAll.
  rewrite <- (take_drop (length (requests (w_store w)) + S (length others)
                         - Z.to_nat (maxSize (w_store w))) (requests (w_store w))).
  apply elem_of_app. by right.
Qed.

Lemma X3_Add_then_GetByID_witness :
  ∃ w', addAll [samples.record 7; samples.record 8; samples.record 9]
               (NewWorld 3) = Ok w' ∧
        GetByID (ID (samples.record 7)) w' = Some (samples.record 7).
Proof.
  apply (X3_Add_then_GetByID (NewWorld 3) (samples.record 7)
           [samples.record 8; samples.record 9]).
  - apply NewWorld_ok.
  - apply (proj1 (Forall_forall (fun r => ID r ≠ ID (samples.record 7)) _)).
    apply (bool_decide_unpack _). by vm_compute.
  - apply (proj1 (Forall_forall (fun r => ID r ≠ ID (samples.record 7)) _)).
    apply (bool_decide_unpack _). by vm_compute.
  - by vm_compute.
Defined.

(** X4. [Clear] on a well-formed store empties the history and nothing
    else: the capacity, the subscribers and the records already waiting in
    their queues stay, no identifier is found any more, and the next append
    is stored alone and is delivered to the subscribers as before. *)
Theorem X4_Clear_keeps_subscriptions :
  ∀ (w : World) (req : CapturedRequest),
    storeOk w →
    Count (Clear w) = 0 ∧
    (∀ id, GetByID id (Clear w) = None) ∧
    maxSize (w_store (Clear w)) = maxSize (w_store w) ∧
    subscribers (w_store (Clear w)) = subscribers (w_store w) ∧
    w_chans (Clear w) = w_chans w ∧
    ∃ w' w'', Add req (Clear w) = Ok w' ∧ Add req w = Ok w'' ∧
      GetAll w' = [req] ∧ w_chans w' = w_chans w''.
Proof.
  intros w req Hok.
  split; [done|split; [done|split; [done|split; [done|split; [done|]]]]].
  destruct (Add_spec req (Clear w) (Clear_ok _ Hok)) as (w' & Hadd & Hreq & _ & _ & Hch).
  destruct (Add_spec req w Hok) as (w'' & Hadd' & _ & _ & _ & Hch').
  exists w', w''. split; [done|split; [done|split]].
  - unfold GetAll. rewrite Hreq. unfold evict. simpl.
    by destruct (Z.of_nat 0 >=? maxSize (w_store w)).
  - apply map_eq. intros ch. by rewrite Hch, Hch'.
Qed.

Lemma X4_Clear_keeps_subscriptions_witness :
  let w := calls.now (samples.endOf
             (calls.run samples.calls101 (calls.begin (Subscribe (NewWorld 3)).2))
             (calls.begin (NewWorld 3))) in
  Count w = 1 ∧
  Count (Clear w) = 0 ∧
  (∀ id, GetByID id (Clear w) = None) ∧
  maxSize (w_store (Clear w)) = maxSize (w_store w) ∧
  subscribers (w_store (Clear w)) = subscribers (w_store w) ∧
  w_chans (Clear w) = w_chans w ∧
  ∃ w' w'', Add (samples.record 300) (Clear w) = Ok w' ∧
    Add (samples.record 300) w = Ok w'' ∧
    GetAll w' = [samples.record 300] ∧ w_chans w' = w_chans w''.
Proof.
  split; [by vm_compute|].
  apply (X4_Clear_keeps_subscriptions _ (samples.record 300)).
  eapply (run_ok samples.calls101 (calls.begin (Subscribe (NewWorld 3)).2)).
  - apply Subscribe_ok, NewWorld_ok.
  - by vm_compute.
Defined.

(** X5. A store made by [NewStore] has a positive capacity whatever the
    argument: the argument itself when it is positive, 1000 otherwise. Any
    run of appends into it returns and leaves the last records appended, as
    many as were appended up to that capacity. *)
Theorem X5_NewStore_capacity_floor :
  ∀ (n : Z) (reqs : list CapturedRequest),
    let cap := if n <=? 0 then 1000 else n in
    maxSize (NewStore n) = cap ∧ 0 < cap ∧
    ∃ w, addAll reqs (NewWorld n) = Ok w ∧
      maxSize (w_store w) = cap ∧
      Count w = Z.min (Z.of_nat (length reqs)) cap ∧
      GetAll w = lastN (Z.to_nat cap) reqs.
Proof.
  intros n reqs cap.
  assert (Hcap : 0 < cap) by (unfold cap; destruct (Z.leb_spec n 0); lia).
  split; [done|split; [done|]].
  destruct (addAll_spec reqs (NewWorld n) [] (NewWorld_ok n))
    as (w & Hrun & _ & Hmax & _ & Hreq); [done|].
  exists w. split; [done|split; [done|]].
  change (maxSize (w_store (NewWorld n))) with cap in Hreq.
  simpl in Hreq. unfold Count, GetAll. rewrite Hreq.
  split; [|done]. rewrite lastN_length. lia.
Qed.

(** X6. On a store made by [NewStore], calls other than [Unsubscribe]
    (appends, clears, subscriptions, consumers taking records) never panic,
    in any number and order; and whatever calls ran without a panic, the
    capacity is the one the store was made with, the history holds at most
    that many records, and every registered subscriber has an open
    channel. *)
Theorem X6_store_invariants :
  ∀ (n : Z) (ops : list calls.Op),
    (Forall (fun op => anyUnsubscribe op = false) ops →
       ∃ fin, calls.run ops (calls.begin (NewWorld n)) = Ok fin) ∧
    (∀ fin, calls.run ops (calls.begin (NewWorld n)) = Ok fin →
       maxSize (w_store (calls.now fin)) = maxSize (NewStore n) ∧
       Count (calls.now fin) ≤ maxSize (NewStore n) ∧
       subscribersOpen (calls.now fin)).
Proof.
  intros n ops. split.
  - intros Hops. apply run_total; [apply NewWorld_ok|done].
  - intros fin Hrun.
    pose proof (run_ok ops (calls.begin (NewWorld n)) fin (NewWorld_ok n) Hrun)
      as (Hpos & Hlen & Hopen).
    pose proof (run_maxSize ops (calls.begin (NewWorld n)) fin (NewWorld_ok n) Hrun)
      as Hmax.
    simpl in Hmax. split; [done|split; [|done]].
    unfold Count. change (maxSize (NewStore n)) with (maxSize (w_store (NewWorld n))).
    simpl. lia.
Qed.

Lemma X6_store_invariants_witness :
  let ops := calls.OpSubscribe :: samples.calls101 in
  ∃ fin, calls.run ops (calls.begin (NewWorld 0)) = Ok fin ∧
    maxSize (w_store (calls.now fin)) = 1000 ∧
    Count (calls.now fin) ≤ 1000 ∧
    subscribersOpen (calls.now fin).
Proof.
  destruct (proj1 (X6_store_invariants 0 (calls.OpSubscribe :: samples.calls101)))
    as [fin Hrun].
  { apply (bool_decide_unpack _). by vm_compute. }
  exists fin. split; [done|].
  apply (proj2 (X6_store_invariants 0 (calls.OpSubscribe :: samples.calls101)) fin Hrun).
Defined.

(** X7. Once a handle is unsubscribed, no later call on the store puts a
    record into its queue: what its consumer takes afterwards, followed by
    what is left in the queue, is exactly the queue as it stood at the
    unsubscription. *)
Theorem X7_no_delivery_after_unsubscribe :
  ∀ (w w1 : World) (ch : positive) (ops : list calls.Op) (fin : calls.Run),
    storeOk w → Unsubscribe ch w = Ok w1 →
    calls.run ops (calls.begin w1) = Ok fin →
    ∃ c c', w_chans w !! ch = Some c ∧
      w_chans (calls.now fin) !! ch = Some c' ∧
      gochan.closed c' = true ∧
      calls.receivedBy ch fin ++ gochan.buf c' = gochan.buf c.
Proof.
  intros w w1 ch ops fin Hok Hun Hrun.
  destruct (Unsubscribe_inv _ _ _ Hun) as (c & Hl & Hc & Hch & _).
  destruct (run_closed_queue ch ops (calls.begin w1) fin
              (gochan.mkChan (gochan.buf c) (gochan.capacity c) true))
    as (c' & Hl' & Hc' & Hq); try done.
  - eapply Unsubscribe_ok; eassumption.
  - simpl. rewrite Hch. apply lookup_insert_eq.
  - exists c, c'. done.
Qed.

Lemma X7_no_delivery_after_unsubscribe_witness :
  let w := calls.now (samples.endOf
             (calls.run samples.calls101 (calls.begin (Subscribe (NewWorld 3)).2))
             (calls.begin (NewWorld 3))) in
  let w1 := calls.now (samples.endOf
              (calls.step (calls.OpUnsubscribe 1%positive) (calls.begin w))
              (calls.begin w)) in
  let ops := [calls.OpAdd (samples.record 400); calls.OpRecv 1%positive;
              calls.OpAdd (samples.record 401)] in
  let fin := samples.endOf (calls.run ops (calls.begin w1)) (calls.begin w1) in
  calls.receivedBy 1%positive fin = [samples.record 2] ∧
  ∃ c c', w_chans w !! 1%positive = Some c ∧
    w_chans (calls.now fin) !! 1%positive = Some c' ∧
    gochan.closed c' = true ∧
    calls.receivedBy 1%positive fin ++ gochan.buf c' = gochan.buf c.
Proof.
  intros w w1 ops fin. split; [by vm_compute|].
  apply (X7_no_delivery_after_unsubscribe w w1 1%positive ops fin).
  - eapply (run_ok samples.calls101 (calls.begin (Subscribe (NewWorld 3)).2)).
    + apply Subscribe_ok, NewWorld_ok.
    + by vm_compute.
  - by vm_compute.
  - by vm_compute.
Defined.

(** X8. The effect of [notifySubscribers] does not depend on the order in
    which the subscriber set is visited: every order that visits each
    subscriber once gives the same channels, or the same panic. *)
Theorem X8_notify_order_irrelevant :
  ∀ (w : World) (req : CapturedRequest) (order : list positive),
    order ≡ₚ elements (subscribers (w_store w)) →
    notifyIn order req (w_chans w) = notifySubscribers req w.
Proof.
  intros w req order Hperm. unfold notifySubscribers.
  set (order' := elements (subscribers (w_store w))) in *.
  assert (Hnd' : NoDup order') by apply NoDup_elements.
  assert (Hnd : NoDup order) by (by rewrite Hperm).
  destruct (decide (Exists (fun ch => gochan.closed <$> w_chans w !! ch = Some true)
                      order))
    as [Hex|Hall].
  - apply Exists_exists in Hex as (ch & Hin & Hex).
    destruct (w_chans w !! ch) as [c|] eqn:Hl; [|done].
    injection Hex as Hc.
    rewrite (notifyIn_closed order req _ ch c Hnd Hin Hl Hc).
    symmetry. apply (notifyIn_closed order' req _ ch c Hnd'); [|done..].
    by rewrite <- Hperm.
  - assert (Hopen : ∀ ch c, ch ∈ order → w_chans w !! ch = Some c →
                            gochan.closed c = false).
    { intros ch c Hin Hl. destruct (gochan.closed c) eqn:Hc; [|done].
      exfalso. apply Hall, Exists_exists. exists ch. split; [done|].
      by rewrite Hl, <- Hc. }
    destruct (notifyIn_spec order req (w_chans w) Hnd Hopen) as (m1 & -> & H1).
    destruct (notifyIn_spec order' req (w_chans w) Hnd') as (m2 & -> & H2).
    { intros ch c Hin. apply Hopen. by rewrite Hperm. }
    f_equal. apply map_eq. intros ch. rewrite H1, H2.
    destruct (decide (ch ∈ order)) as [Hin|Hnin].
    + rewrite decide_True; [done|]. by rewrite <- Hperm.
    + rewrite decide_False; [done|]. by rewrite <- Hperm.
Qed.

Lemma X8_notify_order_irrelevant_witness :
  let w := (Subscribe (Subscribe (Subscribe (NewWorld 3)).2).2).2 in
  elements (subscribers (w_store w)) = [3; 2; 1]%positive ∧
  notifyIn [2; 1; 3]%positive (samples.record 5) (w_chans w)
  = notifySubscribers (samples.record 5) w.
Proof.
  split; [by vm_compute|].
  apply X8_notify_order_irrelevant.
  apply (bool_decide_unpack _). by vm_compute.
Defined.

(** * Further properties of the forwarding engine *)

Section ForwardingMore.

Import proxy.

Context `{esc : url.Escaping} `{lib : http.Lib}.

Lemma cloneHeaders_same (h : gmap string (list string)) : cloneHeaders h = h.
Proof. unfold cloneHeaders. apply map_fmap_id. Qed.

Lemma storedRecords_roundTrips (sent : list http.OutRequest) :
  storedRecords (EvRoundTrip <$> sent) = [].
Proof. induction sent as [|q sent IH]; [done|]. exact IH. Qed.

Lemma writtenBodies_roundTrips (sent : list http.OutRequest) :
  writtenBodies (EvRoundTrip <$> sent) = [].
Proof. induction sent as [|q sent IH]; [done|]. exact IH. Qed.

Lemma closedConns_roundTrips (sent : list http.OutRequest) :
  closedConns (EvRoundTrip <$> sent) = [].
Proof. induction sent as [|q sent IH]; [done|]. exact IH. Qed.

(** What [handleHTTP] hands to the store and how it leaves it. *)
Lemma handleHTTP_stored (h : Handler) (env : Env) (r : http.Request) (w : World) :
  let s' := final (handleHTTP h env r (start w)) in
  (storedRecords (trace s') = [] ∧ world s' = w) ∨
  (∃ resp,
     (http.Do (e_hops env) (e_net env) (httpClient h) (outboundHTTP h r)).1
     = http.Answer resp ∧
     storedRecords (trace s') = [recordedHTTP h env r resp] ∧
     writtenBodies (trace s')
     = (if (http.r_StatusCode resp <? 100) || (999 <? http.r_StatusCode resp)
        then []
        else [http.readAllLimit (http.r_Body resp) (maxRequestSize h)]) ∧
     Add (recordedHTTP h env r resp) w = Ok (world s')).
Proof.
  rewrite handleHTTP_outcome.
  destruct (http.newRequestErr (http.Method r) (buildTargetURL r)); [by left|].
  cbv zeta.
  destruct (http.Do (e_hops env) (e_net env) (httpClient h) (outboundHTTP h r))
    as [result sent]. simpl.
  destruct result as [resp|err].
  - destruct (Add (recordedHTTP h env r resp) w) as [w'|msg] eqn:Hadd; simpl.
    + right. exists resp.
      destruct ((http.r_StatusCode resp <? 100) || (999 <? http.r_StatusCode resp));
        simpl; unfold storedRecords, writtenBodies;
        rewrite !omap_app; fold (storedRecords (EvRoundTrip <$> sent));
        fold (writtenBodies (EvRoundTrip <$> sent));
        by rewrite storedRecords_roundTrips, writtenBodies_roundTrips.
    + left. unfold storedRecords. rewrite omap_app.
      fold (storedRecords (EvRoundTrip <$> sent)).
      by rewrite storedRecords_roundTrips.
  - left. simpl. unfold storedRecords. rewrite omap_app.
    fold (storedRecords (EvRoundTrip <$> sent)).
    by rewrite storedRecords_roundTrips.
Qed.

End ForwardingMore.

(** X9. Headers that are not hop-by-hop pass in both directions with their
    values and the order of their values unchanged: from the inbound request
    to the request sent to the origin, and from the origin's answer to the
    headers relayed to the client (header keys in canonical form, as
    net/http's readers give them). *)
Theorem X9_other_headers_pass_unchanged :
  ∀ (esc : url.Escaping) (h : proxy.Handler) (r : http.Request)
    (resp : http.Response) (k : string),
    canonicalKeys (http.Header r) → canonicalKeys (http.r_Header resp) →
    k ∉ proxy.hopByHopHeaders →
    http.Values (http.o_Header (outboundHTTP h r)) k = http.Values (http.Header r) k ∧
    http.Values (relayedHeader resp) k = http.Values (http.r_Header resp) k.
Proof.
  intros esc h r resp k Hreq Hresp Hk. split.
  - apply (relayed_Values {| http.r_StatusCode := 0; http.r_Header := http.Header r;
                             http.r_Body := [] |} k Hreq Hk).
  - by apply relayed_Values.
Qed.

Lemma X9_other_headers_pass_unchanged_witness :
  http.Values (http.o_Header (@outboundHTTP samples.plainEscaping
                                (proxy.NewHandler 1024) samples.getRequest)) "X-Test"
  = ["v"] ∧
  http.Values (http.Header samples.getRequest) "X-Test" = ["v"] ∧
  http.Values (http.o_Header (@outboundHTTP samples.plainEscaping
                                (proxy.NewHandler 1024) samples.getRequest)) "X-Test"
  = http.Values (http.Header samples.getRequest) "X-Test" ∧
  http.Values (relayedHeader cases.helloResponse) "X-Test"
  = http.Values (http.r_Header cases.helloResponse) "X-Test".
Proof.
  split; [by vm_compute|]. split; [by vm_compute|].
  apply (X9_other_headers_pass_unchanged samples.plainEscaping).
  - apply canonicalKeys_check. apply (bool_decide_unpack _). by vm_compute.
  - apply canonicalKeys_check. apply (bool_decide_unpack _). by vm_compute.
  - apply (bool_decide_unpack _). by vm_compute.
Defined.

(** X10. Whatever the handler and the outside, a record that [handleHTTP]
    hands to the store describes the request as it came in: identifier and
    timestamp from the outside, method, target URL, host, path, protocol and
    client address of the request, the inbound headers with the hop-by-hop
    ones still in them, the elapsed time; it is never flagged as HTTPS or as
    a tunnel, whatever the scheme of the target; and its response part is
    the answer the client returned, with the origin's headers unfiltered
    and the body cut to the handler's maximum. *)
Theorem X10_forwarded_record_contents :
  ∀ (esc : url.Escaping) (lib : http.Lib) (h : proxy.Handler) (env : proxy.Env)
    (r : http.Request) (w : World),
    Forall (fun rec =>
      ID rec = proxy.e_uuid env ∧ Timestamp rec = proxy.e_timestamp env ∧
      Method rec = http.Method r ∧ URL rec = proxy.buildTargetURL r ∧
      Host rec = http.Host r ∧ Path rec = url.Path (http.URL r) ∧
      Proto rec = http.Proto r ∧ ClientAddr rec = http.RemoteAddr r ∧
      RequestHeaders rec = http.Header r ∧
      Duration rec = proxy.e_end env - proxy.e_now env ∧
      IsHTTPS rec = false ∧ IsTunnel rec = false ∧
      ∃ resp,
        (http.Do (proxy.e_hops env) (proxy.e_net env) (proxy.httpClient h)
           (outboundHTTP h r)).1 = http.Answer resp ∧
        StatusCode rec = http.r_StatusCode resp ∧
        ResponseHeaders rec = http.r_Header resp ∧
        ResponseBody rec
        = take (Z.to_nat (proxy.maxRequestSize h)) (http.r_Body resp))
      (storedRecords (proxy.trace (proxy.final
                        (proxy.handleHTTP h env r (proxy.start w))))).
Proof.
  intros esc lib h env r w.
  destruct (handleHTTP_stored h env r w) as [[-> _]|(resp & Hdo & -> & _)];
    [by constructor|].
  apply Forall_singleton.
  assert (Hreq : ∀ c, RequestHeaders c = RequestHeaders (proxy.capturedHTTP h env r) →
                      RequestHeaders c = http.Header r).
  { intros c ->. unfold proxy.capturedHTTP.
    destruct (http.Body r); [destruct (0 <? http.ContentLength r)|];
      apply cloneHeaders_same. }
  unfold recordedHTTP. simpl.
  repeat split;
    try (unfold proxy.capturedHTTP;
         destruct (http.Body r); [destruct (0 <? http.ContentLength r)|];
         reflexivity).
  - by apply Hreq.
  - exists resp. split; [done|]. split; [done|]. split; [|done].
    apply cloneHeaders_same.
Qed.

Lemma X10_forwarded_record_contents_witness :
  let tr := proxy.trace (proxy.final
              (@proxy.handleHTTP samples.plainEscaping samples.plainLib
                 (proxy.NewHandler 3)
                 (samples.env cases.answersHello true true None)
                 samples.getRequest (proxy.start (NewWorld 1000)))) in
  (URL <$> storedRecords tr) = ["http://example.test/a?b=1"] ∧
  (Method <$> storedRecords tr) = ["GET"] ∧
  ((fun rec => RequestHeaders rec !! "X-Test") <$> storedRecords tr) = [Some ["v"]] ∧
  ((fun rec => RequestHeaders rec !! "Connection") <$> storedRecords tr)
  = [Some ["keep-alive"]] ∧
  (ResponseBody <$> storedRecords tr) = [take 3 samples.hello] ∧
  Forall (fun rec => RequestHeaders rec = http.Header samples.getRequest ∧
                     IsHTTPS rec = false)
         (storedRecords tr).
Proof.
  intros tr.
  split; [by vm_compute|]. split; [by vm_compute|]. split; [by vm_compute|].
  split; [by vm_compute|]. split; [by vm_compute|].
  eapply Forall_impl;
    [apply (X10_forwarded_record_contents samples.plainEscaping samples.plainLib)|].
  intros rec H. simpl in H. tauto.
Defined.

(** X11. When the client returns an answer of the origin, the response body
    in the stored record is the origin's body cut to the handler's maximum:
    a body within the maximum whole, of a longer one exactly the maximum
    number of bytes. When the status code is one [WriteHeader] accepts (100
    to 999), the handler returns and the bytes it hands to [w.Write] are
    those same bytes, with nothing that tells the client of the cut. On a
    status code below 100 or above 999 [WriteHeader] panics: the record is
    stored all the same and nothing is handed to [w.Write]. *)
Theorem X11_response_body_cut :
  ∀ (esc : url.Escaping) (lib : http.Lib) (h : proxy.Handler) (env : proxy.Env)
    (r : http.Request) (w : World) (resp : http.Response),
    storeOk w →
    http.newRequestErr (http.Method r) (proxy.buildTargetURL r) = false →
    (http.Do (proxy.e_hops env) (proxy.e_net env) (proxy.httpClient h)
       (outboundHTTP h r)).1 = http.Answer resp →
    let run := proxy.handleHTTP h env r (proxy.start w) in
    let tr := proxy.trace (proxy.final run) in
    let cut := take (Z.to_nat (proxy.maxRequestSize h)) (http.r_Body resp) in
    let code := http.r_StatusCode resp in
    (ResponseBody <$> storedRecords tr) = [cut] ∧
    (100 ≤ code ≤ 999 → writtenBodies tr = [cut] ∧ ∃ s', run = proxy.Done tt s') ∧
    (code < 100 ∨ 999 < code →
       writtenBodies tr = [] ∧
       ∃ s', run = proxy.Panicked ("invalid WriteHeader code " +:+ pretty code) s') ∧
    (Z.of_nat (length (http.r_Body resp)) ≤ proxy.maxRequestSize h →
       cut = http.r_Body resp) ∧
    (0 ≤ proxy.maxRequestSize h < Z.of_nat (length (http.r_Body resp)) →
       Z.of_nat (length cut) = proxy.maxRequestSize h).
Proof.
  intros esc lib h env r w resp Hok Hnew Hdo run tr cut code.
  destruct (Add_spec (recordedHTTP h env r resp) w Hok) as (w' & Hadd & _).
  assert (Hrun : run
    = if (code <? 100) || (999 <? code)
      then proxy.Panicked ("invalid WriteHeader code " +:+ pretty code)
             {| proxy.world := w';
                proxy.trace :=
                  (proxy.EvRoundTrip <$>
                     (http.Do (proxy.e_hops env) (proxy.e_net env)
                        (proxy.httpClient h) (outboundHTTP h r)).2) ++
                  [proxy.EvStoreAdd (recordedHTTP h env r resp);
                   proxy.EvCloseBody] |}
      else proxy.Done tt
             {| proxy.world := w';
                proxy.trace :=
                  (proxy.EvRoundTrip <$>
                     (http.Do (proxy.e_hops env) (proxy.e_net env)
                        (proxy.httpClient h) (outboundHTTP h r)).2) ++
                  [proxy.EvStoreAdd (recordedHTTP h env r resp);
                   proxy.EvWriteHeader (relayedHeader resp) code;
                   proxy.EvWrite cut; proxy.EvCloseBody] |}).
  { unfold run. rewrite handleHTTP_outcome, Hnew. cbv zeta.
    by rewrite Hdo, Hadd. }
  assert (Hst : (ResponseBody <$> storedRecords tr) = [cut] ∧
                writtenBodies tr
                = if (code <? 100) || (999 <? code) then [] else [cut]).
  { unfold tr. rewrite Hrun.
    destruct ((code <? 100) || (999 <? code)); simpl;
      unfold storedRecords, writtenBodies; rewrite !omap_app;
      fold (storedRecords (proxy.EvRoundTrip <$>
              (http.Do (proxy.e_hops env) (proxy.e_net env) (proxy.httpClient h)
                 (outboundHTTP h r)).2));
      fold (writtenBodies (proxy.EvRoundTrip <$>
              (http.Do (proxy.e_hops env) (proxy.e_net env) (proxy.httpClient h)
                 (outboundHTTP h r)).2));
      by rewrite storedRecords_roundTrips, writtenBodies_roundTrips. }
  destruct Hst as [Hs Hw]. split_and!.
  - done.
  - intros Hcode. rewrite Hw, Hrun.
    replace ((code <? 100) || (999 <? code)) with false; [by eauto|].
    symmetry. apply orb_false_iff. split; [apply Z.ltb_ge|apply Z.ltb_ge]; lia.
  - intros Hcode. rewrite Hw, Hrun.
    replace ((code <? 100) || (999 <? code)) with true; [by eauto|].
    symmetry. apply orb_true_iff.
    destruct Hcode; [left|right]; apply Z.ltb_lt; lia.
  - intros Hle. unfold cut. apply take_ge. lia.
  - intros Hlt. unfold cut. rewrite length_take. lia.
Qed.

Lemma X11_response_body_cut_witness :
  let run := fun net =>
    @proxy.handleHTTP samples.plainEscaping samples.plainLib
      (proxy.NewHandler 3) (samples.env net true true None)
      samples.getRequest (proxy.start (NewWorld 1000)) in
  let tr := fun net => proxy.trace (proxy.final (run net)) in
  let cut := [Byte.x68; Byte.x65; Byte.x6c] in
  (ResponseBody <$> storedRecords (tr cases.answersHello)) = [cut] ∧
  writtenBodies (tr cases.answersHello) = [cut] ∧
  (∃ s', run cases.answersHello = proxy.Done tt s') ∧
  (ResponseBody <$> storedRecords (tr cases.answersOdd)) = [cut] ∧
  writtenBodies (tr cases.answersOdd) = [] ∧
  (∃ s', run cases.answersOdd
         = proxy.Panicked "invalid WriteHeader code 99" s').
Proof.
  intros run tr cut.
  destruct (X11_response_body_cut samples.plainEscaping samples.plainLib
              (proxy.NewHandler 3) (samples.env cases.answersHello true true None)
              samples.getRequest (NewWorld 1000) cases.helloResponse)
    as (Hs & Hin & _); [apply NewWorld_ok|reflexivity|reflexivity|].
  destruct (X11_response_body_cut samples.plainEscaping samples.plainLib
              (proxy.NewHandler 3) (samples.env cases.answersOdd true true None)
              samples.getRequest (NewWorld 1000) cases.oddStatusResponse)
    as (Hs' & _ & Hout & _); [apply NewWorld_ok|reflexivity|reflexivity|].
  destruct Hin as [Hw Hdone]; [simpl; lia|].
  destruct Hout as [Hw' Hpanic]; [left; simpl; lia|].
  split_and!; [exact Hs|exact Hw|exact Hdone|exact Hs'|exact Hw'|exact Hpanic].
Defined.

(** X12. When the outbound request cannot be built (net/http rejects the
    method or the target URL), [handleHTTP] answers "Bad Request", 400, and
    does nothing else: no request leaves towards the origin and no record
    reaches the store. *)
Theorem X12_bad_request_no_dispatch :
  ∀ (esc : url.Escaping) (lib : http.Lib) (h : proxy.Handler) (env : proxy.Env)
    (r : http.Request) (w : World),
    http.newRequestErr (http.Method r) (proxy.buildTargetURL r) = true →
    proxy.handleHTTP h env r (proxy.start w)
    = proxy.Done tt {| proxy.world := w;
                       proxy.trace := [proxy.EvHttpError "Bad Request" 400] |}.
Proof. intros esc lib h env r w Herr. by apply handleHTTP_rejected. Qed.

Lemma X12_bad_request_no_dispatch_witness :
  @proxy.handleHTTP samples.plainEscaping cases.strictLib (proxy.NewHandler 1024)
    (samples.env cases.answersHello true true None) cases.badMethodRequest
    (proxy.start (NewWorld 1000))
  = proxy.Done tt {| proxy.world := NewWorld 1000;
                     proxy.trace := [proxy.EvHttpError "Bad Request" 400] |}.
Proof.
  apply (X12_bad_request_no_dispatch samples.plainEscaping cases.strictLib).
  reflexivity.
Defined.

(** X28. Under a handler from [NewHandler], when the origin answers the
    forwarded request with a redirect status (301, 302, 303, 307 or 308)
    whose Location is missing, empty or a value the client can parse, the
    handler sends no second request: it stores the record and relays the
    answer with the very status code of the origin and the values of its
    Location header as they came. *)
Theorem X28_redirect_relayed_not_followed :
  ∀ (esc : url.Escaping) (lib : http.Lib) (n : Z) (env : proxy.Env)
    (r : http.Request) (w : World) (resp : http.Response),
    storeOk w →
    http.newRequestErr (http.Method r) (proxy.buildTargetURL r) = false →
    proxy.e_net env (outboundHTTP (proxy.NewHandler n) r) = http.Answer resp →
    http.isRedirectStatus (http.r_StatusCode resp) = true →
    (http.Get (http.r_Header resp) "Location" = "" ∨
     ∃ target,
       http.resolveLocation (http.o_URL (outboundHTTP (proxy.NewHandler n) r))
         (http.Get (http.r_Header resp) "Location") = Some target) →
    canonicalKeys (http.r_Header resp) →
    ∃ w',
      proxy.handleHTTP (proxy.NewHandler n) env r (proxy.start w)
      = proxy.Done tt
          {| proxy.world := w';
             proxy.trace :=
               [proxy.EvRoundTrip (outboundHTTP (proxy.NewHandler n) r);
                proxy.EvStoreAdd (recordedHTTP (proxy.NewHandler n) env r resp);
                proxy.EvWriteHeader (relayedHeader resp) (http.r_StatusCode resp);
                proxy.EvWrite (http.readAllLimit (http.r_Body resp) n);
                proxy.EvCloseBody] |} ∧
      http.Values (relayedHeader resp) "Location"
      = http.Values (http.r_Header resp) "Location" ∧
      StatusCode (recordedHTTP (proxy.NewHandler n) env r resp)
      = http.r_StatusCode resp.
Proof.
  intros esc lib n env r w resp Hok Hnew Hnet Hred Hloc Hcanon.
  destruct (Add_spec (recordedHTTP (proxy.NewHandler n) env r resp) w Hok)
    as (w' & Hadd & _).
  exists w'. split; [|split; [|done]].
  - apply handleHTTP_answered; try done.
    + by intros _.
    + by apply redirect_status_written.
  - apply relayed_Values; [done|].
    unfold proxy.hopByHopHeaders. intros Hin.
    repeat (apply elem_of_cons in Hin as [Hin|Hin]; [discriminate Hin|]).
    by apply elem_of_nil in Hin.
Qed.

Lemma X28_redirect_relayed_not_followed_witness :
  let h := proxy.NewHandler 1024 in
  let env := samples.env samples.moved true true None in
  let r := samples.getRequest in
  ∃ w',
    @proxy.handleHTTP samples.plainEscaping samples.plainLib h env r
      (proxy.start (NewWorld 1000))
    = proxy.Done tt
        {| proxy.world := w';
           proxy.trace :=
             [proxy.EvRoundTrip (@outboundHTTP samples.plainEscaping h r);
              proxy.EvStoreAdd
                (@recordedHTTP samples.plainEscaping h env r samples.movedResponse);
              proxy.EvWriteHeader (relayedHeader samples.movedResponse) 302;
              proxy.EvWrite [];
              proxy.EvCloseBody] |} ∧
    http.Values (relayedHeader samples.movedResponse) "Location"
    = ["http://example.test/b"] ∧
    StatusCode (@recordedHTTP samples.plainEscaping h env r samples.movedResponse)
    = 302.
Proof.
  apply (X28_redirect_relayed_not_followed samples.plainEscaping samples.plainLib
           1024 (samples.env samples.moved true true None) samples.getRequest
           (NewWorld 1000) samples.movedResponse).
  - apply NewWorld_ok.
  - reflexivity.
  - reflexivity.
  - reflexivity.
  - right. by eexists.
  - apply canonicalKeys_check. apply (bool_decide_unpack _). by vm_compute.
Defined.



(** * Further properties of the tunnel engine *)

Section TunnelMore.

Import proxy.

Context `{lib : http.Lib}.

(** Every way [handleConnect] can go on a store that does not panic. *)
Lemma handleConnect_outcome (h : Handler) (env : Env) (r : http.Request) (w : World) :
  storeOk w →
  ∃ code w',
    Add (recordedConnect env r code) w = Ok w' ∧
    let stored := EvStoreAdd (recordedConnect env r code) in
    if negb (e_dial env (dialAddr r)) then
      code = 502 ∧
      handleConnect h env r (start w)
      = Done tt {| world := w';
                   trace := [EvDial (dialAddr r);
                             EvHttpError "Bad Gateway" 502; stored] |}
    else if negb (e_hijacker env) then
      code = 500 ∧
      handleConnect h env r (start w)
      = Done tt {| world := w';
                   trace := [EvDial (dialAddr r);
                             EvHttpError "Internal Server Error" 500; stored;
                             EvClose TargetConn] |}
    else if negb (e_hijack env) then
      code = 500 ∧
      handleConnect h env r (start w)
      = Done tt {| world := w';
                   trace := [EvDial (dialAddr r); EvHijack;
                             EvHttpError "Internal Server Error" 500; stored;
                             EvClose TargetConn] |}
    else if negb (e_ack env) then
      code = 500 ∧
      handleConnect h env r (start w)
      = Done tt {| world := w';
                   trace := [EvDial (dialAddr r); EvHijack;
                             EvConnWrite ackLine false; stored;
                             EvClose ClientConn; EvClose TargetConn] |}
    else
      code = 200 ∧
      match e_relay env with
      | Some (from, err) =>
          handleConnect h env r (start w)
          = Done tt {| world := w';
                       trace := [EvDial (dialAddr r); EvHijack;
                                 EvConnWrite ackLine true; EvCopyDone from err;
                                 stored; EvClose ClientConn; EvClose TargetConn] |}
      | None =>
          handleConnect h env r (start w)
          = Blocked {| world := w;
                       trace := [EvDial (dialAddr r); EvHijack;
                                 EvConnWrite ackLine true] |}
      end.
Proof.
  intros Hok.
  set (code := if negb (e_dial env (dialAddr r)) then 502
               else if negb (e_hijacker env) then 500
               else if negb (e_hijack env) then 500
               else if negb (e_ack env) then 500 else 200).
  destruct (Add_spec (recordedConnect env r code) w Hok) as (w' & Hadd & _).
  exists code, w'. split; [done|]. cbv zeta.
  unfold handleConnect. unfold code in *. clear code.
  destruct (e_dial env (dialAddr r)); simpl in *.
  2: { split; [done|]. fold (recordedConnect env r http.StatusBadGateway).
       unfold deferring, bind, emit, storeAdd. simpl.
       change http.StatusBadGateway with 502. by rewrite Hadd. }
  destruct (e_hijacker env); simpl in *.
  2: { split; [done|]. fold (recordedConnect env r http.StatusInternalServerError).
       unfold deferring, bind, emit, storeAdd. simpl.
       change http.StatusInternalServerError with 500. by rewrite Hadd. }
  destruct (e_hijack env); simpl in *.
  2: { split; [done|]. fold (recordedConnect env r http.StatusInternalServerError).
       unfold deferring, bind, emit, storeAdd. simpl.
       change http.StatusInternalServerError with 500. by rewrite Hadd. }
  destruct (e_ack env); simpl in *.
  2: { split; [done|]. fold (recordedConnect env r http.StatusInternalServerError).
       unfold deferring, bind, emit, storeAdd. simpl.
       change http.StatusInternalServerError with 500. by rewrite Hadd. }
  split; [done|]. destruct (e_relay env) as [[from err]|]; [|done].
  fold (recordedConnect env r http.StatusOK).
  unfold deferring, bind, emit, storeAdd. simpl.
  change http.StatusOK with 200. by rewrite Hadd.
Qed.

(** The records [handleConnect] hands to the store, for any store. *)
Lemma handleConnect_stored (h : Handler) (env : Env) (r : http.Request) (w : World) :
  ∃ code,
    (code = 200 ∨ code = 500 ∨ code = 502) ∧
    let s' := final (handleConnect h env r (start w)) in
    (storedRecords (trace s') = [] ∧ world s' = w) ∨
    (storedRecords (trace s') = [recordedConnect env r code] ∧
     Add (recordedConnect env r code) w = Ok (world s')).
Proof.
  unfold handleConnect.
  destruct (e_dial env (dialAddr r)); simpl.
  2: { exists 502. split; [auto|].
       fold (recordedConnect env r http.StatusBadGateway).
       unfold deferring, bind, emit, storeAdd. simpl.
       destruct (Add _ w) eqn:Hadd; simpl; [right|left]; done. }
  destruct (e_hijacker env); simpl.
  2: { exists 500. split; [auto|].
       fold (recordedConnect env r http.StatusInternalServerError).
       unfold deferring, bind, emit, storeAdd. simpl.
       destruct (Add _ w) eqn:Hadd; simpl; [right|left]; done. }
  destruct (e_hijack env); simpl.
  2: { exists 500. split; [auto|].
       fold (recordedConnect env r http.StatusInternalServerError).
       unfold deferring, bind, emit, storeAdd. simpl.
       destruct (Add _ w) eqn:Hadd; simpl; [right|left]; done. }
  destruct (e_ack env); simpl.
  2: { exists 500. split; [auto|].
       fold (recordedConnect env r http.StatusInternalServerError).
       unfold deferring, bind, emit, storeAdd. simpl.
       destruct (Add _ w) eqn:Hadd; simpl; [right|left]; done. }
  exists 200. split; [auto|].
  destruct (e_relay env) as [[from err]|]; [|by left].
  fold (recordedConnect env r http.StatusOK).
  unfold deferring, bind, emit, storeAdd. simpl.
  destruct (Add _ w) eqn:Hadd; simpl; [right|left]; done.
Qed.

End TunnelMore.

(** X13. One call of [ServeHTTP], whatever the method, the handler and the
    outside, hands at most one record to the store, and the store it leaves
    is either the one it found or that store after the one [Add]. *)
Theorem X13_at_most_one_record_per_call :
  ∀ (esc : url.Escaping) (lib : http.Lib) (h : proxy.Handler) (env : proxy.Env)
    (r : http.Request) (w : World),
    let s' := proxy.final (proxy.ServeHTTP h env r (proxy.start w)) in
    (storedRecords (proxy.trace s') = [] ∧ proxy.world s' = w) ∨
    (∃ rec, storedRecords (proxy.trace s') = [rec] ∧
            Add rec w = Ok (proxy.world s')).
Proof.
  intros esc lib h env r w. unfold proxy.ServeHTTP.
  destruct (String.eqb (http.Method r) http.MethodConnect).
  - destruct (handleConnect_stored h env r w) as (code & _ & [Hno|[Hst Hadd]]).
    + by left.
    + right. by eexists.
  - destruct (handleHTTP_stored h env r w) as [Hno|(resp & _ & Hst & _ & Hadd)].
    + by left.
    + right. by eexists.
Qed.

(** X14. On a store in a state its methods produce, a call of [ServeHTTP]
    never panics inside the store and, however it ends, leaves the store in
    such a state. It returns, with two exceptions: a CONNECT whose tunnel is
    established and whose copies never end waits for ever; and a forwarded
    request whose answer carries a status code below 100 or above 999
    panics in [WriteHeader], after the record of that answer has been stored
    and before anything is written to the client. *)
Theorem X14_ServeHTTP_keeps_store :
  ∀ (esc : url.Escaping) (lib : http.Lib) (h : proxy.Handler) (env : proxy.Env)
    (r : http.Request) (w : World),
    storeOk w →
    let run := proxy.ServeHTTP h env r (proxy.start w) in
    storeOk (proxy.world (proxy.final run)) ∧
    match run with
    | proxy.Done _ _ => True
    | proxy.Panicked msg s' =>
        http.Method r ≠ "CONNECT" ∧
        writeHeaderPanic h env r msg (proxy.trace s')
    | proxy.Blocked s' =>
        proxy.world s' = w ∧ http.Method r = "CONNECT" ∧
        proxy.e_relay env = None ∧ proxy.e_ack env = true
    end.
Proof.
  intros esc lib h env r w Hok run. unfold run, proxy.ServeHTTP.
  destruct (String.eqb_spec (http.Method r) http.MethodConnect) as [Hm|Hm].
  - destruct (handleConnect_outcome h env r w Hok) as (code & w' & Hadd & Hcase).
    pose proof (Add_ok _ _ _ Hok Hadd) as Hok'. cbv zeta in Hcase.
    destruct (proxy.e_dial env (proxy.dialAddr r)); simpl in Hcase;
      [|destruct Hcase as [_ ->]; done].
    destruct (proxy.e_hijacker env); simpl in Hcase;
      [|destruct Hcase as [_ ->]; done].
    destruct (proxy.e_hijack env); simpl in Hcase;
      [|destruct Hcase as [_ ->]; done].
    destruct (proxy.e_ack env); simpl in Hcase;
      [|destruct Hcase as [_ ->]; done].
    destruct Hcase as [_ Hcase].
    destruct (proxy.e_relay env) as [[from err]|]; rewrite Hcase; done.
  - pose proof (handleHTTP_stored h env r w) as Hst. cbv zeta in Hst.
    revert Hst. rewrite handleHTTP_outcome.
    destruct (http.newRequestErr (http.Method r) (proxy.buildTargetURL r)); [done|].
    cbv zeta.
    destruct (http.Do (proxy.e_hops env) (proxy.e_net env) (proxy.httpClient h)
                (outboundHTTP h r)).1 as [resp|err] eqn:Hdo; [|done].
    destruct (Add_spec (recordedHTTP h env r resp) w Hok) as (w' & Hadd & _).
    rewrite Hadd. pose proof (Add_ok _ _ _ Hok Hadd) as Hok'.
    destruct ((http.r_StatusCode resp <? 100) || (999 <? http.r_StatusCode resp))
      eqn:Hcode; [|done].
    intros [[Hno _]|(resp' & [= <-] & Hst & Hwr & _)]; simpl in *.
    + exfalso. revert Hno. unfold storedRecords. rewrite omap_app.
      fold (storedRecords (proxy.EvRoundTrip <$>
              (http.Do (proxy.e_hops env) (proxy.e_net env) (proxy.httpClient h)
                 (outboundHTTP h r)).2)).
      by rewrite storedRecords_roundTrips.
    + split; [done|]. split; [done|]. exists resp. rewrite Hcode in Hwr.
      split_and!; try done.
      apply orb_true_iff in Hcode as [Hlt%Z.ltb_lt|Hgt%Z.ltb_lt]; [by left|by right].
Qed.

Lemma X14_ServeHTTP_keeps_store_witness :
  let serve := fun env r =>
    @proxy.ServeHTTP samples.plainEscaping samples.plainLib
      (proxy.NewHandler 1024) env r (proxy.start (NewWorld 1000)) in
  let waits := serve (cases.tunnelEnv true true true true None)
                 samples.connectRequest in
  let answers := serve (samples.env cases.answersHello true true None)
                   samples.getRequest in
  let odd := serve (samples.env cases.answersOdd true true None)
               samples.getRequest in
  match waits with proxy.Blocked _ => True | _ => False end ∧
  match answers with proxy.Done _ _ => True | _ => False end ∧
  match odd with
  | proxy.Panicked msg _ => msg = "invalid WriteHeader code 99"
  | _ => False
  end ∧
  storeOk (proxy.world (proxy.final waits)) ∧
  storeOk (proxy.world (proxy.final answers)) ∧
  storeOk (proxy.world (proxy.final odd)) ∧
  match odd with
  | proxy.Done _ _ => True
  | proxy.Panicked msg s' =>
      http.Method samples.getRequest ≠ "CONNECT" ∧
      @writeHeaderPanic samples.plainEscaping samples.plainLib
        (proxy.NewHandler 1024) (samples.env cases.answersOdd true true None)
        samples.getRequest msg (proxy.trace s')
  | proxy.Blocked s' =>
      proxy.world s' = NewWorld 1000 ∧
      http.Method samples.getRequest = "CONNECT" ∧
      proxy.e_relay (samples.env cases.answersOdd true true None) = None ∧
      proxy.e_ack (samples.env cases.answersOdd true true None) = true
  end.
Proof.
  intros serve waits answers odd.
  split; [by vm_compute|]. split; [by vm_compute|]. split; [by vm_compute|].
  split; [|split].
  - apply (X14_ServeHTTP_keeps_store samples.plainEscaping samples.plainLib
             (proxy.NewHandler 1024) (cases.tunnelEnv true true true true None)
             samples.connectRequest (NewWorld 1000)).
    apply NewWorld_ok.
  - apply (X14_ServeHTTP_keeps_store samples.plainEscaping samples.plainLib
             (proxy.NewHandler 1024)
             (samples.env cases.answersHello true true None)
             samples.getRequest (NewWorld 1000)).
    apply NewWorld_ok.
  - apply (X14_ServeHTTP_keeps_store samples.plainEscaping samples.plainLib
             (proxy.NewHandler 1024)
             (samples.env cases.answersOdd true true None)
             samples.getRequest (NewWorld 1000)).
    apply NewWorld_ok.
Defined.

(** X15. When the dial succeeds but the client connection cannot be taken
    over (the writer is no hijacker, or [Hijack] fails), the client is
    answered "Internal Server Error", 500, one record with status 500 is
    stored, the connection to the target is closed, and no acknowledgment is
    written. *)
Theorem X15_takeover_failure :
  ∀ (lib : http.Lib) (h : proxy.Handler) (env : proxy.Env) (r : http.Request)
    (w : World),
    storeOk w →
    proxy.e_dial env (proxy.dialAddr r) = true →
    proxy.e_hijacker env = false ∨ proxy.e_hijack env = false →
    ∃ w',
      Add (recordedConnect env r 500) w = Ok w' ∧
      proxy.handleConnect h env r (proxy.start w)
      = proxy.Done tt
          {| proxy.world := w';
             proxy.trace :=
               [proxy.EvDial (proxy.dialAddr r)] ++
               (if proxy.e_hijacker env then [proxy.EvHijack] else []) ++
               [proxy.EvHttpError "Internal Server Error" 500;
                proxy.EvStoreAdd (recordedConnect env r 500);
                proxy.EvClose proxy.TargetConn] |} ∧
      StatusCode (recordedConnect env r 500) = 500.
Proof.
  intros lib h env r w Hok Hdial Hfail.
  destruct (handleConnect_outcome h env r w Hok) as (code & w' & Hadd & Hcase).
  cbv zeta in Hcase. rewrite Hdial in Hcase. simpl in Hcase.
  destruct (proxy.e_hijacker env); simpl in Hcase.
  - destruct Hfail as [?|Hhj]; [done|]. rewrite Hhj in Hcase. simpl in Hcase.
    destruct Hcase as [-> Hrun]. exists w'. done.
  - destruct Hcase as [-> Hrun]. exists w'. done.
Qed.

Lemma X15_takeover_failure_witness :
  let env := cases.tunnelEnv true true false true None in
  ∃ w',
    Add (recordedConnect env samples.connectRequest 500) (NewWorld 1000) = Ok w' ∧
    @proxy.handleConnect samples.plainLib (proxy.NewHandler 1024) env
      samples.connectRequest (proxy.start (NewWorld 1000))
    = proxy.Done tt
        {| proxy.world := w';
           proxy.trace :=
             [proxy.EvDial "example.test:443"; proxy.EvHijack;
              proxy.EvHttpError "Internal Server Error" 500;
              proxy.EvStoreAdd (recordedConnect env samples.connectRequest 500);
              proxy.EvClose proxy.TargetConn] |} ∧
    StatusCode (recordedConnect env samples.connectRequest 500) = 500.
Proof.
  apply (X15_takeover_failure samples.plainLib (proxy.NewHandler 1024)
           (cases.tunnelEnv true true false true None) samples.connectRequest
           (NewWorld 1000)).
  - apply NewWorld_ok.
  - reflexivity.
  - right. reflexivity.
Defined.

(** X16. When the write of the "200 Connection Established" line fails, the
    handler stores one record with status 500, closes the client connection
    and then the target connection, and sends the client nothing more: no
    error page is written on the connection it has taken over. *)
Theorem X16_acknowledgment_failure :
  ∀ (lib : http.Lib) (h : proxy.Handler) (env : proxy.Env) (r : http.Request)
    (w : World),
    storeOk w →
    proxy.e_dial env (proxy.dialAddr r) = true →
    proxy.e_hijacker env = true → proxy.e_hijack env = true →
    proxy.e_ack env = false →
    ∃ w',
      Add (recordedConnect env r 500) w = Ok w' ∧
      proxy.handleConnect h env r (proxy.start w)
      = proxy.Done tt
          {| proxy.world := w';
             proxy.trace :=
               [proxy.EvDial (proxy.dialAddr r); proxy.EvHijack;
                proxy.EvConnWrite proxy.ackLine false;
                proxy.EvStoreAdd (recordedConnect env r 500);
                proxy.EvClose proxy.ClientConn;
                proxy.EvClose proxy.TargetConn] |}.
Proof.
  intros lib h env r w Hok Hdial Hhj Hhijack Hack.
  destruct (handleConnect_outcome h env r w Hok) as (code & w' & Hadd & Hcase).
  cbv zeta in Hcase. rewrite Hdial, Hhj, Hhijack, Hack in Hcase. simpl in Hcase.
  destruct Hcase as [-> Hrun]. exists w'. done.
Qed.

Lemma X16_acknowledgment_failure_witness :
  let env := cases.tunnelEnv true true true false None in
  ∃ w',
    Add (recordedConnect env samples.connectRequest 500) (NewWorld 1000) = Ok w' ∧
    @proxy.handleConnect samples.plainLib (proxy.NewHandler 1024) env
      samples.connectRequest (proxy.start (NewWorld 1000))
    = proxy.Done tt
        {| proxy.world := w';
           proxy.trace :=
             [proxy.EvDial "example.test:443"; proxy.EvHijack;
              proxy.EvConnWrite proxy.ackLine false;
              proxy.EvStoreAdd (recordedConnect env samples.connectRequest 500);
              proxy.EvClose proxy.ClientConn;
              proxy.EvClose proxy.TargetConn] |}.
Proof.
  apply (X16_acknowledgment_failure samples.plainLib (proxy.NewHandler 1024)
           (cases.tunnelEnv true true true false None) samples.connectRequest
           (NewWorld 1000)).
  - apply NewWorld_ok.
  - reflexivity.
  - reflexivity.
  - reflexivity.
  - reflexivity.
Defined.

(** X17. Whatever path [handleConnect] takes, a record it hands to the
    store is a tunnel record: method CONNECT, URL "https://" followed by
    the request's host, no path, flagged HTTPS and tunnel, the inbound
    headers, the elapsed time, a status among 200, 500 and 502, and never
    any request body, response body or response header. *)
Theorem X17_tunnel_record_contents :
  ∀ (lib : http.Lib) (h : proxy.Handler) (env : proxy.Env) (r : http.Request)
    (w : World),
    Forall (fun rec =>
      ID rec = proxy.e_uuid env ∧ Timestamp rec = proxy.e_timestamp env ∧
      Method rec = "CONNECT" ∧ URL rec = "https://" +:+ http.Host r ∧
      Host rec = http.Host r ∧ Path rec = "" ∧
      Proto rec = http.Proto r ∧ ClientAddr rec = http.RemoteAddr r ∧
      RequestHeaders rec = http.Header r ∧
      IsHTTPS rec = true ∧ IsTunnel rec = true ∧
      RequestBody rec = [] ∧ ResponseBody rec = [] ∧ ResponseHeaders rec = ∅ ∧
      Duration rec = proxy.e_end env - proxy.e_now env ∧
      (StatusCode rec = 200 ∨ StatusCode rec = 500 ∨ StatusCode rec = 502))
      (storedRecords (proxy.trace (proxy.final
                        (proxy.handleConnect h env r (proxy.start w))))).
Proof.
  intros lib h env r w.
  destruct (handleConnect_stored h env r w) as (code & Hcode & [[-> _]|[-> _]]);
    [by constructor|].
  apply Forall_singleton. simpl.
  repeat split; try done. apply cloneHeaders_same.
Qed.

(** X18. When [handleConnect] returns on a well-formed store, it has closed
    exactly the connections it had opened: none when the dial failed, the
    target connection when the dial succeeded, and before it the client
    connection when the takeover succeeded; each once. *)
Theorem X18_connections_closed :
  ∀ (lib : http.Lib) (h : proxy.Handler) (env : proxy.Env) (r : http.Request)
    (w : World) (s' : proxy.HState),
    storeOk w →
    proxy.handleConnect h env r (proxy.start w) = proxy.Done tt s' →
    closedConns (proxy.trace s')
    = if proxy.e_dial env (proxy.dialAddr r)
      then (if proxy.e_hijacker env && proxy.e_hijack env
            then [proxy.ClientConn] else []) ++ [proxy.TargetConn]
      else [].
Proof.
  intros lib h env r w s' Hok Hrun.
  destruct (handleConnect_outcome h env r w Hok) as (code & w' & Hadd & Hcase).
  cbv zeta in Hcase.
  destruct (proxy.e_dial env (proxy.dialAddr r)); simpl in Hcase;
    [|destruct Hcase as [_ Hcase]; rewrite Hcase in Hrun; by injection Hrun as <-].
  destruct (proxy.e_hijacker env); simpl in Hcase;
    [|destruct Hcase as [_ Hcase]; rewrite Hcase in Hrun; by injection Hrun as <-].
  destruct (proxy.e_hijack env); simpl in Hcase;
    [|destruct Hcase as [_ Hcase]; rewrite Hcase in Hrun; by injection Hrun as <-].
  destruct (proxy.e_ack env); simpl in Hcase;
    [|destruct Hcase as [_ Hcase]; rewrite Hcase in Hrun; by injection Hrun as <-].
  destruct Hcase as [_ Hcase].
  destruct (proxy.e_relay env) as [[from err]|]; rewrite Hcase in Hrun;
    [by injection Hrun as <-|done].
Qed.

Lemma X18_connections_closed_witness :
  let run := fun env =>
    proxy.final (@proxy.handleConnect samples.plainLib (proxy.NewHandler 1024) env
                   samples.connectRequest (proxy.start (NewWorld 1000))) in
  closedConns (proxy.trace (run (cases.tunnelEnv true true true true
                                   (Some (proxy.ClientConn, None)))))
  = [proxy.ClientConn; proxy.TargetConn] ∧
  closedConns (proxy.trace (run (cases.tunnelEnv true false true true None)))
  = [proxy.TargetConn] ∧
  closedConns (proxy.trace (run (cases.tunnelEnv false true true true None)))
  = [].
Proof.
  intros run. split; [|split].
  - apply (X18_connections_closed samples.plainLib (proxy.NewHandler 1024)
             (cases.tunnelEnv true true true true (Some (proxy.ClientConn, None)))
             samples.connectRequest (NewWorld 1000)).
    + apply NewWorld_ok.
    + reflexivity.
  - apply (X18_connections_closed samples.plainLib (proxy.NewHandler 1024)
             (cases.tunnelEnv true false true true None)
             samples.connectRequest (NewWorld 1000)).
    + apply NewWorld_ok.
    + reflexivity.
  - apply (X18_connections_closed samples.plainLib (proxy.NewHandler 1024)
             (cases.tunnelEnv false true true true None)
             samples.connectRequest (NewWorld 1000)).
    + apply NewWorld_ok.
    + reflexivity.
Defined.

(** * Properties of the query endpoints *)

Section Stream.

Import calls.

Context `{alib : api.Lib}.

Lemma addedByOthers_cons (op : Op) (rest : list api.Turn) :
  addedByOthers (api.Others op :: rest) = added [op] ++ addedByOthers rest.
Proof. by destruct op. Qed.

Lemma step_receivedBy ch (op : Op) (st st1 : Run) :
  step op st = Ok st1 → leavesAlone ch (api.Others op) = true →
  receivedBy ch st1 = receivedBy ch st.
Proof.
  intros Hstep Hal. destruct op as [req| | |ch'|ch']; simpl in Hstep.
  - destruct (Add req (now st)); [|done]. by injection Hstep as <-.
  - by injection Hstep as <-.
  - by injection Hstep as <-.
  - destruct (Unsubscribe ch' (now st)); [|done]. by injection Hstep as <-.
  - injection Hstep as <-. simpl in Hal.
    apply negb_true_iff, bool_decide_eq_false in Hal.
    unfold recv. destruct (w_chans (now st) !! ch') as [c0|]; [|done].
    destruct (gochan.tryRecv c0) as [[[req|] c1]|]; try done.
    unfold receivedBy. simpl. rewrite filter_app.
    rewrite filter_cons_False by done. by rewrite filter_nil, app_nil_r.
Qed.

Lemma leavesAlone_unsubscribes ch (op : Op) :
  leavesAlone ch (api.Others op) = true → unsubscribes ch op = false.
Proof.
  destruct op as [req| | |ch'|ch']; simpl; try done.
  by intros ?%negb_true_iff.
Qed.

(** One call of another goroutine adds at most its record to the queue. *)
Lemma step_queue ch (op : Op) (st st1 : Run) (c : gochan.Chan CapturedRequest) :
  storeOk (now st) → leavesAlone ch (api.Others op) = true →
  step op st = Ok st1 →
  ch ∈ subscribers (w_store (now st)) →
  w_chans (now st) !! ch = Some c → gochan.closed c = false →
  ∃ c1 l, w_chans (now st1) !! ch = Some c1 ∧ gochan.closed c1 = false ∧
          ch ∈ subscribers (w_store (now st1)) ∧
          gochan.buf c1 = gochan.buf c ++ l ∧ l `sublist_of` added [op].
Proof.
  intros Hok Hal Hstep Hin Hl Hc.
  destruct (step_subscriber ch op st st1 c Hok (leavesAlone_unsubscribes _ _ Hal)
              Hstep Hin Hl Hc) as (c1 & Hl1 & Hc1 & Hin1 & l & Heq & Hsub).
  exists c1, l. split; [done|split; [done|split; [done|split; [|done]]]].
  rewrite (step_receivedBy ch op st st1 Hstep Hal) in Heq.
  rewrite <- app_assoc in Heq. by apply app_inv_head in Heq.
Qed.

Lemma afterPanic_ok ch (op : Op) (st : Run) (c : gochan.Chan CapturedRequest) :
  storeOk (now st) → leavesAlone ch (api.Others op) = true →
  ch ∈ subscribers (w_store (now st)) → w_chans (now st) !! ch = Some c →
  storeOk (now (api.afterPanic op st)) ∧
  ch ∈ subscribers (w_store (now (api.afterPanic op st))) ∧
  w_chans (now (api.afterPanic op st)) !! ch = Some c.
Proof.
  intros Hok Hal Hin Hl. destruct op as [req| | |ch'|ch']; simpl; try done.
  simpl in Hal. apply negb_true_iff, bool_decide_eq_false in Hal.
  destruct Hok as (Hpos & Hlen & Hopen). split; [|split; [|done]].
  - split; [done|split; [done|]]. intros ch0 [Hin0 _]%elem_of_difference.
    by apply Hopen.
  - apply elem_of_difference. split; [done|].
    apply not_elem_of_singleton. congruence.
Qed.

(** The loop, seen from the handle it serves: the records it writes out
    are taken from the queue in order, the queue is fed only by appends of
    the other goroutines, and the loop returns only at the end of the
    request's context. *)
Lemma streamLoop_spec ch (turns : list api.Turn) :
  ∀ (st : Run) (out : list api.Event) (c : gochan.Chan CapturedRequest),
    storeOk (now st) → ch ∈ subscribers (w_store (now st)) →
    w_chans (now st) !! ch = Some c → gochan.closed c = false →
    Forall (fun t => leavesAlone ch t = true) turns →
    ∃ returned out' st' c' taken l,
      api.streamLoop ch turns st out = (returned, out', st') ∧
      storeOk (now st') ∧ ch ∈ subscribers (w_store (now st')) ∧
      w_chans (now st') !! ch = Some c' ∧ gochan.closed c' = false ∧
      out' = out ++ mjoin (api.requestEvents <$> taken) ∧
      taken ++ gochan.buf c' = gochan.buf c ++ l ∧
      l `sublist_of` addedByOthers turns ∧
      (returned = true → api.Gone ∈ turns).
Proof.
  induction turns as [|t turns IH]; intros st out c Hok Hin Hl Hc Hal.
  - exists false, out, st, c, [], []. simpl.
    rewrite !app_nil_r. split_and!; done.
  - apply Forall_cons in Hal as [Ht Hal]. destruct t as [op| |].
    + cbn [api.streamLoop]. destruct (step op st) as [st1|msg] eqn:Hstep.
      * destruct (step_queue ch op st st1 c Hok Ht Hstep Hin Hl Hc)
          as (c1 & l1 & Hl1 & Hc1 & Hin1 & Hb1 & Hs1).
        destruct (IH st1 out c1 (step_ok op st st1 Hok Hstep) Hin1 Hl1 Hc1 Hal)
          as (ret & out' & st' & c' & taken & l & Hrun & Hok' & Hin' & Hl' & Hc'
              & Hout & Hq & Hs & Hret).
        exists ret, out', st', c', taken, (l1 ++ l).
        split_and!; try done.
        -- rewrite Hq, Hb1. by rewrite <- app_assoc.
        -- rewrite addedByOthers_cons. by apply sublist_app.
        -- intros Hr. apply elem_of_cons. right. by apply Hret.
      * destruct (afterPanic_ok ch op st c Hok Ht Hin Hl) as (Hok1 & Hin1 & Hl1).
        destruct (IH (api.afterPanic op st) out c Hok1 Hin1 Hl1 Hc Hal)
          as (ret & out' & st' & c' & taken & l & Hrun & Hok' & Hin' & Hl' & Hc'
              & Hout & Hq & Hs & Hret).
        exists ret, out', st', c', taken, l.
        split_and!; try done.
        -- rewrite addedByOthers_cons.
           change l with ([] ++ l). apply sublist_app; [apply sublist_nil_l|done].
        -- intros Hr. apply elem_of_cons. right. by apply Hret.
    + simpl. rewrite Hl. unfold gochan.tryRecv.
      destruct (gochan.buf c) as [|req rest] eqn:Hbuf.
      * rewrite Hc.
        destruct (IH st out c Hok Hin Hl Hc Hal)
          as (ret & out' & st' & c' & taken & l & Hrun & Hok' & Hin' & Hl' & Hc'
              & Hout & Hq & Hs & Hret).
        exists ret, out', st', c', taken, l.
        split_and!; try done.
        -- by rewrite Hq, Hbuf.
        -- intros Hr. apply elem_of_cons. right. by apply Hret.
      * assert (Hl1 : w_chans (now (recv ch st)) !! ch
                      = Some (gochan.mkChan rest (gochan.capacity c) (gochan.closed c))).
        { unfold recv. rewrite Hl. unfold gochan.tryRecv. rewrite Hbuf. simpl.
          apply lookup_insert_eq. }
        destruct (IH (recv ch st) (out ++ api.requestEvents req) _
                    (recv_ok ch st Hok) ltac:(by rewrite recv_store) Hl1 Hc Hal)
          as (ret & out' & st' & c' & taken & l & Hrun & Hok' & Hin' & Hl' & Hc'
              & Hout & Hq & Hs & Hret).
        exists ret, out', st', c', (req :: taken), l.
        split_and!; try done.
        -- rewrite Hout. simpl. by rewrite <- app_assoc.
        -- simpl. simpl in Hq. by rewrite Hq.
        -- intros Hr. apply elem_of_cons. right. by apply Hret.
    + exists true, out, st, c, [], []. simpl. rewrite !app_nil_r.
      split_and!; try done.
      intros _. apply elem_of_cons. by left.
Qed.

End Stream.

Section Endpoints.

Context `{alib : api.Lib}.

Lemma wrap64_small (z : Z) : - 2 ^ 63 ≤ z < 2 ^ 63 → api.wrap64 z = z.
Proof. intros Hz. unfold api.wrap64. rewrite Z.mod_small by lia. lia. Qed.

Lemma sumDurations_nonneg (rs : list CapturedRequest) :
  Forall (fun req => 0 ≤ Duration req) rs → 0 ≤ sumDurations rs.
Proof.
  induction 1 as [|req rs Hreq _ IH]; simpl; [done|]. lia.
Qed.

Lemma triple_eq {A B C} (a a' : A) (b b' : B) (c c' : C) :
  a = a' → b = b' → c = c' → (a, b, c) = (a', b', c').
Proof. by intros -> -> ->. Qed.

Lemma statsStep_eq (a b t : Z) (req : CapturedRequest) :
  api.statsStep (a, b, t) req
  = if IsHTTPS req
    then (a, b + 1, api.wrap64 (t + Duration req))
    else (a + 1, b, api.wrap64 (t + Duration req)).
Proof. reflexivity. Qed.

(** The loop of [handleStats] from any state of its three variables. *)
Lemma statsLoop_from (rs : list CapturedRequest) : ∀ (a b t : Z),
  ∃ t',
    foldl api.statsStep (a, b, t) rs
    = (a + Z.of_nat (length (filter (fun req => IsHTTPS req = false) rs)),
       b + Z.of_nat (length (filter (fun req => IsHTTPS req = true) rs)), t') ∧
    (Forall (fun req => 0 ≤ Duration req) rs → 0 ≤ t →
     t + sumDurations rs < 2 ^ 63 → t' = t + sumDurations rs).
Proof.
  induction rs as [|req rs IH]; intros a b t.
  - exists t. simpl. split; [apply triple_eq; lia|]. intros _ _ _. lia.
  - cbn [foldl]. rewrite statsStep_eq.
    destruct (IsHTTPS req) eqn:Hs.
    + destruct (IH a (b + 1) (api.wrap64 (t + Duration req))) as (t' & Hrun & Hsum).
      exists t'. split.
      * rewrite Hrun. rewrite filter_cons_False by (rewrite Hs; done).
        rewrite filter_cons_True by done. simpl length. apply triple_eq; lia.
      * intros [Hreq Hall]%Forall_cons Ht Hlt. simpl in Hlt.
        pose proof (sumDurations_nonneg rs Hall).
        rewrite wrap64_small in Hsum by lia.
        rewrite Hsum; [simpl; lia|done|lia|lia].
    + destruct (IH (a + 1) b (api.wrap64 (t + Duration req))) as (t' & Hrun & Hsum).
      exists t'. split.
      * rewrite Hrun. rewrite filter_cons_True by done.
        rewrite filter_cons_False by (rewrite Hs; done).
        simpl length. apply triple_eq; lia.
      * intros [Hreq Hall]%Forall_cons Ht Hlt. simpl in Hlt.
        pose proof (sumDurations_nonneg rs Hall).
        rewrite wrap64_small in Hsum by lia.
        rewrite Hsum; [simpl; lia|done|lia|lia].
Qed.

Lemma filter_partition_length {A} (P : A → bool) (l : list A) :
  (length (filter (fun x => P x = false) l)
   + length (filter (fun x => P x = true) l) = length l)%nat.
Proof.
  induction l as [|x l IH]; [done|].
  destruct (P x) eqn:Hp.
  - rewrite filter_cons_False by (rewrite Hp; done).
    rewrite filter_cons_True by done. simpl. lia.
  - rewrite filter_cons_True by done.
    rewrite filter_cons_False by (rewrite Hp; done). simpl. lia.
Qed.

Lemma GetRecent_cases (n : Z) (w : World) :
  0 ≤ n →
  GetRecent n w
  = (if (n =? 0) || (Count w <=? n) then GetAll w
     else lastN (Z.to_nat n) (GetAll w)).
Proof.
  intros Hn. destruct (Z.eqb_spec n 0) as [->|Hne]; simpl.
  - apply GetRecent_all. by left.
  - destruct (Z.leb_spec (Count w) n) as [Hc|Hc].
    + apply GetRecent_all. by right.
    + apply GetRecent_last. lia.
Qed.

Lemma skip_byIDPrefix (id : string) :
  api.skip (String.length api.byIDPrefix) (api.byIDPrefix +:+ id) = id.
Proof. reflexivity. Qed.

Lemma byIDPrefix_long (id : string) :
  (String.length (api.byIDPrefix +:+ id) <? String.length api.byIDPrefix)%nat
  = false.
Proof. reflexivity. Qed.

(** The identifier endpoint on a path that starts with its prefix. *)
Lemma handleRequestByID_path (r : http.Request) (w : World) (id : string) :
  http.Method r = "GET" → url.Path (http.URL r) = api.byIDPrefix +:+ id →
  api.handleRequestByID r w
  = if String.eqb id "" || String.eqb id "stream"
    then Ok ([api.EvHttpError "Request ID required" 400], w)
    else match GetByID id w with
         | None => Ok ([api.EvHttpError "Request not found" 404], w)
         | Some req => Ok ([api.jsonHeader; api.EvEncodeRecord req], w)
         end.
Proof.
  intros Hm Hp. unfold api.handleRequestByID. rewrite Hm, Hp. simpl negb.
  cbv iota. by rewrite byIDPrefix_long, skip_byIDPrefix.
Qed.

Lemma findByID_none (id : string) (rs : list CapturedRequest) :
  (∀ req, req ∈ rs → ID req ≠ id) → findByID id rs = None.
Proof.
  induction rs as [|req rs IH]; intros Hall; simpl; [done|].
  destruct (String.eqb_spec (ID req) id) as [Heq|_].
  - destruct (Hall req); [by left|done].
  - apply IH. intros req' Hin. apply Hall. by right.
Qed.

(** The loop of [handleStream] goes on only while the context lasts. *)
Lemma streamLoop_running ch (turns : list api.Turn) :
  ∀ (st : calls.Run) (out out' : list api.Event) (st' : calls.Run),
    api.streamLoop ch turns st out = (false, out', st') → api.Gone ∉ turns.
Proof.
  induction turns as [|t turns IH]; intros st out out' st' Hrun.
  - by intros ?%elem_of_nil.
  - intros [Heq|Hin]%elem_of_cons.
    + subst t. by simpl in Hrun.
    + destruct t as [op| |]; cbn [api.streamLoop] in Hrun.
      * destruct (calls.step op st); by eapply IH.
      * destruct (w_chans (calls.now st) !! ch) as [c|]; [|by eapply IH].
        destruct (gochan.tryRecv c) as [[[req|] c']|]; [by eapply IH|done|by eapply IH].
      * done.
Qed.

End Endpoints.

(** X19. A GET of the request list with a limit that is a non-negative
    decimal number answers with the whole history when the limit is 0 or
    not below the number of stored records, and with the last [limit]
    records otherwise; the count it reports is the number of records it
    shows. The store is left as it is. *)
Theorem X19_requests_limit :
  ∀ (alib : api.Lib) (r : http.Request) (w : World) (limit : Z),
    http.Method r = "GET" →
    api.queryGet (url.RawQuery (http.URL r)) "limit" ≠ "" →
    strconv.Atoi (api.queryGet (url.RawQuery (http.URL r)) "limit") = Some limit →
    0 ≤ limit →
    let shown := if (limit =? 0) || (Count w <=? limit) then GetAll w
                 else lastN (Z.to_nat limit) (GetAll w) in
    api.handleRequests r w
    = ([api.jsonHeader;
        api.EvEncodeMap {[ "requests" := api.FRecords shown;
                           "count" := api.FInt (Z.of_nat (length shown)) ]}], w) ∧
    Z.of_nat (length shown)
    = (if (limit =? 0) || (Count w <=? limit) then Count w else limit).
Proof.
  intros alib r w limit Hm Hne Hatoi Hpos shown.
  split.
  - unfold api.handleRequests. rewrite Hm. simpl.
    rewrite (proj2 (String.eqb_neq _ _) Hne). simpl. rewrite Hatoi.
    rewrite (proj2 (Z.ltb_ge _ _) Hpos). by rewrite GetRecent_cases.
  - unfold shown.
    destruct ((limit =? 0) || (Count w <=? limit)) eqn:Hcase; [done|].
    apply orb_false_iff in Hcase as [Hn%Z.eqb_neq Hc%Z.leb_gt].
    rewrite lastN_length. unfold Count, GetAll in *. lia.
Qed.

Lemma X19_requests_limit_witness :
  let r := apiCases.get "/api/requests" "limit=2" in
  let w := apiCases.five in
  let shown := [samples.record 3; samples.record 4] in
  @api.handleRequests apiCases.queryLib r w
  = ([api.jsonHeader;
      api.EvEncodeMap {[ "requests" := api.FRecords shown;
                         "count" := api.FInt 2 ]}], w) ∧
  Z.of_nat (length shown) = 2.
Proof.
  intros r w shown.
  apply (X19_requests_limit apiCases.queryLib r w 2); by vm_compute.
Defined.

(** X20. A GET of the request list whose limit is not a decimal number in
    the range of [int], or is negative, is answered with status 400 and
    nothing else; no record is shown and the store is left as it is. *)
Theorem X20_requests_bad_limit :
  ∀ (alib : api.Lib) (r : http.Request) (w : World),
    http.Method r = "GET" →
    api.queryGet (url.RawQuery (http.URL r)) "limit" ≠ "" →
    match strconv.Atoi (api.queryGet (url.RawQuery (http.URL r)) "limit") with
    | Some limit => limit < 0
    | None => True
    end →
    api.handleRequests r w
    = ([api.EvHttpError "Invalid limit parameter" 400], w).
Proof.
  intros alib r w Hm Hne Hbad.
  unfold api.handleRequests. rewrite Hm. simpl.
  rewrite (proj2 (String.eqb_neq _ _) Hne). simpl.
  destruct (strconv.Atoi _) as [limit|]; [|done].
  by rewrite (proj2 (Z.ltb_lt _ _) Hbad).
Qed.

Lemma X20_requests_bad_limit_witness :
  @api.handleRequests apiCases.queryLib
    (apiCases.get "/api/requests" "limit=-3") apiCases.five
  = ([api.EvHttpError "Invalid limit parameter" 400], apiCases.five) ∧
  @api.handleRequests apiCases.queryLib
    (apiCases.get "/api/requests" "limit=2x") apiCases.five
  = ([api.EvHttpError "Invalid limit parameter" 400], apiCases.five) ∧
  @api.handleRequests apiCases.queryLib
    (apiCases.get "/api/requests" "limit=9223372036854775808") apiCases.five
  = ([api.EvHttpError "Invalid limit parameter" 400], apiCases.five).
Proof.
  split_and!.
  - apply (X20_requests_bad_limit apiCases.queryLib
             (apiCases.get "/api/requests" "limit=-3") apiCases.five);
      by vm_compute.
  - apply (X20_requests_bad_limit apiCases.queryLib
             (apiCases.get "/api/requests" "limit=2x") apiCases.five);
      by vm_compute.
  - apply (X20_requests_bad_limit apiCases.queryLib
             (apiCases.get "/api/requests" "limit=9223372036854775808")
             apiCases.five);
      by vm_compute.
Defined.

(** X21. The query endpoints never change the store: the request list, the
    lookup by identifier, the statistics and the health check leave it as it
    is whatever the request, and so does the streaming endpoint on a writer
    that cannot flush, which never subscribes. A request with another method
    than GET gets status 405 from each of them but the health check, which
    answers every method; the clearing endpoint answers 405, and clears
    nothing, for every method but POST and DELETE. *)
Theorem X21_queries_keep_store :
  ∀ (alib : api.Lib) (r : http.Request) (w : World) (turns : list api.Turn),
    (api.handleRequests r w).2 = w ∧
    (api.handleStats r w).2 = w ∧
    api.handleHealth r w
    = ([api.jsonHeader; api.EvEncodeMap {[ "status" := api.FString "healthy" ]}], w) ∧
    (∀ res, api.handleRequestByID r w = Ok res → res.2 = w) ∧
    (∃ out, api.handleStream false turns r w
            = Ok (api.Returned out (calls.begin w))) ∧
    (http.Method r ≠ "GET" →
     api.handleRequests r w = ([api.EvHttpError "Method not allowed" 405], w) ∧
     api.handleRequestByID r w
     = Ok ([api.EvHttpError "Method not allowed" 405], w) ∧
     api.handleStats r w = ([api.EvHttpError "Method not allowed" 405], w) ∧
     ∀ flusher, api.handleStream flusher turns r w
                = Ok (api.Returned [api.EvHttpError "Method not allowed" 405]
                        (calls.begin w))) ∧
    (http.Method r ≠ "POST" → http.Method r ≠ "DELETE" →
     api.handleClear r w = ([api.EvHttpError "Method not allowed" 405], w)).
Proof.
  intros alib r w turns. split_and!.
  - unfold api.handleRequests.
    destruct (negb (String.eqb (http.Method r) "GET")); [done|].
    destruct (negb (String.eqb _ "")); [|done].
    destruct (strconv.Atoi _) as [limit|]; [|done].
    by destruct (limit <? 0).
  - unfold api.handleStats.
    destruct (negb (String.eqb (http.Method r) "GET")); [done|].
    by destruct (api.statsLoop (GetAll w)) as [[? ?] ?].
  - done.
  - intros res. unfold api.handleRequestByID.
    destruct (negb (String.eqb (http.Method r) "GET")); [by intros [= <-]|].
    destruct (_ <? _)%nat; [done|].
    destruct (_ || _); [by intros [= <-]|].
    destruct (GetByID _ w); by intros [= <-].
  - unfold api.handleStream.
    destruct (negb (String.eqb (http.Method r) "GET")); by eexists.
  - intros Hm%String.eqb_neq.
    unfold api.handleRequests, api.handleRequestByID, api.handleStats,
      api.handleStream.
    by rewrite Hm.
  - intros Hp%String.eqb_neq Hd%String.eqb_neq.
    unfold api.handleClear. by rewrite Hp, Hd.
Qed.

(** X22. A record appended to a well-formed store under an identifier that
    is new, not empty and not the word stream is what a GET of the path of
    that identifier returns from then on; before the append the same request
    is answered with status 404. *)
Theorem X22_request_by_id_after_add :
  ∀ (r : http.Request) (w : World) (req : CapturedRequest),
    storeOk w →
    http.Method r = "GET" →
    url.Path (http.URL r) = api.byIDPrefix +:+ ID req →
    ID req ≠ "" → ID req ≠ "stream" →
    (∀ old, old ∈ GetAll w → ID old ≠ ID req) →
    api.handleRequestByID r w
    = Ok ([api.EvHttpError "Request not found" 404], w) ∧
    ∃ w', Add req w = Ok w' ∧
          api.handleRequestByID r w'
          = Ok ([api.jsonHeader; api.EvEncodeRecord req], w').
Proof.
  intros r w req Hok Hm Hp Hne Hns Hnew.
  assert (Hid : String.eqb (ID req) "" || String.eqb (ID req) "stream" = false).
  { apply orb_false_iff. split; by apply String.eqb_neq. }
  split.
  - rewrite (handleRequestByID_path r w (ID req) Hm Hp), Hid.
    unfold GetByID. by rewrite findByID_none.
  - destruct (Add_spec req w Hok) as (w' & Hadd & Hreq & _).
    exists w'. split; [done|].
    rewrite (handleRequestByID_path r w' (ID req) Hm Hp), Hid.
    unfold GetByID. rewrite Hreq.
    rewrite (findByID_first (ID req) (evict w) [] req); [done| |done].
    intros old Hin. apply Hnew. unfold GetAll, evict in *.
    destruct (_ >=? _); [|done].
    destruct (requests (w_store w)); [done|]. by right.
Qed.

Lemma X22_request_by_id_after_add_witness :
  let r := apiCases.get "/api/requests/7" "" in
  api.handleRequestByID r apiCases.five
  = Ok ([api.EvHttpError "Request not found" 404], apiCases.five) ∧
  ∃ w', Add (samples.record 7) apiCases.five = Ok w' ∧
        api.handleRequestByID r w'
        = Ok ([api.jsonHeader; api.EvEncodeRecord (samples.record 7)], w').
Proof.
  intros r.
  apply (X22_request_by_id_after_add r apiCases.five (samples.record 7)).
  - split; [done|split; [by vm_compute|]]. by intros ch Hin%elem_of_empty.
  - done.
  - by vm_compute.
  - by vm_compute.
  - by vm_compute.
  - apply (proj1 (Forall_forall (fun old => ID old ≠ ID (samples.record 7)) _)).
    apply (bool_decide_unpack _). by vm_compute.
Defined.

(** X23. What a GET of the identifier endpoint answers when it finds no
    record: on a path shorter than the prefix the slice of the path panics;
    with nothing after the prefix, or the word stream, the answer is status
    400 and the store is not consulted; with an identifier no stored record
    carries it is status 404. *)
Theorem X23_request_by_id_errors :
  ∀ (r : http.Request) (w : World),
    http.Method r = "GET" →
    ((String.length (url.Path (http.URL r)) < String.length api.byIDPrefix)%nat →
     api.handleRequestByID r w = Panic "slice bounds out of range") ∧
    (∀ id, url.Path (http.URL r) = api.byIDPrefix +:+ id →
       (id = "" ∨ id = "stream" →
        api.handleRequestByID r w
        = Ok ([api.EvHttpError "Request ID required" 400], w)) ∧
       (id ≠ "" → id ≠ "stream" →
        (∀ req, req ∈ GetAll w → ID req ≠ id) →
        api.handleRequestByID r w
        = Ok ([api.EvHttpError "Request not found" 404], w))).
Proof.
  intros r w Hm. split.
  - intros Hshort. unfold api.handleRequestByID. rewrite Hm. simpl negb.
    cbv iota. by rewrite (proj2 (Nat.ltb_lt _ _) Hshort).
  - intros id Hp. rewrite (handleRequestByID_path r w id Hm Hp). split.
    + by intros [->| ->].
    + intros Hne%String.eqb_neq Hns%String.eqb_neq Hnone.
      rewrite Hne, Hns. simpl. unfold GetByID. by rewrite findByID_none.
Qed.

Lemma X23_request_by_id_errors_witness :
  api.handleRequestByID (apiCases.get "/api/request" "") apiCases.five
  = Panic "slice bounds out of range" ∧
  api.handleRequestByID (apiCases.get "/api/requests/stream" "") apiCases.five
  = Ok ([api.EvHttpError "Request ID required" 400], apiCases.five) ∧
  api.handleRequestByID (apiCases.get "/api/requests/" "") apiCases.five
  = Ok ([api.EvHttpError "Request ID required" 400], apiCases.five).
Proof.
  split_and!.
  - apply (X23_request_by_id_errors (apiCases.get "/api/request" "")
             apiCases.five eq_refl). simpl. lia.
  - apply (proj2 (X23_request_by_id_errors
                    (apiCases.get "/api/requests/stream" "")
                    apiCases.five eq_refl) "stream" eq_refl). by right.
  - apply (proj2 (X23_request_by_id_errors (apiCases.get "/api/requests/" "")
                    apiCases.five eq_refl) "" eq_refl). by left.
Defined.

(** X24. A POST or a DELETE of the clearing endpoint empties the history and
    keeps the capacity, the subscribers and their queues; right after it the
    request list shows no record and the count 0, the statistics report zero
    requests and a zero average, and every identifier is answered with
    status 404. *)
Theorem X24_clear_endpoint :
  ∀ (alib : api.Lib) (r get : http.Request) (w : World),
    http.Method r = "POST" ∨ http.Method r = "DELETE" →
    http.Method get = "GET" →
    ∃ w',
      api.handleClear r w
      = ([api.jsonHeader;
          api.EvEncodeMap {[ "status" := api.FString "cleared" ]}], w') ∧
      maxSize (w_store w') = maxSize (w_store w) ∧
      subscribers (w_store w') = subscribers (w_store w) ∧
      w_chans w' = w_chans w ∧
      (api.queryGet (url.RawQuery (http.URL get)) "limit" = "" →
       api.handleRequests get w'
       = ([api.jsonHeader;
           api.EvEncodeMap {[ "requests" := api.FRecords [];
                              "count" := api.FInt 0 ]}], w')) ∧
      api.handleStats get w'
      = ([api.jsonHeader;
          api.EvEncodeMap {[ "total_requests" := api.FInt 0;
                             "http_requests" := api.FInt 0;
                             "https_requests" := api.FInt 0;
                             "average_duration_ms" := api.FInt 0 ]}], w') ∧
      (∀ id, id ≠ "" → id ≠ "stream" →
             url.Path (http.URL get) = api.byIDPrefix +:+ id →
             api.handleRequestByID get w'
             = Ok ([api.EvHttpError "Request not found" 404], w')).
Proof.
  intros alib r get w Hr Hget. exists (Clear w). split_and!; try done.
  - unfold api.handleClear. by destruct Hr as [-> | ->].
  - intros Hq. unfold api.handleRequests. rewrite Hget, Hq. done.
  - unfold api.handleStats. by rewrite Hget.
  - intros id Hne%String.eqb_neq Hns%String.eqb_neq Hp.
    rewrite (handleRequestByID_path get (Clear w) id Hget Hp).
    by rewrite Hne, Hns.
Qed.

Lemma X24_clear_endpoint_witness :
  ∃ w',
    api.handleClear (apiCases.withMethod "DELETE" "/api/clear") apiCases.five
    = ([api.jsonHeader;
        api.EvEncodeMap {[ "status" := api.FString "cleared" ]}], w') ∧
    Count apiCases.five = 5 ∧ Count w' = 0 ∧
    @api.handleRequests apiCases.queryLib (apiCases.get "/api/requests" "") w'
    = ([api.jsonHeader;
        api.EvEncodeMap {[ "requests" := api.FRecords [];
                           "count" := api.FInt 0 ]}], w').
Proof.
  destruct (X24_clear_endpoint apiCases.queryLib
              (apiCases.withMethod "DELETE" "/api/clear")
              (apiCases.get "/api/requests" "") apiCases.five)
    as (w' & Hclear & _ & _ & _ & Hlist & _); [by right|done|].
  exists w'. split; [exact Hclear|]. split; [done|].
  split; [by injection Hclear as <-|]. by apply Hlist.
Defined.

(** X25. The statistics of a GET: the total is the number of stored
    records, the HTTPS count is the number of records with the HTTPS flag
    and the HTTP count the number of the others, so the two add up to the
    total; the average is 0 on an empty store, and when no duration is
    negative and their sum fits 64 bits it is that sum, divided by the
    number of records and then by a million, both divisions truncated. *)
Theorem X25_stats :
  ∀ (r : http.Request) (w : World),
    http.Method r = "GET" →
    ∃ httpCount httpsCount average,
      api.handleStats r w
      = ([api.jsonHeader;
          api.EvEncodeMap {[ "total_requests" := api.FInt (Count w);
                             "http_requests" := api.FInt httpCount;
                             "https_requests" := api.FInt httpsCount;
                             "average_duration_ms" := api.FInt average ]}], w) ∧
      httpCount
      = Z.of_nat (length (filter (fun req => IsHTTPS req = false) (GetAll w))) ∧
      httpsCount
      = Z.of_nat (length (filter (fun req => IsHTTPS req = true) (GetAll w))) ∧
      httpCount + httpsCount = Count w ∧
      (Count w = 0 → average = 0) ∧
      (Forall (fun req => 0 ≤ Duration req) (GetAll w) →
       sumDurations (GetAll w) < 2 ^ 63 → 0 < Count w →
       average = Z.quot (Z.quot (sumDurations (GetAll w)) (Count w)) 1000000).
Proof.
  intros r w Hm.
  destruct (statsLoop_from (GetAll w) 0 0 0) as (t' & Hloop & Hsum).
  fold (api.statsLoop (GetAll w)) in Hloop. rewrite !Z.add_0_l in Hloop.
  eexists _, _, _. split_and!.
  - unfold api.handleStats. rewrite Hm, Hloop. simpl negb. cbv iota.
    reflexivity.
  - reflexivity.
  - reflexivity.
  - pose proof (filter_partition_length IsHTTPS (GetAll w)).
    unfold Count, GetAll in *. lia.
  - unfold Count, GetAll. intros Hz.
    by destruct (requests (w_store w)).
  - intros Hall Hfit Hpos. unfold Count, GetAll in *.
    rewrite (Hsum Hall) by lia. rewrite Z.add_0_l.
    destruct (requests (w_store w)); [simpl in Hpos; lia|done].
Qed.

Lemma X25_stats_witness :
  ∃ httpCount httpsCount average,
    api.handleStats (apiCases.get "/api/stats" "") apiCases.timedStore
    = ([api.jsonHeader;
        api.EvEncodeMap {[ "total_requests" := api.FInt 3;
                           "http_requests" := api.FInt httpCount;
                           "https_requests" := api.FInt httpsCount;
                           "average_duration_ms" := api.FInt average ]}],
       apiCases.timedStore) ∧
    httpCount = 2 ∧ httpsCount = 1 ∧ average = 3.
Proof.
  destruct (X25_stats (apiCases.get "/api/stats" "") apiCases.timedStore eq_refl)
    as (h & s & a & Hrun & Hh & Hs & _ & _ & Ha).
  exists h, s, a. split; [exact Hrun|]. split; [by rewrite Hh|].
  split; [by rewrite Hs|]. rewrite Ha; [done| |done|done].
  repeat constructor; by vm_compute.
Defined.

(** X26. Every answer that passes the CORS wrapper starts with its three
    headers. For an OPTIONS request the wrapped handler is not called at
    all: the answer is the three headers and status 200, and the store is as
    before, whatever the handler would have done. For every other method
    the rest of the answer and the store are the wrapped handler's. *)
Theorem X26_cors_wrapper :
  ∀ (next : http.Request → World → Result (list api.Event * World))
    (r : http.Request) (w w' : World) (evs : list api.Event),
    api.corsMiddleware next r w = Ok (evs, w') →
    take 3 evs = api.corsHeaders ∧
    (http.Method r = "OPTIONS" →
     drop 3 evs = [api.EvWriteHeader 200] ∧ w' = w) ∧
    (http.Method r ≠ "OPTIONS" → next r w = Ok (drop 3 evs, w')).
Proof.
  intros next r w w' evs. unfold api.corsMiddleware.
  destruct (String.eqb_spec (http.Method r) "OPTIONS") as [Hm|Hm].
  - intros [= <- <-]. by split_and!.
  - destruct (next r w) as [[evs0 w0]|msg]; [|done]. simpl.
    intros [= <- <-]. by split_and!.
Qed.

Lemma X26_cors_wrapper_witness :
  let clear := fun r w => Ok (api.handleClear r w) in
  api.corsMiddleware clear (apiCases.withMethod "OPTIONS" "/api/clear")
    apiCases.five
  = Ok (api.corsHeaders ++ [api.EvWriteHeader 200], apiCases.five) ∧
  take 3 (api.corsHeaders ++ [api.EvWriteHeader 200]) = api.corsHeaders ∧
  drop 3 (api.corsHeaders ++ [api.EvWriteHeader 200]) = [api.EvWriteHeader 200].
Proof.
  intros clear.
  destruct (X26_cors_wrapper clear (apiCases.withMethod "OPTIONS" "/api/clear")
              apiCases.five apiCases.five
              (api.corsHeaders ++ [api.EvWriteHeader 200]) eq_refl)
    as (Hhead & Hopt & _).
  split; [done|]. split; [exact Hhead|]. by destruct (Hopt eq_refl).
Defined.

(** X27. The streaming endpoint, on a GET with a writer that can flush, a
    well-formed store and other goroutines that leave its handle alone,
    never panics. It writes the three stream headers, the connected event
    and a flush, and then one event for each record it took that can be
    marshalled; the records it took are records the other goroutines
    appended meanwhile, in the order of their appends. It returns only when
    the request's context ends, and then its handle is unsubscribed and
    closed and the store is well formed; until then the handle stays
    subscribed. *)
Theorem X27_stream :
  ∀ (alib : api.Lib) (turns : list api.Turn) (r : http.Request) (w : World),
    storeOk w →
    http.Method r = "GET" →
    Forall (fun t => leavesAlone (Subscribe w).1 t = true) turns →
    ∃ taken,
      taken `sublist_of` addedByOthers turns ∧
      match api.handleStream true turns r w with
      | Ok (api.Returned out st) =>
          out = api.streamHeaders
                ++ [api.EvWrite api.connectedEvent; api.EvFlush]
                ++ mjoin (api.requestEvents <$> taken) ∧
          api.Gone ∈ turns ∧
          storeOk (calls.now st) ∧
          ((Subscribe w).1 ∉ subscribers (w_store (calls.now st))) ∧
          gochan.closed <$> w_chans (calls.now st) !! (Subscribe w).1 = Some true
      | Ok (api.Streaming out st) =>
          out = api.streamHeaders
                ++ [api.EvWrite api.connectedEvent; api.EvFlush]
                ++ mjoin (api.requestEvents <$> taken) ∧
          (api.Gone ∉ turns) ∧
          storeOk (calls.now st) ∧
          (Subscribe w).1 ∈ subscribers (w_store (calls.now st)) ∧
          gochan.closed <$> w_chans (calls.now st) !! (Subscribe w).1 = Some false
      | Panic _ => False
      end.
Proof.
  intros alib turns r w Hok Hm Hal.
  destruct (streamLoop_spec (Subscribe w).1 turns (calls.begin (Subscribe w).2)
              (api.streamHeaders ++ [api.EvWrite api.connectedEvent; api.EvFlush])
              (gochan.make 100))
    as (ret & out' & st' & c' & taken & l & Hrun & Hok' & Hin' & Hl' & Hc'
        & Hout & Hbuf & Hsub & Hgone).
  { apply (Subscribe_ok _ Hok). }
  { simpl. apply elem_of_union. left. by apply elem_of_singleton. }
  { simpl. by rewrite lookup_insert_eq. }
  { done. }
  { done. }
  exists taken. split.
  { simpl in Hbuf. rewrite <- Hbuf in Hsub.
    etrans; [|exact Hsub]. by apply sublist_inserts_r. }
  unfold api.handleStream. rewrite Hm. simpl negb. cbv iota.
  change (Subscribe w) with ((Subscribe w).1, (Subscribe w).2) at 1.
  cbv iota beta. rewrite Hrun.
  rewrite <- app_assoc in Hout.
  destruct ret.
  - unfold Unsubscribe. rewrite Hl'. unfold gochan.close. rewrite Hc'. simpl.
    split_and!.
    + done.
    + by apply Hgone.
    + apply (Unsubscribe_ok (Subscribe w).1 (calls.now st')); [done|].
      unfold Unsubscribe. rewrite Hl'. unfold gochan.close. by rewrite Hc'.
    + intros [_ Hni]%elem_of_difference. apply Hni. by apply elem_of_singleton.
    + by rewrite lookup_insert_eq.
  - split_and!; try done.
    + by apply (streamLoop_running _ _ _ _ _ _ Hrun).
    + by rewrite Hl', <- Hc'.
Qed.

Lemma X27_stream_witness :
  let turns := [api.Others (calls.OpAdd (samples.record 0)); api.Take;
                api.Others (calls.OpAdd (samples.record 1)); api.Take;
                api.Take; api.Gone] in
  let r := apiCases.get "/api/requests/stream" "" in
  let w := NewWorld 3 in
  ∃ taken,
    taken `sublist_of` addedByOthers turns ∧
    match @api.handleStream apiCases.queryLib true turns r w with
    | Ok (api.Returned out st) =>
        out = api.streamHeaders
              ++ [api.EvWrite api.connectedEvent; api.EvFlush]
              ++ mjoin (@api.requestEvents apiCases.queryLib <$> taken) ∧
        api.Gone ∈ turns ∧
        storeOk (calls.now st) ∧
        ((Subscribe w).1 ∉ subscribers (w_store (calls.now st))) ∧
        gochan.closed <$> w_chans (calls.now st) !! (Subscribe w).1 = Some true
    | Ok (api.Streaming out st) =>
        out = api.streamHeaders
              ++ [api.EvWrite api.connectedEvent; api.EvFlush]
              ++ mjoin (@api.requestEvents apiCases.queryLib <$> taken) ∧
        (api.Gone ∉ turns) ∧
        storeOk (calls.now st) ∧
        (Subscribe w).1 ∈ subscribers (w_store (calls.now st)) ∧
        gochan.closed <$> w_chans (calls.now st) !! (Subscribe w).1 = Some false
    | Panic _ => False
    end.
Proof.
  intros turns r w.
  apply (X27_stream apiCases.queryLib turns r w).
  - apply NewWorld_ok.
  - done.
  - repeat constructor.
Defined.
